(** * CallerID: a shallow embedding of the caller-ID display firmware

    The development follows [CallerID.ino]:
    - the C library's [sscanf] for the ["%d"] and ["%hd"] conversions,
    - the packet parsing routines [match], [copy], [parse_phoneline],
    - the call list in memory ([add_call], [update_duration]),
    - the archive in non-volatile memory ([eeprom_add_call]),
    - the packet part of [loop],
    - the serial-port and push-button editor [input_string].

    Integers of the program are modelled as [Z]; the 16-bit [short int]
    and the 8-bit [byte] conversions are written out ([to_short],
    [to_byte]).  Characters are [ascii], C strings and buffers are
    [list ascii], arrays are lists indexed through [arr_get]/[arr_set]. *)

From Stdlib Require Import ZArith Lia Bool Ascii String List.
From stdpp Require Import base list.
Import ListNotations.
Local Open Scope Z_scope.

(** * The program *)

(** ** Constants *)

Definition MAX_LINES : Z := 8.
Definition MAX_CALLS : Z := 200.
Definition MAX_PACKET : Z := 255.
Definition EEPROM_SIZE : Z := 4096.
Definition WIFI_NAMELENGTH : Z := 31.
Definition LINE_NAMELENGTH : Z := 15.

(** ** Machine integers *)

(** Conversion to [short int] (16 bits, two's complement). *)
Definition to_short (z : Z) : Z := (z + 32768) mod 65536 - 32768.

(** Conversion to [byte] (8 bits, unsigned). *)
Definition to_byte (z : Z) : Z := z mod 256.

(** Conversion to [size_t] (32 bits, unsigned), the type of [sizeof]. *)
Definition to_size_t (z : Z) : Z := z mod 4294967296.

(** ** Arrays indexed by a C integer *)

(** [a[i]]: [None] stands for an access outside the array, which the C
    program must never make. *)
Definition arr_get {A} (a : list A) (i : Z) : option A :=
  if Z.ltb i 0 then None else a !! Z.to_nat i.

(** [a[i] = x]; outside the array nothing is stored. *)
Definition arr_set {A} (a : list A) (i : Z) (x : A) : list A :=
  if Z.ltb i 0 then a else <[Z.to_nat i := x]> a.

(** ** Characters and C strings *)

Definition NUL : ascii := zero.

Definition code (c : ascii) : Z := Z.of_N (N_of_ascii c).

(** [isspace] and [isdigit] of the C locale. *)
Definition isspace (c : ascii) : bool :=
  (code c =? 32) || ((9 <=? code c) && (code c <=? 13)).

Definition isdigit (c : ascii) : bool :=
  (48 <=? code c) && (code c <=? 57).

(** The C string held in a buffer: the characters before the first NUL. *)
Fixpoint c_str (buf : list ascii) : list ascii :=
  match buf with
  | [] => []
  | c :: r => if Ascii.eqb c NUL then [] else c :: c_str r
  end.

(** ** [sscanf] with one decimal conversion

    [sscanf(s, "%d", &n)] and [sscanf(s, "%hd", &n)] skip white space,
    take an optional sign and then the longest run of decimal digits.
    With at least one digit they store the number and return 1; otherwise
    nothing is stored and the result is not 1.  [Some n] is "returned 1
    and stored n". *)

Fixpoint skip_spaces (s : list ascii) : list ascii :=
  match s with
  | c :: r => if isspace c then skip_spaces r else s
  | [] => []
  end.

Fixpoint scan_digits (s : list ascii) (acc : Z) (seen : bool) : option Z :=
  match s with
  | c :: r =>
      if isdigit c then scan_digits r (10 * acc + (code c - 48)) true
      else if seen then Some acc else None
  | [] => if seen then Some acc else None
  end.

Definition sscanf_d (buf : list ascii) : option Z :=
  match skip_spaces (c_str buf) with
  | "+"%char :: r => scan_digits r 0 false
  | "-"%char :: r => Z.opp <$> scan_digits r 0 false
  | s => scan_digits s 0 false
  end.

(** ** The packet and the fields parsed from it *)

(** The globals [packet], [pktptr] (as an offset into [packet]), [pktlen]
    and the field buffers.  [reads] is a ghost log of the offsets of
    [packet] that the parsing routines have dereferenced. *)
Record parser := mkParser {
  packet : list ascii;
  pktptr : Z;
  pktlen : Z;
  unitnum : list ascii;
  serialnum : list ascii;
  phoneline : list ascii;
  duration : list ascii;
  atype : list ascii;
  datetime : list ascii;
  phonenum : list ascii;
  callername : list ascii;
  reads : list Z
}.

Inductive field :=
| f_unitnum | f_serialnum | f_phoneline | f_duration
| f_atype | f_datetime | f_phonenum | f_callername.

Definition get_field (f : field) (p : parser) : list ascii :=
  match f with
  | f_unitnum => unitnum p
  | f_serialnum => serialnum p
  | f_phoneline => phoneline p
  | f_duration => duration p
  | f_atype => atype p
  | f_datetime => datetime p
  | f_phonenum => phonenum p
  | f_callername => callername p
  end.

Definition set_field (f : field) (v : list ascii) (p : parser) : parser :=
  let '(mkParser pk pp pl un sn ph du aty dt pn cn rd) := p in
  match f with
  | f_unitnum => mkParser pk pp pl v sn ph du aty dt pn cn rd
  | f_serialnum => mkParser pk pp pl un v ph du aty dt pn cn rd
  | f_phoneline => mkParser pk pp pl un sn v du aty dt pn cn rd
  | f_duration => mkParser pk pp pl un sn ph v aty dt pn cn rd
  | f_atype => mkParser pk pp pl un sn ph du v dt pn cn rd
  | f_datetime => mkParser pk pp pl un sn ph du aty v pn cn rd
  | f_phonenum => mkParser pk pp pl un sn ph du aty dt v cn rd
  | f_callername => mkParser pk pp pl un sn ph du aty dt pn v rd
  end.

Definition set_pktptr (i : Z) (p : parser) : parser :=
  let '(mkParser pk _ pl un sn ph du aty dt pn cn rd) := p in
  mkParser pk i pl un sn ph du aty dt pn cn rd.

(** [*pktptr++]: the byte under the cursor is read (and logged) and the
    cursor moves on.  A read outside the array [packet] yields NUL here;
    [decode_reads_in_packet] shows that the decoder makes none. *)
Definition pkt_at (p : parser) (i : Z) : ascii :=
  match arr_get (packet p) i with Some c => c | None => NUL end.

Definition next_byte (p : parser) : ascii * parser :=
  let '(mkParser pk pp pl un sn ph du aty dt pn cn rd) := p in
  (pkt_at p pp, mkParser pk (pp + 1) pl un sn ph du aty dt pn cn (rd ++ [pp])).

(** A condition of the [if] chain of [loop]: it yields a truth value and
    may move the cursor and fill field buffers. *)
Definition cond := parser -> bool * parser.

(** [bool match(const char *literal)] *)
Fixpoint match_loop (literal : list ascii) (startptr : Z) (p : parser)
  : bool * parser :=
  match literal with
  | [] => (true, p)
  | c :: literal' =>
      let '(b, p') := next_byte p in
      if negb (Ascii.eqb c b) then (false, set_pktptr startptr p')
      else match_loop literal' startptr p'
  end.

Definition match_ (literal : string) : cond :=
  fun p => match_loop (list_ascii_of_string literal) (pktptr p) p.

(** [bool copy(char *dst, int len)]: the loop yields the [len] bytes
    stored through [dst]. *)
Fixpoint copy_loop (len : nat) (p : parser) (out : list ascii)
  : list ascii * parser :=
  match len with
  | O => (out, p)
  | S len' =>
      if pktptr p <? pktlen p then
        let '(b, p') := next_byte p in copy_loop len' p' (out ++ [b])
      else copy_loop len' p (out ++ [NUL])
  end.

(** The first bytes of the destination buffer are overwritten, the rest of
    it (the terminating NUL of the field buffers) is kept. *)
Definition store_prefix (bytes buf : list ascii) : list ascii :=
  bytes ++ drop (length bytes) buf.

Definition copy (dst : field) (len : Z) : cond :=
  fun p =>
    let '(out, p') := copy_loop (Z.to_nat len) p [] in
    (true, set_field dst (store_prefix out (get_field dst p')) p').

(** [byte parse_phoneline(void)] *)
Definition parse_phoneline (p : parser) : Z :=
  match sscanf_d (phoneline p) with
  | Some linenum =>
      if (1 <=? linenum) && (linenum <=? MAX_LINES)
      then to_byte (to_byte linenum - 1)
      else to_byte (MAX_LINES - 1)
  | None => to_byte (MAX_LINES - 1)
  end.

(** ** The call list in memory *)

(** [struct call_record_t] *)
Record call_record_t := mkCall {
  cr_phoneline : Z;
  cr_seconds : Z;
  cr_datetime : list ascii;
  cr_phonenum : list ascii;
  cr_callername : list ascii
}.

Definition set_seconds (v : Z) (r : call_record_t) : call_record_t :=
  mkCall (cr_phoneline r) v (cr_datetime r) (cr_phonenum r) (cr_callername r).

(** The globals [calls], [num_calls], [oldest], [newest], [displayed] and
    [displayed_age]. *)
Record store := mkStore {
  calls : list call_record_t;
  num_calls : Z;
  oldest : Z;
  newest : Z;
  displayed : Z;
  displayed_age : Z
}.

Definition empty_record : call_record_t := mkCall 0 0 [] [] [].

(** [calls[i]] read as a whole record; outside the array the C program
    would read foreign memory, here the empty record. *)
Definition calls_at (s : store) (i : Z) : call_record_t :=
  match arr_get (calls s) i with Some r => r | None => empty_record end.

(** [void add_call(void)]: the three [memcpy] calls copy whole [char[16]]
    arrays. *)
Definition add_call (p : parser) (s : store) : store :=
  let '(n, o, w) :=
    if num_calls s =? 0 then (1, oldest s, newest s)
    else
      let w1 := to_short (newest s + 1) in
      let w2 := if w1 >=? MAX_CALLS then 0 else w1 in
      if num_calls s >=? MAX_CALLS then
        let o1 := to_short (oldest s + 1) in
        (num_calls s, (if o1 >=? MAX_CALLS then 0 else o1), w2)
      else (to_short (num_calls s + 1), oldest s, w2) in
  let r := mkCall (parse_phoneline p) 0
                  (datetime p) (phonenum p) (callername p) in
  mkStore (arr_set (calls s) w r) n o w (displayed s) (displayed_age s).

(** [void display_call(short int ndx)], without the LCD output. *)
Definition display_call (ndx : Z) (s : store) : store :=
  mkStore (calls s) (num_calls s) (oldest s) (newest s) ndx
          (if ndx =? newest s then 1 else displayed_age s).

(** [void show_newest_call(void)] *)
Definition show_newest_call (s : store) : store :=
  if num_calls s >? 0 then display_call (newest s) s else s.

(** [void update_duration(void)].  The [while (1)] loop is run for at most
    [fuel] rounds; [None] stands for a loop that has not returned by then
    or that reads outside [calls]. *)
Fixpoint update_duration_loop (fuel : nat) (seconds line : Z) (s : store)
    (ndx : Z) : option store :=
  match fuel with
  | O => None
  | S fuel' =>
      match arr_get (calls s) ndx with
      | None => None
      | Some r =>
          if cr_phoneline r =? line then
            let s1 := mkStore (arr_set (calls s) ndx (set_seconds seconds r))
                        (num_calls s) (oldest s) (newest s)
                        (displayed s) (displayed_age s) in
            Some (if displayed s =? ndx then display_call ndx s1 else s1)
          else if ndx =? oldest s then Some s
          else
            let ndx1 := to_short (ndx - 1) in
            update_duration_loop fuel' seconds line s
              (if ndx1 <? 0 then MAX_CALLS - 1 else ndx1)
      end
  end.

Definition update_duration (p : parser) (s : store) : option store :=
  match sscanf_d (duration p) with
  | Some v =>
      if num_calls s >? 0 then
        update_duration_loop (Z.to_nat MAX_CALLS) (to_short v)
          (parse_phoneline p) s (newest s)
      else Some s
  | None => Some s
  end.

(** ** The archive in non-volatile memory *)

(** [struct eeprom_hdr_t] *)
Record eeprom_hdr_t := mkHdr {
  hdr_id : list ascii;
  hdr_options : Z;
  hdr_ssid : list ascii;
  hdr_password : list ascii;
  hdr_line_names : list (list ascii);
  hdr_num_calls : Z;
  hdr_oldest : Z;
  hdr_newest : Z
}.

(** Sizes of the two structures as the ESP8266 compiler lays them out:
    8+1+3+32+32+8*16 bytes and three [short int]s for the header; a byte,
    a padding byte, a [short int] and three 16-byte arrays for a record. *)
Definition sizeof_eeprom_hdr_t : Z := 210.
Definition sizeof_call_record_t : Z := 52.

Definition NUM_EEPROM_CALLS : Z :=
  (EEPROM_SIZE - sizeof_eeprom_hdr_t) / sizeof_call_record_t.

(** What [eeprom_write] and [EEPROM.commit] do to the non-volatile memory,
    at the granularity of the header block and of the record slots that
    follow it. *)
Inductive eeprom_op :=
| WriteHeader
| WriteRecord (slot : Z)
| Commit.

(** The global [eeprom_hdr] (the copy in RAM) and the device [EEPROM]:
    its header block, its array of record slots, and the operations done
    on it so far. *)
Record nvm := mkNvm {
  eeprom_hdr : eeprom_hdr_t;
  ee_hdr : eeprom_hdr_t;
  ee_calls : list call_record_t;
  ee_log : list eeprom_op
}.

Definition set_hdr_ring (n o w : Z) (h : eeprom_hdr_t) : eeprom_hdr_t :=
  mkHdr (hdr_id h) (hdr_options h) (hdr_ssid h) (hdr_password h)
        (hdr_line_names h) n o w.

(** [void eeprom_add_call(void)] *)
Definition eeprom_add_call (s : store) (m : nvm) : nvm :=
  let h := eeprom_hdr m in
  let '(n, o, w) :=
    if hdr_num_calls h =? 0 then (1, hdr_oldest h, hdr_newest h)
    else
      let w1 := to_short (hdr_newest h + 1) in
      let w2 := if to_size_t w1 >=? NUM_EEPROM_CALLS then 0 else w1 in
      if to_size_t (hdr_num_calls h) >=? NUM_EEPROM_CALLS then
        let o1 := to_short (hdr_oldest h + 1) in
        (hdr_num_calls h,
         (if to_size_t o1 >=? NUM_EEPROM_CALLS then 0 else o1), w2)
      else (to_short (hdr_num_calls h + 1), hdr_oldest h, w2) in
  let h' := set_hdr_ring n o w h in
  mkNvm h' h'
        (arr_set (ee_calls m) w (calls_at s (newest s)))
        (ee_log m ++ [WriteHeader; WriteRecord w; Commit]).

(** ** Bad packets *)

(** The globals [badpacket_count], [badpacket_length], [badpacket_type]
    and [badpacket_data]. *)
Record badrec := mkBad {
  badpacket_count : Z;
  badpacket_length : Z;
  badpacket_type : Z;
  badpacket_data : list ascii
}.

(** [void badpacket(int type)], without the LCD output. *)
Definition badpacket (type : Z) (p : parser) (b : badrec) : badrec :=
  mkBad (badpacket_count b + 1) (pktlen p) type
        (store_prefix (take (Z.to_nat (pktlen p)) (packet p))
                      (badpacket_data b)).

(** ** The main loop: one packet *)

Definition c_test (f : parser -> bool) : cond := fun p => (f p, p).

Definition c_not (a : cond) : cond :=
  fun p => let '(r, p1) := a p in (negb r, p1).

(** The short-circuit operators of C. *)
Definition c_and (a b : cond) : cond :=
  fun p => let '(r, p1) := a p in if r then b p1 else (false, p1).

Definition c_or (a b : cond) : cond :=
  fun p => let '(r, p1) := a p in if r then (true, p1) else b p1.

Infix "&&>" := c_and (at level 41, left associativity).
Infix "||>" := c_or (at level 51, left associativity).

(** The four conditions of the [if] ... [else if] chain of [loop]. *)
Definition bad_preamble : cond :=
  c_test (fun p => pktlen p <? 52)
  ||> c_not (match_ "^^<U>")
  ||> c_not (copy f_unitnum 6)
  ||> c_not (match_ "<S>")
  ||> c_not (copy f_serialnum 6)
  ||> c_not (match_ "$")
  ||> c_not (copy f_phoneline 2)
  ||> c_not (match_ " ").

Definition is_booted : cond :=
  c_test (fun p => pktlen p =? 52) &&> match_ "V".

Definition is_start_call : cond :=
  c_test (fun p => (pktlen p >=? 70) && (pktlen p <=? 83))
  &&> match_ "I S "
  &&> copy f_duration 4
  &&> (match_ " G " ||> match_ " B ")
  &&> match_ "A"
  &&> copy f_atype 1
  &&> match_ " "
  &&> copy f_datetime 15
  &&> copy f_phonenum 15
  &&> copy f_callername 15.

Definition is_end_call : cond :=
  c_test (fun p => (pktlen p >=? 70) && (pktlen p <=? 83))
  &&> match_ "I E "
  &&> copy f_duration 4.

(** The branch of the chain that is taken. *)
Inductive branch :=
| BadPacket (type : Z)
| Booted
| StartCall
| EndCall.

Definition decode (p : parser) : branch * parser :=
  let '(r, p1) := bad_preamble p in
  if r then (BadPacket 1, p1) else
  let '(r, p2) := is_booted p1 in
  if r then (Booted, p2) else
  let '(r, p3) := is_start_call p2 in
  if r then (StartCall, p3) else
  let '(r, p4) := is_end_call p3 in
  if r then (EndCall, p4) else
  (BadPacket 2, p4).

(** All the globals. *)
Record state := mkState {
  prs : parser;
  sto : store;
  nv : nvm;
  bad : badrec;
  backlight_on : bool
}.

(** [int read_packet(void)] on a datagram with the bytes [received]:
    [udp.read] stores at most [MAX_PACKET] of them at the start of
    [packet] and returns how many; what the buffer held behind them
    stays.  (The test calls are compiled out.) *)
Definition read_packet (received : list ascii) (p : parser) : Z * parser :=
  let n := Z.min (Z.of_nat (length received)) MAX_PACKET in
  let '(mkParser pk pp pl un sn ph du aty dt pn cn rd) := p in
  (n, mkParser (store_prefix (take (Z.to_nat n) received) pk)
               pp pl un sn ph du aty dt pn cn rd).

(** [pktlen = read_packet()]: the length is stored in every round,
    also when it is 0. *)
Definition set_pktlen (n : Z) (p : parser) : parser :=
  let '(mkParser pk pp _ un sn ph du aty dt pn cn rd) := p in
  mkParser pk pp n un sn ph du aty dt pn cn rd.

(** [pktlen = read_packet()] with a length that is not 0, then
    [pktptr = packet]. *)
Definition start_parse (n : Z) (p : parser) : parser :=
  let '(mkParser pk _ _ un sn ph du aty dt pn cn rd) := p in
  mkParser pk 0 n un sn ph du aty dt pn cn rd.

(** The packet part of [void loop(void)].  [None] only when
    [update_duration] does not return. *)
Definition loop_packet (received : list ascii) (st : state) : option state :=
  let '(n, p0) := read_packet received (prs st) in
  if n =? 0 then
    Some (mkState (set_pktlen 0 p0) (sto st) (nv st) (bad st) (backlight_on st))
  else
    let '(br, p) := decode (start_parse n p0) in
    match br with
    | BadPacket type =>
        Some (mkState p (sto st) (nv st) (badpacket type p (bad st)) true)
    | Booted =>
        Some (mkState p (show_newest_call (sto st)) (nv st) (bad st) true)
    | StartCall =>
        let s1 := add_call p (sto st) in
        let m1 := eeprom_add_call s1 (nv st) in
        Some (mkState p (show_newest_call s1) m1 (bad st) true)
    | EndCall =>
        s1 ← update_duration p (sto st);
        Some (mkState p s1 (nv st) (bad st) true)
    end.

(** The initial values of the globals, with an erased archive. *)
Definition zeros (n : nat) : list ascii := replicate n NUL.

Definition init_parser : parser :=
  mkParser (zeros 255) 0 0 (zeros 7) (zeros 7) (zeros 3) (zeros 5) (zeros 2)
           (zeros 16) (zeros 16) (zeros 16) [].

Definition zero_record : call_record_t :=
  mkCall 0 0 (zeros 16) (zeros 16) (zeros 16).

Definition init_store : store :=
  mkStore (replicate (Z.to_nat MAX_CALLS) zero_record) 0 0 0 0 1.

Definition init_hdr : eeprom_hdr_t :=
  mkHdr (list_ascii_of_string "Calllog" ++ [NUL]) 0 (zeros 32) (zeros 32)
        (replicate 8 (zeros 16)) 0 0 0.

Definition init_nvm : nvm :=
  mkNvm init_hdr init_hdr
        (replicate (Z.to_nat NUM_EEPROM_CALLS) zero_record) [].

Definition init_state : state :=
  mkState init_parser init_store init_nvm (mkBad 0 0 0 (zeros 255)) true.

(** The test calls of [read_packet] run through the model. *)
Definition testcall (s : string) : list ascii := list_ascii_of_string s.

Definition run_packets (pkts : list (list ascii)) (st : state) : option state :=
  foldl (fun o pk => st' ← o; loop_packet pk st') (Some st) pkts.

(** ** Entering a configuration string

    [input_string] polls two push buttons and the serial port in busy
    loops.  What it observes is modelled as a sequence of events, each one
    taken by the loop that is waiting at that moment:
    - [Key ch]: the byte [ch] has arrived on the serial port;
    - [Change repeats]: the top button is pushed and released; while held
      in the character loop it steps to the next glyph once and then
      [repeats] more times (the fast forward after one second);
    - [Accept]: the bottom button is pushed and released. *)

Inductive event :=
| Key (ch : ascii)
| Change (repeats : nat)
| Accept.

(** Where [input_string] is waiting. *)
Inductive phase :=
| Confirm    (* "ok" or "change" for the current value *)
| Choosing   (* the loop over the choices of character *)
| Waiting    (* "name done", "change" or serial input *)
| Done.      (* after the label [done] *)

(** The string being edited and the globals [input_col] and [glyph]. *)
Record composer := mkComposer {
  dst : list ascii;
  input_col : Z;
  glyph : Z;
  at_phase : phase
}.

(** [static char alphabet[]], with its terminating NUL; the compiler
    reads the escape [\{] of the source as the brace. *)
Definition alphabet : list ascii :=
  list_ascii_of_string
    "ABCDEFGHIJKLMNOPQRSTUVWXYZabcdefghijklmnopqrstuvwxyz0123456789 '!$@^`,|%;.~()/{}:?[]=-+_#!"
  ++ [NUL].

Definition sizeof_alphabet : Z := Z.of_nat (length alphabet).

(** [char next_glyph(void)], without the LCD output; [++glyph] is compared
    with [sizeof(alphabet)] as an unsigned number. *)
Definition next_glyph (c : composer) : ascii * composer :=
  let g1 := glyph c + 1 in
  let g := if to_size_t g1 >=? sizeof_alphabet then 0 else g1 in
  (match arr_get alphabet g with Some a => a | None => NUL end,
   mkComposer (dst c) (input_col c) g (at_phase c)).

(** [dst[input_col] = next_glyph()] *)
Definition put_next_glyph (c : composer) : composer :=
  let '(ch, c1) := next_glyph c in
  mkComposer (arr_set (dst c1) (input_col c1) ch) (input_col c1) (glyph c1)
             (at_phase c1).

(** From [memset(dst, 0, length)] to the first [next_glyph]. *)
Definition start_edit (length : Z) (c : composer) : composer :=
  put_next_glyph
    (mkComposer (store_prefix (zeros (Z.to_nat length)) (dst c)) 0 (-1)
                Choosing).

(** [if (++input_col >= length) break;] and on to the waiting loop. *)
Definition next_column (length : Z) (c : composer) : composer :=
  let col := input_col c + 1 in
  mkComposer (dst c) col (glyph c)
             (if col >=? length then Done else Waiting).

Definition is_newline (ch : ascii) : bool :=
  Ascii.eqb ch "010"%char || Ascii.eqb ch "013"%char.

Definition is_backspace (ch : ascii) : bool :=
  Ascii.eqb ch "008"%char || Ascii.eqb ch "127"%char.

(** One event in the loop over the choices of character. *)
Definition step_choosing (length : Z) (c : composer) (ev : event) : composer :=
  match ev with
  | Change repeats => Nat.iter (S repeats) put_next_glyph c
  | Key ch =>
      if is_newline ch then
        mkComposer (dst c) (input_col c) (glyph c) Done
      else if is_backspace ch then
        let d1 := arr_set (dst c) (input_col c) NUL in
        let '(d2, col) :=
          if input_col c >? 0
          then (arr_set d1 (input_col c - 1) NUL, input_col c - 1)
          else (d1, input_col c) in
        next_column length (mkComposer d2 (col - 1) (glyph c) Choosing)
      else
        next_column length
          (mkComposer (arr_set (dst c) (input_col c) ch) (input_col c)
                      (glyph c) Choosing)
  | Accept => next_column length c
  end.

(** One event, wherever [input_string] is waiting.  A serial byte ends the
    two waiting loops without being read; the character loop then reads
    it. *)
Definition step (length : Z) (c : composer) (ev : event) : composer :=
  match at_phase c with
  | Done => c
  | Confirm =>
      match ev with
      | Accept => mkComposer (dst c) (input_col c) (glyph c) Done
      | Change _ => start_edit length c
      | Key ch =>
          if is_newline ch
          then mkComposer (dst c) (input_col c) (glyph c) Done
          else step_choosing length (start_edit length c) ev
      end
  | Choosing => step_choosing length c ev
  | Waiting =>
      match ev with
      | Accept => mkComposer (dst c) (input_col c) (glyph c) Done
      | Change _ =>
          put_next_glyph
            (mkComposer (dst c) (input_col c) (-1) Choosing)
      | Key _ =>
          step_choosing length
            (mkComposer (dst c) (input_col c) (glyph c) Choosing) ev
      end
  end.

(** [void input_string(const char *title, char *dst, int length)] on the
    buffer [d], with the globals [input_col] and [glyph] as they are on
    entry, for the events that follow the purge of the serial port. *)
Definition input_string_start (d : list ascii) (length col g : Z) : composer :=
  match d with
  | ch :: _ =>
      if Ascii.eqb ch NUL
      then start_edit length (mkComposer d col g Choosing)
      else mkComposer d col g Confirm
  | [] => start_edit length (mkComposer d col g Choosing)
  end.

Definition input_string (d : list ascii) (length : Z) (evs : list event)
  : composer :=
  foldl (step length) (input_string_start d length 0 0) evs.

(** * Definitions for the statements *)

(** ** The ring store of the specification

    A ring of capacity [C] as the specification words it: [append] is
    "if count == 0, newestIndex := oldestIndex := 0, count := 1; else
    newestIndex := (newestIndex + 1) mod C; if count == C then
    oldestIndex := (oldestIndex + 1) mod C else count += 1", the item going
    to the slot [newestIndex].  The two rings of the program are compared
    with it below. *)
Module RingStore.

Record t (T : Type) := mk {
  slots : list T;
  count : Z;
  oldestIndex : Z;
  newestIndex : Z
}.
Arguments mk {T} _ _ _ _.
Arguments slots {T} _.
Arguments count {T} _.
Arguments oldestIndex {T} _.
Arguments newestIndex {T} _.

Section Ring.
Context {T : Type}.
Variable C : Z.
Variable d : T.

Definition append (x : T) (r : t T) : t T :=
  if count r =? 0 then mk (arr_set (slots r) 0 x) 1 0 0
  else
    let w := (newestIndex r + 1) mod C in
    if count r =? C
    then mk (arr_set (slots r) w x) (count r) ((oldestIndex r + 1) mod C) w
    else mk (arr_set (slots r) w x) (count r + 1) (oldestIndex r) w.

(** The invariant set of the data model. *)
Definition inv (r : t T) : Prop :=
  Z.of_nat (length (slots r)) = C /\
  0 <= count r <= C /\
  0 <= oldestIndex r < C /\
  0 <= newestIndex r < C /\
  (count r = 0 -> oldestIndex r = 0 /\ newestIndex r = 0) /\
  (0 < count r -> newestIndex r = (oldestIndex r + count r - 1) mod C).

Definition slot_at (r : t T) (i : Z) : T :=
  match arr_get (slots r) i with Some x => x | None => d end.

(** The items held, the oldest first. *)
Definition held (r : t T) : list T :=
  (fun k => slot_at r ((oldestIndex r + k) mod C)) <$> seqZ 0 (count r).
End Ring.

End RingStore.

(** The last [n] elements of a list (all of it if it is shorter). *)
Definition lastn {A} (n : Z) (l : list A) : list A :=
  drop (length l - Z.to_nat n) l.

(** The two rings of the program. *)
Definition store_ring (s : store) : RingStore.t call_record_t :=
  RingStore.mk (calls s) (num_calls s) (oldest s) (newest s).

Definition archive_ring (m : nvm) : RingStore.t call_record_t :=
  RingStore.mk (ee_calls m) (hdr_num_calls (eeprom_hdr m))
               (hdr_oldest (eeprom_hdr m)) (hdr_newest (eeprom_hdr m)).

Definition store_inv (s : store) : Prop :=
  RingStore.inv MAX_CALLS (store_ring s).

Definition archive_inv (m : nvm) : Prop :=
  RingStore.inv NUM_EEPROM_CALLS (archive_ring m).

(** The calls held in memory and in the archive, the oldest first. *)
Definition store_held (s : store) : list call_record_t :=
  RingStore.held MAX_CALLS empty_record (store_ring s).

Definition archive_held (m : nvm) : list call_record_t :=
  RingStore.held NUM_EEPROM_CALLS empty_record (archive_ring m).

(** The record that [add_call] makes of the parsed fields. *)
Definition call_of (p : parser) : call_record_t :=
  mkCall (parse_phoneline p) 0 (datetime p) (phonenum p) (callername p).

(** What [loop] does to the two stores for a "start call" packet whose
    fields are in [p]. *)
Definition start_call (sm : store * nvm) (p : parser) : store * nvm :=
  let s1 := add_call p sm.1 in
  (show_newest_call s1, eeprom_add_call s1 sm.2).

(** The call list after the duration of [calls[i]] has been set to
    [seconds]: [display_call] is run when that call is the displayed one,
    and resets [displayed_age] when it is the newest. *)
Definition with_seconds (s : store) (i seconds : Z) : store :=
  mkStore (arr_set (calls s) i (set_seconds seconds (calls_at s i)))
          (num_calls s) (oldest s) (newest s) (displayed s)
          (if (displayed s =? i) && (i =? newest s) then 1
           else displayed_age s).

(** The index of the call [k] steps back from the newest one. *)
Definition back_from_newest (s : store) (k : Z) : Z :=
  (newest s - k) mod MAX_CALLS.

(** No call held in the archive carries a duration. *)
Definition archive_zero (m : nvm) : Prop :=
  Forall (fun r => cr_seconds r = 0) (archive_held m).

(** ** The decoder *)

(** The bytes that [copy] stores: byte [i] of the field comes from offset
    [pktptr + i] of the packet if that lies before [pktlen], and is NUL
    otherwise. *)
Definition copied (p : parser) (len : nat) : list ascii :=
  map (fun i : nat =>
         if pktptr p + Z.of_nat i <? pktlen p
         then pkt_at p (pktptr p + Z.of_nat i) else NUL)
      (seq 0 len).

(** The parser globals when [loop] starts on a datagram: [packet] and
    [pktlen] from [read_packet], [pktptr = packet]. *)
Definition received_packet (received : list ascii) (p0 : parser) : parser :=
  let '(n, p) := read_packet received p0 in start_parse n p.

(** The branch of [loop] taken for a datagram. *)
Definition branch_of (received : list ascii) (p0 : parser) : branch :=
  (decode (received_packet received p0)).1.

(** A packet built after the "start call" grammar. *)
Definition call_start_packet (unit serial line dur : list ascii) (good : bool)
    (sub : ascii) (dt ph nm : list ascii) : list ascii :=
  list_ascii_of_string "^^<U>" ++ unit ++ list_ascii_of_string "<S>"
  ++ serial ++ list_ascii_of_string "$" ++ line ++ list_ascii_of_string " "
  ++ list_ascii_of_string "I S " ++ dur
  ++ list_ascii_of_string (if good then " G " else " B ")
  ++ list_ascii_of_string "A" ++ [sub] ++ list_ascii_of_string " "
  ++ dt ++ ph ++ nm.

(** The decoder of the specification, in which every branch starts from
    the cursor position right after the preamble, whatever an earlier
    branch has matched and copied. *)
Definition decode_restarting (p : parser) : branch * parser :=
  let '(r, p1) := bad_preamble p in
  if r then (BadPacket 1, p1) else
  let '(r, p2) := is_booted p1 in
  if r then (Booted, p2) else
  let '(r, p3) := is_start_call (set_pktptr (pktptr p1) p2) in
  if r then (StartCall, p3) else
  let '(r, p4) := is_end_call (set_pktptr (pktptr p1) p3) in
  if r then (EndCall, p4) else
  (BadPacket 2, p4).

(** ** Reads of the decoder

    [reads_within base b p]: the offsets logged since the log was [base]
    all lie inside the datagram, the cursor is at most [b], and the
    datagram has at least the 52 bytes that the first test of [loop] asks
    for.  [cond_keeps base b c bt bf]: from such a state with bound [b]
    the condition [c] leads to such a state, with bound [bt] when it
    holds and [bf] when it does not. *)
Definition reads_within (base : list Z) (b : Z) (p : parser) : Prop :=
  (exists new, reads p = base ++ new /\
               Forall (fun q => 0 <= q < pktlen p) new) /\
  0 <= pktptr p <= b /\ 52 <= pktlen p.

Definition cond_keeps (base : list Z) (b : Z) (c : cond) (bt bf : Z) : Prop :=
  forall p, reads_within base b p ->
    pktlen (c p).2 = pktlen p /\
    if (c p).1 then reads_within base bt (c p).2
    else reads_within base bf (c p).2.

(** ** The phone line as text *)

Definition digit_value (c : ascii) : Z := code c - 48.

(** The text is a decimal numeral: it is not empty and every byte of it is
    a digit; its value. *)
Definition decimal_numeral (text : list ascii) : option Z :=
  match text with
  | [] => None
  | _ => if forallb isdigit text
         then Some (fold_left (fun n c => 10 * n + digit_value c) text 0)
         else None
  end.

(** The number read from the two bytes [a] and [b] of the line field: the
    two-digit number when both are digits; the first digit alone when the
    second byte is not a digit; the second digit when the first byte is
    white space or a plus sign, negated when it is a minus sign; nothing
    otherwise. *)
Definition line_number (a b : ascii) : option Z :=
  if isdigit a then
    Some (if isdigit b then 10 * digit_value a + digit_value b
          else digit_value a)
  else if isdigit b then
    if isspace a || Ascii.eqb a "+"%char then Some (digit_value b)
    else if Ascii.eqb a "-"%char then Some (- digit_value b)
    else None
  else None.

(** ** The editor *)

(** A byte that is neither a line terminator nor a backspace. *)
Definition ordinary (ch : ascii) : Prop :=
  is_newline ch = false /\ is_backspace ch = false.

Definition keys (s : string) : list event := Key <$> list_ascii_of_string s.

(** ** Sample packets and states *)

Definition parser_with_line (text : string) : parser :=
  set_field f_phoneline (list_ascii_of_string text ++ [NUL]) init_parser.

(** Two calls on lines 1 and 3, as the first and third test call of
    [read_packet]. *)
Definition parser_with_line_duration (line dur : string) : parser :=
  set_field f_duration (list_ascii_of_string dur ++ [NUL])
            (parser_with_line line).

Definition short_packet : parser :=
  start_parse 3 (snd (read_packet (list_ascii_of_string "abc") init_parser)).

Definition sample_unit : list ascii := list_ascii_of_string "123456".

(** The first two test calls of [read_packet]: the start and the end of a
    call on line 1. *)
Definition testcall_start : list ascii :=
  testcall "^^<U>123456<S>123456$01 I S 0000 G A0 03/14 10:55 PM 111 111 1111   Caller one".

Definition testcall_end : list ascii :=
  testcall "^^<U>123456<S>123456$01 I E 0003 G A2 03/14 10:56 PM 111 111 1111   Caller one".

(** An "end call" packet whose duration field is not a number. *)
Definition end_call_no_number : list ascii :=
  testcall "^^<U>123456<S>123456$01 I E abcd G A2 03/14 10:56 PM 111 111 1111   Caller one".

(** A packet that begins like a "start call", up to the duration field,
    and goes on with the text of an "end call". *)
Definition start_then_end : list ascii :=
  testcall "^^<U>123456<S>123456$01 I S 0000I E 0042 G A2 03/14 10:56 PM 111 111 1111   Caller".

Definition two_calls : store * nvm :=
  foldl start_call (init_store, init_nvm)
        [parser_with_line "01"; parser_with_line "03"].

(** The state after the first test call. *)
Definition after_testcall_start : option state :=
  loop_packet testcall_start init_state.

(** A line name being entered: the buffer of [eeprom_hdr.line_names[i]],
    all NUL, and [LINE_NAMELENGTH]. *)
Definition empty_name : list ascii := zeros 16.

(** * More of the program *)

(** ** Messages on the display *)

(** The conversion ["%d"] of [sprintf]: the decimal digits of an [int],
    which has at most ten of them. *)
Fixpoint digits (fuel : nat) (n : Z) (acc : list ascii) : list ascii :=
  match fuel with
  | O => acc
  | S fuel' =>
      let acc' := ascii_of_N (Z.to_N (48 + n mod 10)) :: acc in
      if n <? 10 then acc' else digits fuel' (n / 10) acc'
  end.

Definition print_int (n : Z) : list ascii :=
  if n <? 0 then "-"%char :: digits 10 (- n) [] else digits 10 n [].

(** [void center_message(byte row, const char *msg)]: the characters
    printed from the start of the row.  [None] stands for the failed
    assertion, which never returns. *)
Definition center_message (msg : list ascii) : option (list ascii) :=
  let len := to_byte (Z.of_nat (length msg)) in
  if len <=? 20 then
    let nblanks := to_byte (Z.shiftr (20 - len) 1) in
    Some (replicate (Z.to_nat nblanks) " "%char ++ msg
          ++ replicate (Z.to_nat ((20 - nblanks) - len)) " "%char)
  else None.

(** ** Loading the archive at start-up *)

(** [ID_STRING] with its terminating NUL: the eight bytes that [strcpy]
    stores and [memcmp] compares. *)
Definition ID_STRING : list ascii := list_ascii_of_string "Calllog" ++ [NUL].

(** [memcmp(a, b, n) == 0] *)
Fixpoint memcmp_eq (a b : list ascii) (n : nat) : bool :=
  match n with
  | O => true
  | S n' =>
      match a, b with
      | x :: a', y :: b' => Ascii.eqb x y && memcmp_eq a' b' n'
      | _, _ => false
      end
  end.

(** [sprintf(eeprom_hdr.line_names[i], "line %d", i + 1)] into the array
    that [memset] has zeroed. *)
Definition line_name (i : Z) : list ascii :=
  store_prefix (list_ascii_of_string "line " ++ print_int (i + 1) ++ [NUL])
               (zeros 16).

(** The header after [memset], [strcpy] and the loop over the lines. *)
Definition fresh_hdr : eeprom_hdr_t :=
  mkHdr ID_STRING 0 (zeros 32) (zeros 32) (line_name <$> seqZ 0 MAX_LINES)
        0 0 0.

(** The [for] loop of [eeprom_load] that reads the records.  [num_calls]
    is a [short int] that stays below [eeprom_hdr.num_calls], so there are
    fewer than 32768 rounds.  [None] stands for a read outside the array
    of records of the non-volatile memory. *)
Fixpoint eeprom_load_loop (fuel : nat) (h : eeprom_hdr_t)
    (rom : list call_record_t) (s : store) (ndx : Z) : option store :=
  match fuel with
  | O => None
  | S fuel' =>
      if negb (hdr_num_calls h =? 0) && (num_calls s <? hdr_num_calls h) then
        let w :=
          if num_calls s >? 0 then
            let w1 := to_short (newest s + 1) in
            if w1 >=? MAX_CALLS then 0 else w1
          else newest s in
        match arr_get rom ndx with
        | None => None
        | Some r =>
            let ndx1 := to_short (ndx + 1) in
            eeprom_load_loop fuel' h rom
              (mkStore (arr_set (calls s) w r) (to_short (num_calls s + 1))
                       (oldest s) w (displayed s) (displayed_age s))
              (if to_size_t ndx1 >=? NUM_EEPROM_CALLS then 0 else ndx1)
        end
      else Some s
  end.

(** [void eeprom_load(void)]: [dn] and [up] tell whether the buttons are
    held down.  The result has the messages shown, each with its row. *)
Definition eeprom_load (dn up : bool) (m : nvm) (s : store)
  : option (nvm * store * list (Z * list ascii)) :=
  let h := ee_hdr m in
  if negb (memcmp_eq (hdr_id h) ID_STRING 8) || dn || up then
    r1 ← center_message (list_ascii_of_string "memory initialized");
    r2 ← center_message (list_ascii_of_string "capacity: "
                         ++ print_int NUM_EEPROM_CALLS
                         ++ list_ascii_of_string " calls");
    Some (mkNvm fresh_hdr fresh_hdr (ee_calls m)
                (ee_log m ++ [WriteHeader; Commit]),
          s, [(1, r1); (2, r2)])
  else
    s' ← eeprom_load_loop (Z.to_nat 32768) h (ee_calls m)
           (mkStore (calls s) 0 0 0 (displayed s) (displayed_age s))
           (hdr_oldest h);
    r1 ← center_message (print_int (num_calls s')
                         ++ list_ascii_of_string " calls in memory");
    Some (mkNvm h (ee_hdr m) (ee_calls m) (ee_log m), s', [(1, r1)]).

(** ** The scroll buttons *)

(** The two scrolling statements of [process_scroll_buttons] on the call
    list: [up] and [dn] are the results of the two calls of
    [switch_push]. *)
Definition scroll (up dn : bool) (s : store) : store :=
  let s1 :=
    if up && (num_calls s >? 0) && negb (displayed s =? oldest s) then
      let d1 := to_short (displayed s - 1) in
      let d := if d1 <? 0 then MAX_CALLS - 1 else d1 in
      display_call d
        (mkStore (calls s) (num_calls s) (oldest s) (newest s) d
                 (to_short (displayed_age s + 1)))
    else s in
  if dn && (num_calls s1 >? 0) && negb (displayed s1 =? newest s1) then
    let d1 := to_short (displayed s1 + 1) in
    let d := if d1 >=? MAX_CALLS then 0 else d1 in
    display_call d
      (mkStore (calls s1) (num_calls s1) (oldest s1) (newest s1) d
               (to_short (displayed_age s1 - 1)))
  else s1.

(** ** The bytes that [badpacket] prints

    [badpacket] prints, in hexadecimal, the ten bytes [pktptr[0]] to
    [pktptr[9]]; [None] stands for a read outside the array [packet]. *)
Definition badpacket_shown (p : parser) : list (option ascii) :=
  (fun i => arr_get (packet p) (pktptr p + i)) <$> seqZ 0 10.

(** ** Showing the last bad packet *)

(** The [while] loop of [badpacket_display]: the pages shown, each with
    the offset printed before its bytes; the lower button is pushed once
    to leave each page.  [None] stands for a read outside
    [badpacket_data] (or for more pages than [fuel]). *)
Fixpoint badpacket_pages (fuel : nat) (b : badrec) (offset : Z)
  : option (list (Z * list ascii)) :=
  match fuel with
  | O => None
  | S fuel' =>
      if offset <? badpacket_length b then
        page ← mapM (fun ndx => arr_get (badpacket_data b) (offset + ndx))
                    (seqZ 0 (Z.min 8 (badpacket_length b - offset)));
        rest ← badpacket_pages fuel' b (offset + 8);
        Some ((offset, page) :: rest)
      else Some []
  end.

(** [void badpacket_display(void)]: the pages shown, and the call list
    after the [show_newest_call] at the end. *)
Definition badpacket_display (b : badrec) (s : store)
  : option (list (Z * list ascii) * store) :=
  if badpacket_count b =? 0 then Some ([], show_newest_call s)
  else
    pages ← badpacket_pages (Z.to_nat MAX_PACKET) b 0;
    Some (pages, show_newest_call s).

(** ** The backlight *)

Definition OPT_BACKLIGHT_OFF : Z := 1.
Definition BACKLIGHT_TIMEOUT_SECS : Z := 10.

(** Conversion to [unsigned long] (32 bits). *)
Definition to_ulong (z : Z) : Z := z mod 4294967296.

(** The last statement of [loop]: [backlight_on] after it, when
    [millis()] returns [now] and the backlight was turned on at
    [turnon_time]. *)
Definition backlight_timeout (options : Z) (on : bool) (now turnon_time : Z)
  : bool :=
  if negb (Z.land options OPT_BACKLIGHT_OFF =? 0) && on
     && (to_ulong (now - turnon_time)
         >? to_ulong (BACKLIGHT_TIMEOUT_SECS * 1000))
  then false else on.

(** ** The bytes of the non-volatile memory

    The device [EEPROM] as the array of [EEPROM_SIZE] bytes that
    [EEPROM.begin] sets up; [EEPROM.write] stores nothing outside it and
    [EEPROM.read] yields 0 there. *)

Definition rom_at (rom : list ascii) (addr : Z) : ascii :=
  match arr_get rom addr with Some c => c | None => NUL end.

(** [void eeprom_write(int addr, int length, byte *srcptr)]: [src] is
    the object that [srcptr] points into.  [None] stands for a read
    behind that object, and for the negative [length] with which the loop
    does not stop. *)
Fixpoint eeprom_write_loop (n : nat) (addr : Z) (src rom : list ascii)
  : option (list ascii) :=
  match n with
  | O => Some rom
  | S n' =>
      match src with
      | [] => None
      | c :: src' => eeprom_write_loop n' (addr + 1) src' (arr_set rom addr c)
      end
  end.

Definition eeprom_write (addr length : Z) (src rom : list ascii)
  : option (list ascii) :=
  if length <? 0 then None
  else eeprom_write_loop (Z.to_nat length) addr src rom.

(** [void eeprom_read(int addr, int length, byte *dstptr)]: the bytes
    stored through [dstptr]. *)
Fixpoint eeprom_read_loop (n : nat) (addr : Z) (rom : list ascii)
  : list ascii :=
  match n with
  | O => []
  | S n' => rom_at rom addr :: eeprom_read_loop n' (addr + 1) rom
  end.

Definition eeprom_read (addr length : Z) (rom : list ascii)
  : option (list ascii) :=
  if length <? 0 then None
  else Some (eeprom_read_loop (Z.to_nat length) addr rom).

(** Conversion to [int] (32 bits, two's complement). *)
Definition to_int (z : Z) : Z := (z + 2147483648) mod 4294967296 - 2147483648.

(** The address of a record slot, as [eeprom_load] and [eeprom_add_call]
    compute it: [sizeof(struct eeprom_hdr_t) + ndx * sizeof(struct
    call_record_t)] in unsigned arithmetic, passed as an [int]. *)
Definition record_addr (ndx : Z) : Z :=
  to_int (to_size_t (sizeof_eeprom_hdr_t
                     + to_size_t (to_size_t ndx * sizeof_call_record_t))).

(** ** Configuration *)

(** One call of [input_string] in [do_configuration]: [cg] are the
    globals [input_col] and [glyph] as the call before has left them, and
    [evs] the events that this call sees.  The call returns when the edit
    is done: [None] stands for a call still waiting when [evs] are used
    up, and for a title that fails the assertion of [center_message]. *)
Definition edit_string (title : list ascii) (cg : Z * Z) (d : list ascii)
    (L : Z) (evs : list event) : option (list ascii * (Z * Z)) :=
  _ ← center_message title;
  let c := foldl (step L) (input_string_start d L cg.1 cg.2) evs in
  match at_phase c with
  | Done => Some (dst c, (input_col c, glyph c))
  | _ => None
  end.

(** The loop of [do_configuration] over the line names. *)
Fixpoint edit_names (n : nat) (i : Z) (cg : Z * Z)
    (names : list (list ascii)) (evs : list (list event))
  : option (list (list ascii) * (Z * Z)) :=
  match n with
  | O => Some (names, cg)
  | S n' =>
      d ← arr_get names i;
      r ← edit_string (list_ascii_of_string "Line " ++ print_int (i + 1)
                       ++ list_ascii_of_string " name")
                      cg d LINE_NAMELENGTH (default [] (evs !! Z.to_nat i));
      edit_names n' (i + 1) r.2 (arr_set names i r.1) evs
  end.

(** [void do_configuration(void)]: [yes] is the answer to [ask_yesno],
    the upper button for yes and the lower one for no. *)
Definition do_configuration (cg : Z * Z) (ssid_evs password_evs : list event)
    (name_evs : list (list event)) (yes : bool) (m : nvm)
  : option (nvm * (Z * Z)) :=
  let h := eeprom_hdr m in
  r1 ← edit_string (list_ascii_of_string "WiFi network") cg
                   (hdr_ssid h) WIFI_NAMELENGTH ssid_evs;
  r2 ← edit_string (list_ascii_of_string "WiFi password") r1.2
                   (hdr_password h) WIFI_NAMELENGTH password_evs;
  r3 ← edit_names (Z.to_nat MAX_LINES) 0 r2.2 (hdr_line_names h) name_evs;
  let options :=
    if yes then to_byte (Z.lor (hdr_options h) OPT_BACKLIGHT_OFF)
    else to_byte (Z.land (hdr_options h) (Z.lnot OPT_BACKLIGHT_OFF)) in
  let h' := mkHdr (hdr_id h) options r1.1 r2.1 r3.1
                  (hdr_num_calls h) (hdr_oldest h) (hdr_newest h) in
  _ ← center_message (list_ascii_of_string "Names recorded");
  Some (mkNvm h' h' (ee_calls m) (ee_log m ++ [WriteHeader; Commit]), r3.2).

(** The events of one run of [do_configuration]. *)
Record config_input := mkConfig {
  cf_ssid : list event;
  cf_password : list event;
  cf_names : list (list event);
  cf_yes : bool
}.

Definition run_configuration (x : nvm * (Z * Z)) (c : config_input)
  : option (nvm * (Z * Z)) :=
  do_configuration x.2 (cf_ssid c) (cf_password c) (cf_names c) (cf_yes c) x.1.

(** ** The push buttons *)

(** What a call of [switch_push] finds at its pin.
    - [Idle]: the button is up; the call returns false.
    - [Pushed both ms]: the button is down and is released again; [both]
      tells whether the loop that waits for the release has seen the two
      buttons down together, and [ms] is [millis() - startpush] after the
      second debounce delay.  The call returns true.
    - [Held]: the button is down and is not released: the loop that waits
      for the release does not end. *)
Inductive push :=
| Idle
| Pushed (both : bool) (ms : Z)
| Held.

(** The globals [double_button_push] and [switch_pushed_time]. *)
Record buttons := mkButtons {
  double_button_push : bool;
  switch_pushed_time : Z
}.

(** [bool switch_push(int pin)]: the result, the two globals and
    [backlight_on] after the call.  [None] stands for a call that does
    not return. *)
Definition switch_push (b : push) (g : buttons) (on : bool)
  : option (bool * buttons * bool) :=
  match b with
  | Idle => Some (false, g, on)
  | Pushed both ms =>
      Some (true, mkButtons (double_button_push g || both) (to_ulong ms), true)
  | Held => None
  end.

(** The pushes of the lower button that [badpacket_display] waits for:
    one when there is no bad packet, and else one for each page. *)
Definition badpacket_waits (b : badrec) (pages : list (Z * list ascii)) : nat :=
  if badpacket_count b =? 0 then 1%nat else length pages.

(** [void process_scroll_buttons(void)] on the globals; the second
    component of [x] holds [input_col] and [glyph].  [up] and [dn] are
    what the two calls of [switch_push] find.  After a double push,
    [dn_pushes] is the number of pushes of the lower button that follow,
    for the pages of [badpacket_display], and [cfg] holds the events for
    [do_configuration].  [switch_pushed_time] is read only when
    [double_button_push] is set, which a push of this call has done, and
    that push has stored the time: the 0 that stands for its value before
    is never read.  [None] stands for a call that does not return: a
    button that is not released, a dialogue that is not brought to its
    end, or a page of the bad packet display that nobody leaves. *)
Definition process_scroll_buttons (up dn : push) (dn_pushes : nat)
    (cfg : config_input) (x : state * (Z * Z)) : option (state * (Z * Z)) :=
  let st := x.1 in
  r1 ← switch_push up (mkButtons false 0) (backlight_on st);
  r2 ← switch_push dn r1.1.2 r1.2;
  let s2 := scroll r1.1.1 r2.1.1 (sto st) in
  if double_button_push r2.1.2 then
    if switch_pushed_time r2.1.2 >? 3000 then
      r ← badpacket_display (bad st) s2;
      if (badpacket_waits (bad st) r.1 <=? dn_pushes)%nat
      then Some (mkState (prs st) r.2 (nv st) (bad st) true, x.2)
      else None
    else
      c ← run_configuration (nv st, x.2) cfg;
      Some (mkState (prs st) (show_newest_call s2) c.1 (bad st) r2.2, c.2)
  else Some (mkState (prs st) s2 (nv st) (bad st) r2.2, x.2).

(** ** Joining the network *)

(** The globals [connect_attempts] and [connect_successes]. *)
Record net := mkNet {
  connect_attempts : Z;
  connect_successes : Z
}.

(** The [while (WiFi.status() != WL_CONNECTED)] loop of [join_network],
    for the rounds in which the network is not connected yet: each round
    holds the events of the [do_configuration] that the two buttons ask
    for in it, if they do.  The two messages of a retry have 17 and 19
    characters. *)
Fixpoint join_network_loop (rounds : list (option config_input)) (tries : Z)
    (x : nvm * (Z * Z)) (n : net) : option (nvm * (Z * Z) * net) :=
  match rounds with
  | [] => Some (x, n)
  | ask :: rest =>
      let t1 := to_int (tries + 1) in
      r ← (if t1 >? 10 then
             _ ← center_message (list_ascii_of_string "could not connect");
             _ ← center_message (list_ascii_of_string "retrying connection");
             Some (0, mkNet (to_int (connect_attempts n + 1))
                            (connect_successes n))
           else Some (t1, n));
      x' ← match ask with
           | Some c => run_configuration x c
           | None => Some x
           end;
      join_network_loop rest r.1 x' r.2
  end.

(** [void join_network(void)].  [link] tells how the network behaves:
    [Some rounds] when [WiFi.status()] is not [WL_CONNECTED] for the tests
    of [rounds] and is so at the next test, [None] when it never is: then
    the loop does not end.  The result holds the header, [input_col] and
    [glyph], the counters, the call list after [show_newest_call], and
    the row with the counters that [center_message] prints; [None] stands
    for a call that does not return, which is also what the failed
    assertion of [center_message] does. *)
Definition join_network (link : option (list (option config_input)))
    (m : nvm) (cg : Z * Z) (n : net) (s : store)
  : option (nvm * (Z * Z) * net * store * list ascii) :=
  _ ← center_message (list_ascii_of_string "connecting");
  rounds ← link;
  r ← join_network_loop rounds 0 (m, cg)
         (mkNet (to_int (connect_attempts n + 1)) (connect_successes n));
  _ ← center_message [];
  let n' := mkNet (connect_attempts r.2)
                  (to_int (connect_successes r.2 + 1)) in
  row ← center_message (print_int (connect_attempts n')
                        ++ list_ascii_of_string " tries, "
                        ++ print_int (connect_successes n')
                        ++ list_ascii_of_string " ok");
  Some (r.1.1, r.1.2, n', show_newest_call s, row).

(** [if (WiFi.status() != WL_CONNECTED) join_network();] in [loop]:
    [wifi] is [None] when the network is connected at that test. *)
Definition loop_network (wifi : option (option (list (option config_input))))
    (x : state * (Z * Z) * net) : option (state * (Z * Z) * net) :=
  match wifi with
  | None => Some x
  | Some link =>
      let st := x.1.1 in
      r ← join_network link (nv st) x.1.2 x.2 (sto st);
      Some (mkState (prs st) r.1.2 r.1.1.1.1 (bad st) (backlight_on st),
            r.1.1.1.2, r.1.1.2)
  end.

(** ** Start-up *)

(** [void setup(void)] on the archive and the call list: [eeprom_load],
    the configuration when no network name is stored, and then
    [join_network], with the counters at their initial 0.  The result
    holds the non-volatile memory, the call list and the counters. *)
Definition setup (dn up : bool) (first : config_input)
    (link : option (list (option config_input))) (m : nvm) (s : store)
  : option (nvm * store * net) :=
  r ← eeprom_load dn up m s;
  x1 ← match hdr_ssid (eeprom_hdr r.1.1) with
       | c :: _ =>
           if Ascii.eqb c NUL then run_configuration (r.1.1, (0, 0)) first
           else Some (r.1.1, (0, 0))
       | [] => None
       end;
  j ← join_network link x1.1 x1.2 (mkNet 0 0) r.1.2;
  Some (j.1.1.1.1, j.1.2, j.1.1.2).

(** * More definitions for the statements *)

(** ** The bytes ahead of the cursor *)

(** [cursor p ahead]: the cursor is inside the datagram, the datagram is
    inside the array [packet], and [ahead] are the bytes of the datagram
    from the cursor on. *)
Definition cursor (p : parser) (ahead : list ascii) : Prop :=
  (0 <= pktptr p <= pktlen p /\ pktlen p <= Z.of_nat (length (packet p))) /\
  drop (Z.to_nat (pktptr p)) (take (Z.to_nat (pktlen p)) (packet p)) = ahead.

(** [p'] differs from [p] at most in the cursor and the read log. *)
Definition same_buffers (p p' : parser) : Prop :=
  packet p' = packet p /\ pktlen p' = pktlen p /\
  forall f, get_field f p' = get_field f p.

(** The preamble of every packet. *)
Definition preamble (unit serial line : list ascii) : list ascii :=
  list_ascii_of_string "^^<U>" ++ unit ++ list_ascii_of_string "<S>"
  ++ serial ++ list_ascii_of_string "$" ++ line ++ list_ascii_of_string " ".

(** ** Sample datagrams *)

Definition sample_line : list ascii := list_ascii_of_string "01".

Definition sample_boot_notice : list ascii :=
  preamble sample_unit sample_unit sample_line
  ++ list_ascii_of_string "V3.0 and some more bytes up.".

Definition sample_other : list ascii :=
  preamble sample_unit sample_unit sample_line
  ++ list_ascii_of_string "I S 0000 G A0 03/14 10:55 PM .".

Definition sample_end_call : list ascii :=
  preamble sample_unit sample_unit sample_line
  ++ list_ascii_of_string "I E " ++ list_ascii_of_string "0123"
  ++ list_ascii_of_string " G A2 03/14 10:56 PM 111 111 1111   Caller one".

(** ** The field buffers *)

#[global] Instance field_eq_dec : EqDecision field.
Proof. solve_decision. Defined.

(** The number of bytes copied into each field buffer; the buffer has one
    byte more, the terminating NUL. *)
Definition width (f : field) : nat :=
  match f with
  | f_unitnum | f_serialnum => 6
  | f_phoneline => 2
  | f_duration => 4
  | f_atype => 1
  | f_datetime | f_phonenum | f_callername => 15
  end.

(** The arrays have their declared sizes and every field buffer ends with
    its NUL. *)
Definition parser_wf (p : parser) : Prop :=
  length (packet p) = Z.to_nat MAX_PACKET /\
  forall f, drop (width f) (get_field f p) = [NUL].

(** [p'] has the datagram of [p], and every field buffer of [p] that is
    longer than its width has kept its size and what lies behind the
    width. *)
Definition buffers_kept (p p' : parser) : Prop :=
  packet p' = packet p /\ pktlen p' = pktlen p /\
  forall f, (width f <= length (get_field f p))%nat ->
    drop (width f) (get_field f p') = drop (width f) (get_field f p) /\
    length (get_field f p') = length (get_field f p).

Definition cond_frame (c : cond) : Prop := forall p, buffers_kept p (c p).2.

Definition sample_short : list ascii :=
  list_ascii_of_string "^^<U>123456<S>123456$01 V".

(** ** Restarting *)

(** The globals of the archive after a power cycle: the copy of the
    header in memory is zero again, the non-volatile memory has kept what
    was committed. *)
Definition zero_hdr : eeprom_hdr_t :=
  mkHdr (zeros 8) 0 (zeros 32) (zeros 32) (replicate 8 (zeros 16)) 0 0 0.

Definition power_cycle (m : nvm) : nvm :=
  mkNvm zero_hdr (ee_hdr m) (ee_calls m) (ee_log m).

(** The header in memory is the one in the non-volatile memory, and it
    carries the identification. *)
Definition header_committed (m : nvm) : Prop :=
  ee_hdr m = eeprom_hdr m /\
  memcmp_eq (hdr_id (eeprom_hdr m)) ID_STRING 8 = true.

(** ** The call on display *)

(** The call on display is a held call, and [displayed_age] tells how
    far back from the newest it is, counted from 1. *)
Definition display_ok (s : store) : Prop :=
  store_inv s /\
  (0 < num_calls s ->
   1 <= displayed_age s <= num_calls s /\
   displayed s = back_from_newest s (displayed_age s - 1)).

(** The archive holds the last calls of the call list, without their
    durations. *)
Definition archive_follows (st : state) : Prop :=
  archive_held (nv st)
  = set_seconds 0 <$> lastn NUM_EEPROM_CALLS (store_held (sto st)).

Definition default_names : list string :=
  ["line 1"; "line 2"; "line 3"; "line 4"; "line 5"; "line 6"; "line 7";
   "line 8"]%string.

(** The state with another call list. *)
Definition with_store (s : store) (st : state) : state :=
  mkState (prs st) s (nv st) (bad st) (backlight_on st).

(** One push of the upper button, of the lower button. *)
Definition push_up : store -> store := scroll true false.
Definition push_dn : store -> store := scroll false true.

(** A button that is up, or pushed and released with the other one up. *)
Definition single (b : push) : Prop :=
  b = Idle \/ exists ms, b = Pushed false ms.

(** The result of [switch_push] for such a button. *)
Definition pushed (b : push) : bool :=
  match b with Pushed _ _ => true | _ => false end.

(** ** The editor *)

(** The editor works inside the first [L] bytes of the buffer [d]: the
    buffer has kept its size and its bytes from [L] on, and while a
    character is chosen or awaited the cursor is inside and the glyph is
    one of the alphabet. *)
Definition editing (L : Z) (d : list ascii) (c : composer) : Prop :=
  length (dst c) = length d /\
  drop (Z.to_nat L) (dst c) = drop (Z.to_nat L) d /\
  (at_phase c = Choosing \/ at_phase c = Waiting ->
   0 <= input_col c < L /\ 0 <= glyph c < sizeof_alphabet).

(** The line typed on a terminal: a backspace takes the last byte away,
    any other byte is appended. *)
Definition type_byte (text : list ascii) (ch : ascii) : list ascii :=
  if is_backspace ch then removelast text else text ++ [ch].

Definition typed_line (bytes : list ascii) : list ascii :=
  foldl type_byte [] bytes.

(** The glyph at an index of the alphabet. *)
Definition glyph_at (g : Z) : ascii :=
  match arr_get alphabet g with Some a => a | None => NUL end.

(** The editor waiting for the next byte, with [text] entered so far. *)
Definition line_state (L : Z) (rest text : list ascii) (g : Z) : composer :=
  mkComposer (text ++ zeros (Z.to_nat L - length text) ++ rest)
             (Z.of_nat (length text)) g Waiting.

(** Entering a string with the two buttons.  For the glyph [j] of the
    alphabet: [j] steps of the upper button from the first glyph (one
    push, held down for the fast forward), then the lower button
    ("character done").  Before every further character the upper button
    once ("change"), which proposes the first glyph again; and the same
    before the first one when the string has a current value. *)
Definition choose (j : nat) : list event :=
  match j with O => [] | S r => [Change r] end.

Definition enter_glyph (j : nat) : list event := choose j ++ [Accept].

Definition enter_glyphs (js : list nat) : list event :=
  match js with
  | [] => []
  | j :: js' =>
      enter_glyph j ++ flat_map (fun j => Change 0 :: enter_glyph j) js'
  end.

Definition begin_edit (d : list ascii) : list event :=
  match d with
  | ch :: _ => if Ascii.eqb ch NUL then [] else [Change 0]
  | [] => []
  end.

(** The editor proposing the first glyph behind [text]. *)
Definition choosing_state (L : Z) (rest text : list ascii) : composer :=
  mkComposer (text ++ glyph_at 0 :: zeros (Z.to_nat L - length text - 1)
                   ++ rest)
             (Z.of_nat (length text)) 0 Choosing.

(** A bad packet record: [sample_other] recorded as a bad packet of
    type 2. *)
Definition sample_bad : badrec :=
  mkBad 1 54 2 (store_prefix sample_other (zeros 255)).

(** ** The header *)

(** The options are a byte, and every string of the header has the NUL
    that its array holds behind the characters to be entered. *)
Definition hdr_wf (h : eeprom_hdr_t) : Prop :=
  0 <= hdr_options h < 256 /\
  drop (Z.to_nat WIFI_NAMELENGTH) (hdr_ssid h) = [NUL] /\
  drop (Z.to_nat WIFI_NAMELENGTH) (hdr_password h) = [NUL] /\
  length (hdr_line_names h) = Z.to_nat MAX_LINES /\
  Forall (fun nm => drop (Z.to_nat LINE_NAMELENGTH) nm = [NUL])
         (hdr_line_names h).

(** A configuration from the serial port: a network name, a password,
    and an empty line for each of the line names. *)
Definition sample_names : list (list event) :=
  replicate 8 [Key "013"%char].

(** ** A call *)

(** The number that [parse_phoneline] makes of a line field. *)
Definition line_of (line : list ascii) : Z :=
  parse_phoneline (set_field f_phoneline (line ++ [NUL]) init_parser).

(** The datagram that ends a call: any unit and serial number, the line,
    ["I E "], the duration, and whatever follows. *)
Definition call_end_packet (unit serial line secs rest : list ascii)
  : list ascii :=
  preamble unit serial line ++ list_ascii_of_string "I E " ++ secs ++ rest.

(** ** The line of a call *)

(** The line of a call record is an index of [line_names]. *)
Definition line_ok (r : call_record_t) : Prop :=
  0 <= cr_phoneline r < MAX_LINES.

(** Every record of the call list and of the archive has such a line. *)
Definition lines_ok (st : state) : Prop :=
  Forall line_ok (calls (sto st)) /\ Forall line_ok (ee_calls (nv st)).

(** A configuration from the serial port. *)
Definition sample_config : config_input :=
  mkConfig (keys "net" ++ [Key "013"%char])
           (keys "secret" ++ [Key "013"%char]) sample_names true.
(** * Properties *)

(** ** Machine integers and arrays *)

Lemma to_short_id z : -32768 <= z < 32768 -> to_short z = z.
Proof.
  intros Hz. unfold to_short.
  rewrite Z.mod_small by lia. lia.
Qed.

Lemma to_byte_id z : 0 <= z < 256 -> to_byte z = z.
Proof. intros Hz. unfold to_byte. apply Z.mod_small. lia. Qed.

Lemma arr_set_length {A} (a : list A) i x : length (arr_set a i x) = length a.
Proof. unfold arr_set. destruct (Z.ltb i 0); [done|]. apply length_insert. Qed.

Lemma arr_get_set_eq {A} (a : list A) i x :
  0 <= i < Z.of_nat (length a) -> arr_get (arr_set a i x) i = Some x.
Proof.
  intros Hi. unfold arr_get, arr_set.
  destruct (Z.ltb_spec i 0); [lia|].
  apply list_lookup_insert_eq. lia.
Qed.

Lemma arr_get_set_ne {A} (a : list A) i j x :
  i <> j -> arr_get (arr_set a i x) j = arr_get a j.
Proof.
  intros Hij. unfold arr_get, arr_set.
  destruct (Z.ltb_spec j 0); [done|].
  destruct (Z.ltb_spec i 0); [done|].
  apply list_lookup_insert_ne. lia.
Qed.

Lemma arr_get_Some_lt {A} (a : list A) i x :
  arr_get a i = Some x -> 0 <= i < Z.of_nat (length a).
Proof.
  unfold arr_get. destruct (Z.ltb_spec i 0); [done|].
  intros H'. apply lookup_lt_Some in H'. lia.
Qed.

Lemma arr_get_is_Some {A} (a : list A) i :
  0 <= i < Z.of_nat (length a) -> exists x, arr_get a i = Some x.
Proof.
  intros Hi. unfold arr_get. destruct (Z.ltb_spec i 0); [lia|].
  destruct (lookup_lt_is_Some_2 a (Z.to_nat i)) as [x Hx]; [lia|].
  by exists x.
Qed.

(** ** The phone line identifier *)

Lemma scan_two_digits (a b : ascii) (rest : list ascii) :
  isdigit a = true -> isdigit b = true ->
  sscanf_d (a :: b :: NUL :: rest) = Some (10 * (code a - 48) + (code b - 48)).
Proof.
  intros Ha Hb. unfold sscanf_d.
  assert (Hnz : forall c, isdigit c = true -> Ascii.eqb c NUL = false).
  { intros c Hc. destruct (Ascii.eqb_spec c NUL) as [->|]; [discriminate|done]. }
  assert (Hns : forall c, isdigit c = true -> isspace c = false).
  { intros c. unfold isdigit, isspace. lia. }
  assert (Hsg : forall c, isdigit c = true -> c <> "+"%char /\ c <> "-"%char).
  { intros c Hc; split; intros ->; discriminate. }
  simpl c_str. rewrite (Hnz a Ha), (Hnz b Hb). simpl skip_spaces.
  rewrite (Hns a Ha).
  destruct (Hsg a Ha) as [Hp Hm].
  assert (Hscan : scan_digits (a :: [b]) 0 false
                  = Some (10 * (code a - 48) + (code b - 48))).
  { simpl. rewrite Ha, Hb. f_equal; lia. }
  destruct a as [[] [] [] [] [] [] [] []]; try exact Hscan; congruence.
Qed.

(** The sign test of [sscanf_d], written with [Ascii.eqb]. *)
Lemma sscanf_d_unfold (buf : list ascii) :
  sscanf_d buf
  = match skip_spaces (c_str buf) with
    | [] => None
    | c :: r =>
        if Ascii.eqb c "+"%char then scan_digits r 0 false
        else if Ascii.eqb c "-"%char then Z.opp <$> scan_digits r 0 false
        else scan_digits (c :: r) 0 false
    end.
Proof.
  unfold sscanf_d. destruct (skip_spaces (c_str buf)) as [|c r]; [done|].
  destruct c as [[] [] [] [] [] [] [] []]; reflexivity.
Qed.

(** A byte is the NUL, white space, a digit, a sign or none of these. *)
Lemma char_cases (c : ascii) :
  let k := (Ascii.eqb c NUL, isspace c, isdigit c,
            Ascii.eqb c "+"%char, Ascii.eqb c "-"%char) in
  k = (true, false, false, false, false) \/
  k = (false, true, false, false, false) \/
  k = (false, false, true, false, false) \/
  k = (false, false, false, true, false) \/
  k = (false, false, false, false, true) \/
  k = (false, false, false, false, false).
Proof.
  destruct c as [[] [] [] [] [] [] [] []]; vm_compute; auto 7.
Qed.

(** What [sscanf] reads from a field of two bytes. *)
Lemma sscanf_d_two (a b : ascii) (rest : list ascii) :
  sscanf_d (a :: b :: NUL :: rest) = line_number a b.
Proof.
  rewrite sscanf_d_unfold. unfold line_number, digit_value.
  destruct (char_cases a) as [Ha|[Ha|[Ha|[Ha|[Ha|Ha]]]]];
    injection Ha as Ha0 Has Had Hap Ham;
    destruct (char_cases b) as [Hb|[Hb|[Hb|[Hb|[Hb|Hb]]]]];
    injection Hb as Hb0 Hbs Hbd Hbp Hbm;
    cbn [c_str skip_spaces];
    rewrite ?Ha0, ?Hb0; cbn [c_str skip_spaces];
    rewrite ?Has, ?Hbs; cbn [c_str skip_spaces];
    rewrite ?Hap, ?Ham, ?Hbp, ?Hbm; cbn [scan_digits fmap option_fmap option_map];
    rewrite ?Had, ?Hbd; cbn [scan_digits orb fmap option_fmap option_map];
    rewrite ?Had, ?Hbd; cbn [scan_digits orb fmap option_fmap option_map];
    try done; f_equal; lia.
Qed.

(** C7: [parse_phoneline] yields n-1 when the text of the line field
    parses as a decimal n with 1 <= n <= 8, and 7 (the last line) when the
    number is out of range or the text does not parse; the result is
    always between 0 and 7.  The text is parsed by [sscanf]: from the two
    bytes [a] and [b] it reads the number [line_number a b], which is the
    value of the text when that is a decimal numeral, the first digit
    alone when the second byte is not a digit, the second digit after
    white space or a sign, and nothing in every other case, so in
    particular when neither byte is a digit. *)
Theorem parse_phoneline_spec (p : parser) (a b : ascii) (rest : list ascii) :
  phoneline p = a :: b :: NUL :: rest ->
  (forall n, line_number a b = Some n -> 1 <= n <= 8 ->
             parse_phoneline p = n - 1) /\
  (forall n, line_number a b = Some n -> ~ (1 <= n <= 8) ->
             parse_phoneline p = 7) /\
  (line_number a b = None -> parse_phoneline p = 7) /\
  (forall n, decimal_numeral [a; b] = Some n -> line_number a b = Some n) /\
  (isdigit a = false -> isdigit b = false -> parse_phoneline p = 7) /\
  0 <= parse_phoneline p <= 7.
Proof.
  intros Hp.
  assert (H7 : to_byte (8 - 1) = 7) by reflexivity.
  assert (Hin : forall n, 1 <= n <= 8 -> to_byte (to_byte n - 1) = n - 1).
  { intros n Hn. rewrite (to_byte_id n) by lia. apply to_byte_id. lia. }
  assert (Hnum : forall n, decimal_numeral [a; b] = Some n ->
                           line_number a b = Some n).
  { intros n. unfold decimal_numeral, line_number. simpl.
    destruct (isdigit a); [|done]. destruct (isdigit b); [|done]. simpl.
    intros [= <-]. done. }
  assert (Hnone : isdigit a = false -> isdigit b = false ->
                  line_number a b = None).
  { intros Ha Hb. unfold line_number. by rewrite Ha, Hb. }
  unfold parse_phoneline, MAX_LINES. rewrite Hp, sscanf_d_two.
  destruct (line_number a b) as [m|].
  - destruct (Z.leb_spec 1 m), (Z.leb_spec m 8); simpl;
      rewrite ?H7, ?Hin by lia;
      split_and!; try lia; try done; try (intros n [= <-] Hn; lia);
      intros Ha Hb; by specialize (Hnone Ha Hb).
  - rewrite H7. split_and!; try lia; try done; intros n [=].
Qed.

(** The texts "03" and "1x": line 3 gives the index 2, and the digit 1
    followed by a letter is read as line 1 and gives the index 0. *)
Lemma parse_phoneline_spec_witness :
  (phoneline (parser_with_line "03") = ["0"; "3"; NUL]%char /\
   line_number "0" "3" = Some 3 /\ 1 <= 3 <= 8 /\
   parse_phoneline (parser_with_line "03") = 3 - 1) /\
  (phoneline (parser_with_line "1x") = ["1"; "x"; NUL]%char /\
   line_number "1" "x" = Some 1 /\ 1 <= 1 <= 8 /\
   parse_phoneline (parser_with_line "1x") = 1 - 1).
Proof.
  split; (split; [reflexivity|]); (split; [reflexivity|]); (split; [lia|]).
  - apply (proj1 (parse_phoneline_spec (parser_with_line "03")
                    "0"%char "3"%char [] eq_refl) 3); [reflexivity | lia].
  - apply (proj1 (parse_phoneline_spec (parser_with_line "1x")
                    "1"%char "x"%char [] eq_refl) 1); [reflexivity | lia].
Defined.

(** Texts that are not decimal numerals and from which [sscanf] reads a
    digit all the same: the digit before a letter, and the digit after a
    plus sign or a tab. *)
Lemma phoneline_single_digit :
  decimal_numeral (list_ascii_of_string "1x") = None /\
  parse_phoneline (parser_with_line "1x") = 0 /\
  decimal_numeral (list_ascii_of_string "+5") = None /\
  parse_phoneline (parser_with_line "+5") = 4 /\
  decimal_numeral ["009"; "2"]%char = None /\
  parse_phoneline
    (set_field f_phoneline ["009"; "2"; NUL]%char init_parser) = 1.
Proof. by vm_compute. Qed.

(** ** Copying a field *)

Lemma next_byte_spec p :
  fst (next_byte p) = pkt_at p (pktptr p) /\
  packet (snd (next_byte p)) = packet p /\
  pktptr (snd (next_byte p)) = pktptr p + 1 /\
  pktlen (snd (next_byte p)) = pktlen p /\
  reads (snd (next_byte p)) = reads p ++ [pktptr p] /\
  forall f, get_field f (snd (next_byte p)) = get_field f p.
Proof. destruct p. simpl. split_and!; try done. Qed.

Lemma copied_S_in p p1 len :
  packet p1 = packet p -> pktlen p1 = pktlen p -> pktptr p1 = pktptr p + 1 ->
  pktptr p < pktlen p ->
  copied p (S len) = pkt_at p (pktptr p) :: copied p1 len.
Proof.
  intros Hpk Hpl Hpp Hlt. unfold copied. simpl map.
  rewrite Z.add_0_r. destruct (Z.ltb_spec (pktptr p) (pktlen p)); [|lia].
  f_equal. rewrite <- seq_shift, map_map.
  apply map_ext. intros i. rewrite Hpl, Hpp. unfold pkt_at. rewrite Hpk.
  replace (pktptr p + 1 + Z.of_nat i) with (pktptr p + Z.of_nat (S i)) by lia.
  done.
Qed.

Lemma copied_S_out p len :
  pktlen p <= pktptr p -> copied p (S len) = NUL :: copied p len.
Proof.
  intros Hge. unfold copied. simpl map.
  destruct (Z.ltb_spec (pktptr p + Z.of_nat 0) (pktlen p)); [lia|].
  f_equal. rewrite <- seq_shift, map_map.
  apply map_ext. intros i.
  destruct (Z.ltb_spec (pktptr p + Z.of_nat (S i)) (pktlen p)); [lia|].
  destruct (Z.ltb_spec (pktptr p + Z.of_nat i) (pktlen p)); [lia|]. done.
Qed.

Lemma copy_loop_spec len : forall p out,
  let r := copy_loop len p out in
  fst r = out ++ copied p len /\
  packet (snd r) = packet p /\
  pktlen (snd r) = pktlen p /\
  pktptr p <= pktptr (snd r) /\
  pktptr (snd r) <= Z.max (pktptr p) (pktlen p) /\
  (pktptr p + Z.of_nat len <= pktlen p ->
   pktptr (snd r) = pktptr p + Z.of_nat len) /\
  (forall f, get_field f (snd r) = get_field f p) /\
  exists new, reads (snd r) = reads p ++ new /\
              Forall (fun q => pktptr p <= q < pktlen p) new.
Proof.
  induction len as [|len IH]; intros p out; simpl.
  - rewrite app_nil_r. split_and!; try done; try lia.
    exists []. by rewrite app_nil_r.
  - destruct (Z.ltb_spec (pktptr p) (pktlen p)) as [Hlt|Hge].
    + destruct (next_byte p) as [b p1] eqn:Hnb.
      destruct (next_byte_spec p) as (Hb & Hpk & Hpp & Hpl & Hrd & Hf).
      rewrite Hnb in *. simpl in *. subst b.
      destruct (IH p1 (out ++ [pkt_at p (pktptr p)]))
        as (Ho & Hpk' & Hpl' & Hlo & Hhi & Hex & Hf' & new & Hnew & Hall).
      rewrite Ho, Hpk', Hpl'.
      rewrite (copied_S_in p p1 len) by done.
      rewrite <- app_assoc. split_and!; try done; try lia.
      * intros f. by rewrite Hf'.
      * exists (pktptr p :: new). rewrite Hnew, Hrd, <- app_assoc. split; [done|].
        constructor; [lia|].
        eapply Forall_impl; [exact Hall|]. simpl. intros q. lia.
    + destruct (IH p (out ++ [NUL]))
        as (Ho & Hpk' & Hpl' & Hlo & Hhi & Hex & Hf' & new & Hnew & Hall).
      rewrite Ho, (copied_S_out p len), <- app_assoc by lia.
      split_and!; try done; try lia.
      by exists new.
Qed.

Lemma get_set_field_eq f v p : get_field f (set_field f v p) = v.
Proof. by destruct p, f. Qed.

Lemma get_set_field_ne f g v p :
  f <> g -> get_field g (set_field f v p) = get_field g p.
Proof. by destruct p, f, g. Qed.

Lemma set_field_frame f v p :
  packet (set_field f v p) = packet p /\
  pktptr (set_field f v p) = pktptr p /\
  pktlen (set_field f v p) = pktlen p /\
  reads (set_field f v p) = reads p.
Proof. by destruct p, f. Qed.

Lemma copied_length p len : length (copied p len) = len.
Proof. unfold copied. by rewrite length_map, length_seq. Qed.

Lemma copied_lookup p len (i : nat) :
  (i < len)%nat ->
  copied p len !! i =
    Some (if pktptr p + Z.of_nat i <? pktlen p
          then pkt_at p (pktptr p + Z.of_nat i) else NUL).
Proof.
  intros Hi. unfold copied. rewrite list_lookup_fmap.
  rewrite lookup_seq_lt by done. done.
Qed.

(** C8: [copy] of [len] bytes always succeeds; byte [i] of the destination
    is the packet byte at offset [pktptr + i] when that offset lies before
    [pktlen] and NUL otherwise; every offset that the copy reads lies
    before [pktlen]; the rest of the destination buffer, the packet and
    the other fields are left as they were. *)
Theorem copy_zero_fills (dst : field) (len : Z) (p : parser) :
  let r := copy dst len p in
  fst r = true /\
  (forall i, 0 <= i < len ->
     arr_get (get_field dst (snd r)) i =
       Some (if pktptr p + i <? pktlen p
             then pkt_at p (pktptr p + i) else NUL)) /\
  drop (Z.to_nat len) (get_field dst (snd r))
    = drop (Z.to_nat len) (get_field dst p) /\
  (exists new, reads (snd r) = reads p ++ new /\
               Forall (fun q => pktptr p <= q < pktlen p) new) /\
  packet (snd r) = packet p /\ pktlen (snd r) = pktlen p /\
  (forall g, g <> dst -> get_field g (snd r) = get_field g p).
Proof.
  unfold copy.
  destruct (copy_loop (Z.to_nat len) p []) as [out p'] eqn:Hcl.
  destruct (copy_loop_spec (Z.to_nat len) p [])
    as (Ho & Hpk & Hpl & _ & _ & _ & Hf & new & Hnew & Hall).
  rewrite Hcl in *. simpl in *. subst out.
  destruct (set_field_frame dst
              (store_prefix (copied p (Z.to_nat len)) (get_field dst p')) p')
    as (Fpk & _ & Fpl & Frd).
  rewrite get_set_field_eq. unfold store_prefix in *.
  split_and!; [done|..].
  - intros i Hi. unfold arr_get. destruct (Z.ltb_spec i 0); [lia|].
    rewrite lookup_app_l by (rewrite copied_length; lia).
    rewrite copied_lookup by lia. by rewrite Z2Nat.id by lia.
  - rewrite copied_length, Hf.
    rewrite drop_app_length'; [done|]. by rewrite copied_length.
  - exists new. by rewrite Frd.
  - by rewrite Fpk.
  - by rewrite Fpl.
  - intros g Hg. by rewrite get_set_field_ne, Hf.
Qed.

Lemma copy_zero_fills_witness :
  0 <= 2 < 4 /\
  arr_get (get_field f_duration (snd (copy f_duration 4 (set_pktptr 1 short_packet)))) 2
    = Some NUL.
Proof.
  split; [lia|].
  apply (proj1 (proj2 (copy_zero_fills f_duration 4 (set_pktptr 1 short_packet))) 2).
  lia.
Defined.

(** ** The ring store *)

Lemma add_mod_cases C a b :
  0 <= a < C -> 0 <= b <= C ->
  (a + b) mod C = if a + b <? C then a + b else a + b - C.
Proof.
  intros Ha Hb. destruct (Z.ltb_spec (a + b) C).
  - apply Z.mod_small. lia.
  - transitivity ((a + b - C + 1 * C) mod C); [f_equal; lia|].
    rewrite Z.mod_add by lia. apply Z.mod_small. lia.
Qed.

Lemma lastn_short {A} n (l : list A) :
  Z.of_nat (length l) <= n -> lastn n l = l.
Proof. intros Hl. unfold lastn. replace (_ - _)%nat with O by lia. done. Qed.

Lemma lastn_full_snoc {A} n (l : list A) x :
  0 < n -> Z.of_nat (length l) = n -> lastn n (l ++ [x]) = drop 1 l ++ [x].
Proof.
  intros Hn Hl. unfold lastn. rewrite length_app. simpl.
  replace (_ - _)%nat with 1%nat by lia.
  destruct l; [simpl in *; lia|done].
Qed.

Lemma lastn_length {A} n (l : list A) :
  0 <= n -> Z.of_nat (length (lastn n l)) = Z.min n (Z.of_nat (length l)).
Proof. intros Hn. unfold lastn. rewrite length_drop. lia. Qed.

Lemma lastn_snoc_lastn {A} n (l : list A) x :
  0 < n -> lastn n (lastn n l ++ [x]) = lastn n (l ++ [x]).
Proof.
  intros Hn. destruct (Z.le_gt_cases (Z.of_nat (length l)) n) as [Hle|Hgt].
  - by rewrite (lastn_short n l).
  - rewrite lastn_full_snoc by (rewrite ?lastn_length; lia).
    unfold lastn. rewrite length_app. simpl.
    rewrite drop_app_le by lia. rewrite drop_drop. do 2 f_equal. lia.
Qed.

Section RingFacts.
Import RingStore.
Context {T : Type}.
Variable C : Z.
Variable d : T.
Hypothesis C_pos : 0 < C.

Lemma held_length (r : t T) :
  0 <= count r -> Z.of_nat (length (held C d r)) = count r.
Proof. intros Hc. unfold held. rewrite length_fmap, length_seqZ. lia. Qed.

Lemma append_inv x (r : t T) : inv C r -> inv C (append C x r).
Proof.
  intros (Hlen & Hc & Ho & Hw & H0 & Hpos). unfold append.
  destruct (Z.eqb_spec (count r) 0) as [Hz|Hnz].
  - unfold inv. simpl. rewrite arr_set_length.
    split_and!; try lia. intros _. rewrite Z.mod_small; lia.
  - specialize (Hpos ltac:(lia)).
    replace (oldestIndex r + count r - 1)
      with (oldestIndex r + (count r - 1)) in Hpos by lia.
    rewrite (add_mod_cases C (oldestIndex r) (count r - 1)) in Hpos by lia.
    pose proof (add_mod_cases C (newestIndex r) 1 ltac:(lia) ltac:(lia)) as Hw1.
    pose proof (add_mod_cases C (oldestIndex r) 1 ltac:(lia) ltac:(lia)) as Ho1.
    destruct (Z.eqb_spec (count r) C) as [Hfull|Hnf];
      unfold inv; simpl; rewrite arr_set_length.
    + rewrite Hw1, Ho1.
      replace ((if oldestIndex r + 1 <? C then oldestIndex r + 1
                else oldestIndex r + 1 - C) + count r - 1)
        with ((if oldestIndex r + 1 <? C then oldestIndex r + 1
                else oldestIndex r + 1 - C) + (count r - 1)) by lia.
      rewrite add_mod_cases by (destruct (Z.ltb_spec (oldestIndex r + 1) C); lia).
      destruct (Z.ltb_spec (oldestIndex r + (count r - 1)) C),
               (Z.ltb_spec (newestIndex r + 1) C),
               (Z.ltb_spec (oldestIndex r + 1) C);
        split_and!; try lia; intros _;
        match goal with |- context [if ?b then _ else _] =>
          destruct b eqn:Hb; [apply Z.ltb_lt in Hb|apply Z.ltb_ge in Hb] end;
        lia.
    + rewrite Hw1.
      replace (oldestIndex r + (count r + 1) - 1)
        with (oldestIndex r + count r) by lia.
      rewrite (add_mod_cases C (oldestIndex r) (count r)) by lia.
      destruct (Z.ltb_spec (oldestIndex r + (count r - 1)) C),
               (Z.ltb_spec (newestIndex r + 1) C),
               (Z.ltb_spec (oldestIndex r + count r) C);
        split_and!; lia.
Qed.
Lemma idx_range o k : 0 <= (o + k) mod C < C.
Proof. apply Z.mod_pos_bound. lia. Qed.

Lemma idx_inj o j k :
  0 <= o < C -> 0 <= j < C -> 0 <= k < C ->
  (o + j) mod C = (o + k) mod C -> j = k.
Proof.
  intros Ho Hj Hk. rewrite !add_mod_cases by lia.
  destruct (Z.ltb_spec (o + j) C), (Z.ltb_spec (o + k) C); lia.
Qed.

Lemma idx_full o : 0 <= o < C -> (o + C) mod C = o.
Proof.
  intros Ho. rewrite add_mod_cases by lia.
  destruct (Z.ltb_spec (o + C) C); lia.
Qed.

Lemma slot_at_eq (r : t T) sl w x :
  slots r = arr_set sl w x -> 0 <= w < Z.of_nat (length sl) ->
  slot_at d r w = x.
Proof. intros Hs Hw. unfold slot_at. by rewrite Hs, arr_get_set_eq. Qed.

Lemma slot_at_ne (r r0 : t T) w x i :
  slots r = arr_set (slots r0) w x -> i <> w ->
  slot_at d r i = slot_at d r0 i.
Proof.
  intros Hs Hi. unfold slot_at. by rewrite Hs, arr_get_set_ne.
Qed.

Lemma newest_next (r : t T) :
  inv C r -> 0 < count r ->
  (newestIndex r + 1) mod C = (oldestIndex r + count r) mod C.
Proof.
  intros (_ & _ & _ & _ & _ & Hpos) Hc. rewrite (Hpos Hc).
  rewrite Zplus_mod_idemp_l. f_equal. lia.
Qed.

(** One [append]: the item joins the held items as the newest, and the
    oldest leaves when the ring was full. *)
Lemma held_append x (r : t T) :
  inv C r -> held C d (append C x r) = lastn C (held C d r ++ [x]).
Proof.
  intros Hinv.
  pose proof Hinv as (Hlen & Hc & Ho & Hw & H0 & Hpos).
  unfold append.
  destruct (Z.eqb_spec (count r) 0) as [Hz|Hnz].
  - rewrite lastn_short
      by (rewrite length_app, Nat2Z.inj_add, held_length; simpl; lia).
    unfold held. simpl. rewrite Hz. simpl. f_equal.
    rewrite Z.mod_small by lia.
    eapply slot_at_eq; [done|lia].
  - pose proof (newest_next r Hinv ltac:(lia)) as Hnext.
    destruct (Z.eqb_spec (count r) C) as [Hfull|Hnf].
    + rewrite lastn_full_snoc by (rewrite ?held_length; lia).
      rewrite Hfull, idx_full in Hnext by lia.
      unfold held. simpl. rewrite Hnext, Hfull.
      assert (Hsnoc : seqZ 0 C = seqZ 0 (C - 1) ++ [C - 1]).
      { replace C with ((C - 1) + 1) at 1 by lia.
        by rewrite (seqZ_app 0 (C - 1) 1) by lia. }
      assert (Hcons : seqZ 0 C = 0 :: seqZ 1 (C - 1)).
      { rewrite (seqZ_cons 0 C) by lia. f_equal; f_equal; lia. }
      rewrite Hcons at 2. rewrite Hsnoc.
      rewrite !fmap_app. simpl drop. f_equal.
      * rewrite <- (fmap_add_seqZ 1 0), <- list_fmap_compose.
        apply list_fmap_ext. intros i k Hk. apply lookup_seqZ in Hk as [-> Hk].
        simpl. rewrite Zplus_mod_idemp_l.
        rewrite <- Z.add_assoc.
        eapply slot_at_ne; [done|].
        intros Heq.
        rewrite <- (Z.mod_small (oldestIndex r) C) in Heq at 2 by lia.
        rewrite <- (Z.add_0_r (oldestIndex r)) in Heq at 2.
        apply idx_inj in Heq; lia.
      * simpl. f_equal. rewrite Zplus_mod_idemp_l.
        replace (oldestIndex r + 1 + (C - 1))
          with (oldestIndex r + C) by lia.
        rewrite idx_full by lia. eapply slot_at_eq; [done|lia].
    + rewrite lastn_short
        by (rewrite length_app, Nat2Z.inj_add, held_length; simpl; lia).
      unfold held. simpl. rewrite Hnext.
      rewrite (seqZ_app 0 (count r) 1) by lia.
      rewrite fmap_app. f_equal.
      * apply list_fmap_ext. intros i k Hk. apply lookup_seqZ in Hk as [-> Hk].
        eapply slot_at_ne; [done|].
        intros Heq. apply idx_inj in Heq; lia.
      * simpl. f_equal. eapply slot_at_eq; [done|].
        rewrite Hlen. apply idx_range.
Qed.

(** A sequence of [append]s. *)
Lemma held_appends xs : forall (r : t T),
  inv C r ->
  let r' := foldl (fun r x => append C x r) r xs in
  inv C r' /\
  held C d r' = lastn C (held C d r ++ xs) /\
  count r' = Z.min (count r + Z.of_nat (length xs)) C.
Proof.
  induction xs as [|x xs IH] using rev_ind; intros r Hinv; simpl.
  - rewrite app_nil_r, lastn_short by (rewrite held_length; destruct Hinv; lia).
    destruct Hinv as (? & ? & ?). split_and!; try done; lia.
  - rewrite foldl_snoc. destruct (IH r Hinv) as (Hinv' & Hheld & Hcount).
    simpl in Hinv', Hheld, Hcount.
    set (r1 := foldl (fun r x => append C x r) r xs) in *.
    split_and!.
    + by apply append_inv.
    + rewrite held_append, Hheld by done.
      rewrite app_assoc. by apply lastn_snoc_lastn.
    + rewrite length_app, Nat2Z.inj_add. simpl length. unfold append.
      destruct Hinv' as (_ & Hc' & _). destruct Hinv as (_ & Hc & _).
      destruct (Z.eqb_spec (count r1) 0); [simpl; lia|].
      destruct (Z.eqb_spec (count r1) C); simpl; lia.
Qed.
End RingFacts.

(** ** The two rings of the program *)

Ltac zcases :=
  repeat match goal with
    | |- context [Z.geb ?a ?b] => rewrite (Z.geb_leb a b)
    | |- context [Z.gtb ?a ?b] => rewrite (Z.gtb_ltb a b)
    | |- context [Z.ltb ?a ?b] => destruct (Z.ltb_spec a b)
    | |- context [Z.leb ?a ?b] => destruct (Z.leb_spec a b)
    | |- context [Z.eqb ?a ?b] => destruct (Z.eqb_spec a b)
    end.

Lemma to_size_t_id z : 0 <= z < 4294967296 -> to_size_t z = z.
Proof. intros Hz. unfold to_size_t. apply Z.mod_small. lia. Qed.

Lemma NUM_EEPROM_CALLS_eq : NUM_EEPROM_CALLS = 74.
Proof. reflexivity. Qed.

(** [add_call] is the [append] of the specification on the ring of
    capacity [MAX_CALLS]. *)
Lemma add_call_append p s :
  store_inv s ->
  store_ring (add_call p s)
  = RingStore.append MAX_CALLS (call_of p) (store_ring s).
Proof.
  intros (Hlen & Hc & Ho & Hw & H0 & Hpos).
  unfold store_ring, add_call, RingStore.append, call_of, MAX_CALLS in *.
  simpl in *.
  destruct (Z.eqb_spec (num_calls s) 0) as [Hz|Hnz].
  - destruct (H0 Hz) as [-> ->]. done.
  - rewrite !to_short_id by lia.
    rewrite (add_mod_cases 200 (newest s) 1), (add_mod_cases 200 (oldest s) 1)
      by lia.
    zcases; try lia; simpl; repeat f_equal; lia.
Qed.

(** [eeprom_add_call] is the [append] of the specification on the ring of
    capacity [NUM_EEPROM_CALLS]; the item is the newest call in memory. *)
Lemma eeprom_add_call_append s m :
  archive_inv m ->
  archive_ring (eeprom_add_call s m)
  = RingStore.append NUM_EEPROM_CALLS (calls_at s (newest s)) (archive_ring m).
Proof.
  intros (Hlen & Hc & Ho & Hw & H0 & Hpos).
  unfold archive_ring, eeprom_add_call, RingStore.append in *.
  rewrite NUM_EEPROM_CALLS_eq in *. simpl in *.
  destruct (Z.eqb_spec (hdr_num_calls (eeprom_hdr m)) 0) as [Hz|Hnz].
  - destruct (H0 Hz) as [-> ->]. done.
  - rewrite !to_short_id by lia. rewrite !to_size_t_id by lia.
    rewrite (add_mod_cases 74 (hdr_newest (eeprom_hdr m)) 1),
            (add_mod_cases 74 (hdr_oldest (eeprom_hdr m)) 1) by lia.
    zcases; try lia; simpl; repeat f_equal; lia.
Qed.

Lemma show_newest_call_ring s : store_ring (show_newest_call s) = store_ring s.
Proof. unfold show_newest_call. by destruct (num_calls s >? 0). Qed.

Lemma add_call_inv p s : store_inv s -> store_inv (add_call p s).
Proof.
  intros Hinv. unfold store_inv. rewrite add_call_append by done.
  by apply append_inv.
Qed.

Lemma eeprom_add_call_inv s m : archive_inv m -> archive_inv (eeprom_add_call s m).
Proof.
  intros Hinv. unfold archive_inv. rewrite eeprom_add_call_append by done.
  by apply append_inv.
Qed.

(** After [add_call] the newest call in memory is the one just parsed. *)
Lemma add_call_newest p s :
  store_inv s -> calls_at (add_call p s) (newest (add_call p s)) = call_of p.
Proof.
  intros Hinv. pose proof (add_call_inv p s Hinv) as (Hlen & _ & _ & Hw & _).
  unfold calls_at. simpl in Hlen, Hw.
  replace (calls (add_call p s))
    with (arr_set (calls s) (newest (add_call p s)) (call_of p)) in *.
  - rewrite arr_set_length in Hlen. rewrite arr_get_set_eq; [done|lia].
  - unfold add_call.
    by destruct (if num_calls s =? 0 then _ else _) as [[n o] w].
Qed.

Lemma start_calls_rings ps : forall s m,
  store_inv s -> archive_inv m ->
  let sm := foldl start_call (s, m) ps in
  store_ring sm.1
  = foldl (fun r x => RingStore.append MAX_CALLS x r) (store_ring s)
          (call_of <$> ps) /\
  archive_ring sm.2
  = foldl (fun r x => RingStore.append NUM_EEPROM_CALLS x r) (archive_ring m)
          (call_of <$> ps) /\
  store_inv sm.1 /\ archive_inv sm.2.
Proof.
  induction ps as [|p ps IH] using rev_ind; intros s m Hs Hm; simpl.
  - done.
  - rewrite fmap_app, !foldl_snoc. simpl.
    destruct (IH s m Hs Hm) as (Hsr & Hmr & Hs' & Hm'). simpl in *.
    set (sm := foldl start_call (s, m) ps) in *.
    rewrite !foldl_snoc.
    rewrite show_newest_call_ring, add_call_append by done.
    rewrite eeprom_add_call_append, add_call_newest by done.
    rewrite Hsr, Hmr. split_and!; try done.
    + unfold store_inv. rewrite show_newest_call_ring. by apply add_call_inv.
    + by apply eeprom_add_call_inv.
Qed.

(** C1: both rings of the program follow the index update of the
    specification at every append ([add_call] on the call list of capacity
    200, [eeprom_add_call] on the archive), and after any sequence of
    "start call" packets the count is at most the capacity and the ring
    holds, in arrival order, the last C of the items it held before
    followed by the new ones: from an empty ring, after C+k appends,
    exactly the last C items. *)
Theorem ring_appends (ps : list parser) (s : store) (m : nvm) :
  store_inv s -> archive_inv m ->
  let sm := foldl start_call (s, m) ps in
  (forall p, store_ring (add_call p s)
             = RingStore.append MAX_CALLS (call_of p) (store_ring s)) /\
  archive_ring (eeprom_add_call s m)
  = RingStore.append NUM_EEPROM_CALLS (calls_at s (newest s)) (archive_ring m) /\
  num_calls sm.1 = Z.min (num_calls s + Z.of_nat (length ps)) MAX_CALLS /\
  num_calls sm.1 <= MAX_CALLS /\
  store_held sm.1 = lastn MAX_CALLS (store_held s ++ (call_of <$> ps)) /\
  hdr_num_calls (eeprom_hdr sm.2)
  = Z.min (hdr_num_calls (eeprom_hdr m) + Z.of_nat (length ps)) NUM_EEPROM_CALLS /\
  hdr_num_calls (eeprom_hdr sm.2) <= NUM_EEPROM_CALLS /\
  archive_held sm.2 = lastn NUM_EEPROM_CALLS (archive_held m ++ (call_of <$> ps)).
Proof.
  intros Hs Hm sm.
  destruct (start_calls_rings ps s m Hs Hm) as (Hsr & Hmr & Hs' & Hm').
  fold sm in Hsr, Hmr, Hs', Hm'.
  destruct (held_appends MAX_CALLS empty_record ltac:(done)
              (call_of <$> ps) (store_ring s) Hs) as (_ & Hh1 & Hc1).
  destruct (held_appends NUM_EEPROM_CALLS empty_record ltac:(done)
              (call_of <$> ps) (archive_ring m) Hm) as (_ & Hh2 & Hc2).
  simpl in Hh1, Hc1, Hh2, Hc2.
  rewrite <- Hsr in Hh1, Hc1. rewrite <- Hmr in Hh2, Hc2.
  rewrite length_fmap in Hc1, Hc2. simpl in Hc1, Hc2.
  split_and!.
  - intros p. by apply add_call_append.
  - by apply eeprom_add_call_append.
  - exact Hc1.
  - rewrite Hc1. lia.
  - exact Hh1.
  - exact Hc2.
  - rewrite Hc2. lia.
  - exact Hh2.
Qed.

Lemma init_store_inv : store_inv init_store.
Proof.
  unfold store_inv, RingStore.inv, init_store, store_ring, MAX_CALLS. simpl.
  split_and!; try done; lia.
Qed.

Lemma init_nvm_inv : archive_inv init_nvm.
Proof.
  unfold archive_inv, RingStore.inv, init_nvm, archive_ring. simpl.
  split_and!; try done; lia.
Qed.

Lemma ring_appends_witness :
  store_inv init_store /\ archive_inv init_nvm /\
  store_held two_calls.1
  = lastn MAX_CALLS
      (store_held init_store
       ++ (call_of <$> [parser_with_line "01"; parser_with_line "03"])).
Proof.
  split; [exact init_store_inv|]. split; [exact init_nvm_inv|].
  apply (ring_appends [parser_with_line "01"; parser_with_line "03"]
           init_store init_nvm init_store_inv init_nvm_inv).
Defined.

(** ** Updating the duration *)

Section UpdateDuration.
Variable s : store.
Variables seconds line : Z.
Hypothesis Hinv : store_inv s.

Let idx (e : Z) : Z := (oldest s + e) mod MAX_CALLS.

Lemma idx_in_calls e :
  exists r, arr_get (calls s) (idx e) = Some r /\ calls_at s (idx e) = r.
Proof.
  destruct Hinv as (Hlen & _). simpl in Hlen.
  destruct (arr_get_is_Some (calls s) (idx e)) as [r Hr].
  - rewrite Hlen. apply Z.mod_pos_bound. done.
  - exists r. split; [done|]. unfold calls_at. by rewrite Hr.
Qed.

Lemma idx_pred (n : nat) :
  Z.of_nat (S n) < MAX_CALLS ->
  (if to_short (idx (Z.of_nat (S n)) - 1) <? 0 then MAX_CALLS - 1
   else to_short (idx (Z.of_nat (S n)) - 1)) = idx (Z.of_nat n).
Proof.
  destruct Hinv as (_ & _ & Ho & _). simpl in Ho.
  intros Hn. unfold idx, MAX_CALLS in *.
  rewrite !add_mod_cases by lia.
  destruct (Z.ltb_spec (oldest s + Z.of_nat (S n)) 200),
           (Z.ltb_spec (oldest s + Z.of_nat n) 200);
    rewrite to_short_id by lia; zcases; lia.
Qed.

Lemma idx_oldest (n : nat) :
  Z.of_nat n < MAX_CALLS -> idx (Z.of_nat n) = oldest s -> n = 0%nat.
Proof.
  destruct Hinv as (_ & _ & Ho & _). simpl in Ho.
  intros Hn. unfold idx, MAX_CALLS in *.
  rewrite add_mod_cases by lia. zcases; lia.
Qed.

Lemma set_seconds_store ndx r :
  arr_get (calls s) ndx = Some r ->
  (let s1 := mkStore (arr_set (calls s) ndx (set_seconds seconds r))
               (num_calls s) (oldest s) (newest s)
               (displayed s) (displayed_age s) in
   if displayed s =? ndx then display_call ndx s1 else s1)
  = with_seconds s ndx seconds.
Proof.
  intros Hr. unfold with_seconds, display_call, calls_at. rewrite Hr. simpl.
  destruct (Z.eqb_spec (displayed s) ndx) as [->|]; simpl; [|done].
  done.
Qed.

(** The loop started [n] calls above the oldest one. *)
Lemma update_duration_loop_spec (n : nat) : forall fuel,
  (n < fuel)%nat -> Z.of_nat n < MAX_CALLS ->
  ((forall e, 0 <= e <= Z.of_nat n ->
      cr_phoneline (calls_at s (idx e)) <> line) ->
   update_duration_loop fuel seconds line s (idx (Z.of_nat n)) = Some s) /\
  (forall e, 0 <= e <= Z.of_nat n ->
     cr_phoneline (calls_at s (idx e)) = line ->
     (forall e', e < e' <= Z.of_nat n ->
        cr_phoneline (calls_at s (idx e')) <> line) ->
     update_duration_loop fuel seconds line s (idx (Z.of_nat n))
     = Some (with_seconds s (idx e) seconds)).
Proof.
  induction n as [|n IH]; intros fuel Hfuel Hn;
    (destruct fuel as [|fuel]; [lia|]); simpl update_duration_loop.
  - change (Z.of_nat 0) with 0 in *.
    destruct (idx_in_calls 0) as (r0 & Hr0 & Hc0).
    rewrite Hr0. split.
    + intros Hno. specialize (Hno 0 ltac:(lia)). rewrite Hc0 in Hno.
      destruct (Z.eqb_spec (cr_phoneline r0) line); [done|].
      replace (idx 0 =? oldest s) with true; [done|].
      symmetry. apply Z.eqb_eq. unfold idx. rewrite Z.add_0_r.
      destruct Hinv as (_ & _ & Ho & _). apply Z.mod_small. exact Ho.
    + intros e He Hm _. assert (e = 0) as -> by lia.
      rewrite Hc0 in Hm.
      destruct (Z.eqb_spec (cr_phoneline r0) line); [|done].
      f_equal. by apply set_seconds_store.
  - destruct (idx_in_calls (Z.of_nat (S n))) as (r & Hr & Hc).
    rewrite Hr. destruct (IH fuel ltac:(lia) ltac:(lia)) as [IHno IHyes].
    destruct (Z.eqb_spec (cr_phoneline r) line) as [Hl|Hl].
    + split.
      * intros Hno. specialize (Hno (Z.of_nat (S n)) ltac:(lia)).
        by rewrite Hc in Hno.
      * intros e He Hm Hlater.
        assert (e = Z.of_nat (S n)) as ->.
        { destruct (Z.eq_dec e (Z.of_nat (S n))) as [|Hne]; [done|].
          specialize (Hlater (Z.of_nat (S n)) ltac:(lia)).
          by rewrite Hc in Hlater. }
        f_equal. by apply set_seconds_store.
    + destruct (Z.eqb_spec (idx (Z.of_nat (S n))) (oldest s)) as [Ho|_].
      { apply idx_oldest in Ho; [lia|done]. }
      rewrite idx_pred by done. split.
      * intros Hno. apply IHno. intros e He. apply Hno. lia.
      * intros e He Hm Hlater.
        assert (e <> Z.of_nat (S n)) by (intros ->; by rewrite Hc in Hm).
        apply IHyes; [lia|done|]. intros e' He'. apply Hlater. lia.
Qed.
(** Under the ring invariant the loop returns. *)
Lemma update_duration_loop_total (n : nat) : forall fuel,
  (n < fuel)%nat -> Z.of_nat n < MAX_CALLS ->
  exists s', update_duration_loop fuel seconds line s (idx (Z.of_nat n))
             = Some s' /\
             (s' = s \/ exists i, s' = with_seconds s i seconds).
Proof.
  induction n as [|n IH]; intros fuel Hfuel Hn;
    (destruct fuel as [|fuel]; [lia|]); simpl update_duration_loop.
  - change (Z.of_nat 0) with 0 in *.
    destruct (idx_in_calls 0) as (r0 & Hr0 & Hc0). rewrite Hr0.
    destruct (Z.eqb_spec (cr_phoneline r0) line).
    + eexists. split; [done|]. right. exists (idx 0).
      by apply set_seconds_store.
    + replace (idx 0 =? oldest s) with true; [eauto|].
      symmetry. apply Z.eqb_eq. unfold idx. rewrite Z.add_0_r.
      destruct Hinv as (_ & _ & Ho & _). apply Z.mod_small. exact Ho.
  - destruct (idx_in_calls (Z.of_nat (S n))) as (r & Hr & Hc). rewrite Hr.
    destruct (Z.eqb_spec (cr_phoneline r) line).
    + eexists. split; [done|]. right. exists (idx (Z.of_nat (S n))).
      by apply set_seconds_store.
    + destruct (Z.eqb_spec (idx (Z.of_nat (S n))) (oldest s)); [eauto|].
      rewrite idx_pred by done. apply IH; lia.
Qed.
End UpdateDuration.

Lemma back_from_newest_idx s k :
  store_inv s -> 0 < num_calls s ->
  back_from_newest s k = (oldest s + (num_calls s - 1 - k)) mod MAX_CALLS.
Proof.
  intros (_ & _ & _ & _ & _ & Hpos) Hc. simpl in Hpos.
  unfold back_from_newest. rewrite (Hpos Hc).
  rewrite Zminus_mod_idemp_l. f_equal. lia.
Qed.

(** What storing a duration in [calls[i]] changes, field by field. *)
Lemma with_seconds_fields s i seconds :
  0 <= i < Z.of_nat (length (calls s)) ->
  let s' := with_seconds s i seconds in
  cr_seconds (calls_at s' i) = seconds /\
  cr_phoneline (calls_at s' i) = cr_phoneline (calls_at s i) /\
  cr_datetime (calls_at s' i) = cr_datetime (calls_at s i) /\
  cr_phonenum (calls_at s' i) = cr_phonenum (calls_at s i) /\
  cr_callername (calls_at s' i) = cr_callername (calls_at s i) /\
  (forall j, j <> i -> calls_at s' j = calls_at s j) /\
  length (calls s') = length (calls s).
Proof.
  intros Hi. simpl.
  assert (Hat : calls_at (with_seconds s i seconds) i
                = set_seconds seconds (calls_at s i)).
  { unfold with_seconds, calls_at at 1. simpl.
    by rewrite arr_get_set_eq. }
  rewrite Hat. simpl. repeat split.
  - intros j Hj. unfold with_seconds, calls_at. simpl.
    by rewrite arr_get_set_ne.
  - apply arr_set_length.
Qed.

Lemma back_from_newest_range s k :
  0 <= back_from_newest s k < MAX_CALLS.
Proof. unfold back_from_newest, MAX_CALLS. apply Z.mod_pos_bound. lia. Qed.

(** C2: in a call list that holds at least one call, [update_duration]
    for an "end call" whose duration reads as [v] returns, and the record
    it changes is the one nearest to the newest (the least number [k] of
    steps back) among the held calls on the line of the event: in the
    resulting list that record has [v] (as a short int) as its seconds
    and its line, date, number and name as before, every other record of
    [calls] is as before, and so are the count, the oldest and the newest
    index and the displayed index; the age on display is reset to 1 only
    when that record is both the displayed and the newest one.  The scan
    looks at held calls only: when no held call is on that line the state
    is unchanged, whatever the slots outside the ring contain. *)
Theorem update_duration_nearest (p : parser) (s : store) (v : Z) :
  store_inv s -> 0 < num_calls s -> sscanf_d (duration p) = Some v ->
  (forall k, 0 <= k < num_calls s ->
     cr_phoneline (calls_at s (back_from_newest s k)) = parse_phoneline p ->
     (forall j, 0 <= j < k ->
        cr_phoneline (calls_at s (back_from_newest s j)) <> parse_phoneline p) ->
     exists s', update_duration p s = Some s' /\
       cr_seconds (calls_at s' (back_from_newest s k)) = to_short v /\
       cr_phoneline (calls_at s' (back_from_newest s k)) = parse_phoneline p /\
       cr_datetime (calls_at s' (back_from_newest s k))
       = cr_datetime (calls_at s (back_from_newest s k)) /\
       cr_phonenum (calls_at s' (back_from_newest s k))
       = cr_phonenum (calls_at s (back_from_newest s k)) /\
       cr_callername (calls_at s' (back_from_newest s k))
       = cr_callername (calls_at s (back_from_newest s k)) /\
       (forall i, i <> back_from_newest s k -> calls_at s' i = calls_at s i) /\
       length (calls s') = length (calls s) /\
       num_calls s' = num_calls s /\ oldest s' = oldest s /\
       newest s' = newest s /\ displayed s' = displayed s /\
       displayed_age s'
       = (if (displayed s =? newest s) && (k =? 0) then 1
          else displayed_age s)) /\
  ((forall k, 0 <= k < num_calls s ->
      cr_phoneline (calls_at s (back_from_newest s k)) <> parse_phoneline p) ->
   update_duration p s = Some s).
Proof.
  intros Hinv Hc Hv. unfold update_duration. rewrite Hv.
  destruct (Z.gtb_spec (num_calls s) 0) as [_|]; [|lia].
  pose proof Hinv as (Hlen & Hcnt & Hold & Hnw & _).
  simpl in Hlen, Hcnt, Hold, Hnw.
  destruct (update_duration_loop_spec s (to_short v) (parse_phoneline p) Hinv
              (Z.to_nat (num_calls s - 1)) (Z.to_nat MAX_CALLS))
    as [Hno Hyes]; [unfold MAX_CALLS in *; lia..|].
  rewrite Z2Nat.id in * by lia.
  assert (Hnew : (oldest s + (num_calls s - 1)) mod MAX_CALLS = newest s).
  { pose proof (back_from_newest_idx s 0 Hinv Hc) as H0.
    rewrite Z.sub_0_r in H0. rewrite <- H0.
    unfold back_from_newest. rewrite Z.sub_0_r.
    apply Z.mod_small. exact Hnw. }
  rewrite Hnew in *.
  split.
  - intros k Hk Hm Hbefore.
    pose proof (back_from_newest_range s k) as Hrange.
    assert (Hage : (back_from_newest s k =? newest s) = (k =? 0)).
    { unfold back_from_newest, MAX_CALLS in *.
      destruct (Z.eqb_spec k 0) as [->|Hk0].
      - rewrite Z.sub_0_r, Z.mod_small by done. apply Z.eqb_refl.
      - apply Z.eqb_neq. intros Heq. revert Heq.
        Z.div_mod_to_equations. lia. }
    exists (with_seconds s (back_from_newest s k) (to_short v)). split.
    + rewrite back_from_newest_idx in * by done.
      apply Hyes; [lia|done|].
      intros e' He'. specialize (Hbefore (num_calls s - 1 - e') ltac:(lia)).
      rewrite back_from_newest_idx in Hbefore by done.
      by replace (num_calls s - 1 - (num_calls s - 1 - e')) with e'
        in Hbefore by lia.
    + destruct (with_seconds_fields s (back_from_newest s k) (to_short v))
        as (F1 & F2 & F3 & F4 & F5 & F6 & F7); [lia|].
      rewrite F2. split_and!; try done. simpl. rewrite <- Hage.
      destruct (Z.eqb_spec (displayed s) (back_from_newest s k)),
               (Z.eqb_spec (back_from_newest s k) (newest s)),
               (Z.eqb_spec (displayed s) (newest s));
        simpl; congruence.
  - intros Hnone. apply Hno. intros e He.
    specialize (Hnone (num_calls s - 1 - e) ltac:(lia)).
    rewrite back_from_newest_idx in Hnone by done.
    by replace (num_calls s - 1 - (num_calls s - 1 - e)) with e in Hnone by lia.
Qed.

Lemma two_calls_inv : store_inv two_calls.1.
Proof.
  unfold store_inv, RingStore.inv, MAX_CALLS. vm_compute.
  split_and!; try done; intros; discriminate.
Qed.

(** The end of the call on line 1, with the newer call on line 3 in
    between: one step back from the newest, and the 123 seconds are in
    that record. *)
Lemma update_duration_nearest_witness :
  store_inv two_calls.1 /\ 0 < num_calls two_calls.1 /\
  sscanf_d (duration (parser_with_line_duration "01" "0123")) = Some 123 /\
  exists s', update_duration (parser_with_line_duration "01" "0123")
               two_calls.1 = Some s' /\
    cr_seconds (calls_at s' (back_from_newest two_calls.1 1)) = to_short 123.
Proof.
  split; [exact two_calls_inv|]. split; [reflexivity|]. split; [reflexivity|].
  destruct (proj1 (update_duration_nearest
                     (parser_with_line_duration "01" "0123") two_calls.1 123
                     two_calls_inv eq_refl eq_refl) 1) as (s' & Hs' & Hsec & _).
  - vm_compute. split; [discriminate|reflexivity].
  - reflexivity.
  - intros j Hj. assert (j = 0) as -> by lia. vm_compute. discriminate.
  - exists s'. split; [exact Hs' | exact Hsec].
Defined.

(** ** The conditions of the decoder *)

Lemma pkt_at_ext p q i : packet p = packet q -> pkt_at p i = pkt_at q i.
Proof. intros H. unfold pkt_at. by rewrite H. Qed.

Lemma set_pktptr_spec i p :
  packet (set_pktptr i p) = packet p /\ pktlen (set_pktptr i p) = pktlen p /\
  pktptr (set_pktptr i p) = i /\ reads (set_pktptr i p) = reads p /\
  forall f, get_field f (set_pktptr i p) = get_field f p.
Proof. destruct p. simpl. split_and!; done. Qed.

Lemma match_loop_spec literal : forall startptr p,
  let r := match_loop literal startptr p in
  packet r.2 = packet p /\ pktlen r.2 = pktlen p /\
  (forall f, get_field f r.2 = get_field f p) /\
  (r.1 = true ->
   pktptr r.2 = pktptr p + Z.of_nat (length literal) /\
   forall (i : nat) c, literal !! i = Some c ->
                       pkt_at p (pktptr p + Z.of_nat i) = c) /\
  (r.1 = false -> pktptr r.2 = startptr).
Proof.
  induction literal as [|c literal IH]; intros startptr p; simpl.
  - split_and!; try done; try lia. intros _. split; [lia|].
    intros i c. by rewrite lookup_nil.
  - destruct (next_byte p) as [b p1] eqn:Hnb.
    destruct (next_byte_spec p) as (Hb & Hpk & Hpp & Hpl & _ & Hf).
    rewrite Hnb in *. simpl in *. subst b.
    destruct (Ascii.eqb_spec c (pkt_at p (pktptr p))) as [Heq|Hne]; simpl.
    + destruct (IH startptr p1) as (Hpk' & Hpl' & Hf' & Ht & Hfl).
      rewrite Hpk', Hpl'. split_and!; try done.
      * intros f. by rewrite Hf'.
      * intros Hr. destruct (Ht Hr) as [Hptr Hch]. split; [lia|].
        intros [|i] c' Hc'; simpl in Hc'.
        -- simplify_eq. by rewrite Z.add_0_r.
        -- rewrite <- (Hch i c' Hc'). rewrite (pkt_at_ext p1 p) by done.
           f_equal. lia.
    + destruct (set_pktptr_spec startptr p1) as (Spk & Spl & Spp & _ & Sf).
      rewrite Spk, Spl. split_and!; try done.
      intros f. by rewrite Sf.
Qed.

Lemma match_true literal p p' :
  match_ literal p = (true, p') ->
  packet p' = packet p /\ pktlen p' = pktlen p /\
  pktptr p' = pktptr p + Z.of_nat (String.length literal) /\
  forall (i : nat) c, list_ascii_of_string literal !! i = Some c ->
                      pkt_at p (pktptr p + Z.of_nat i) = c.
Proof.
  unfold match_. intros H.
  destruct (match_loop_spec (list_ascii_of_string literal) (pktptr p) p)
    as (Hpk & Hpl & _ & Ht & _).
  rewrite H in *. simpl in *. destruct (Ht eq_refl) as [Hptr Hch].
  split_and!; try done.
  rewrite Hptr. f_equal. f_equal.
  clear. induction literal; simpl; [done|]. by f_equal.
Qed.

Lemma copy_step dst len p :
  0 <= len -> pktptr p + len <= pktlen p ->
  exists p', copy dst len p = (true, p') /\
             packet p' = packet p /\ pktlen p' = pktlen p /\
             pktptr p' = pktptr p + len.
Proof.
  intros Hlen Hfit. unfold copy.
  destruct (copy_loop (Z.to_nat len) p []) as [out p1] eqn:Hcl.
  destruct (copy_loop_spec (Z.to_nat len) p [])
    as (_ & Hpk & Hpl & _ & _ & Hex & _).
  rewrite Hcl in *. simpl in *.
  eexists. split; [done|].
  destruct (set_field_frame dst (store_prefix out (get_field dst p1)) p1)
    as (Fpk & Fpp & Fpl & _).
  rewrite Fpk, Fpp, Fpl, Hex by lia. split_and!; try done. lia.
Qed.

Lemma c_or_false (a b : cond) p p' :
  (a ||> b) p = (false, p') ->
  exists p1, a p = (false, p1) /\ b p1 = (false, p').
Proof.
  unfold c_or. destruct (a p) as [[] p1]; [discriminate|]. eauto.
Qed.

Lemma c_not_false (a : cond) p p' :
  c_not a p = (false, p') -> a p = (true, p').
Proof.
  unfold c_not. destruct (a p) as [[] p1]; [|discriminate].
  by intros [= ->].
Qed.

Lemma c_test_false f p p' :
  c_test f p = (false, p') -> f p = false /\ p' = p.
Proof. unfold c_test. by intros [= -> ->]. Qed.

(** The preamble ends with a space at offset 23: without it the packet is
    a bad packet of type 1. *)
Lemma bad_preamble_no_space p :
  pktptr p = 0 -> pkt_at p 23 <> " "%char -> (decode p).1 = BadPacket 1.
Proof.
  intros Hpp Hsp. unfold decode.
  destruct (bad_preamble p) as [[] p'] eqn:E; [done|]. exfalso.
  unfold bad_preamble in E.
  apply c_or_false in E as (p7 & E & E7). apply c_not_false in E7.
  apply c_or_false in E as (p6 & E & E6). apply c_not_false in E6.
  apply c_or_false in E as (p5 & E & E5). apply c_not_false in E5.
  apply c_or_false in E as (p4 & E & E4). apply c_not_false in E4.
  apply c_or_false in E as (p3 & E & E3). apply c_not_false in E3.
  apply c_or_false in E as (p2 & E & E2). apply c_not_false in E2.
  apply c_or_false in E as (p1 & E & E1). apply c_not_false in E1.
  apply c_test_false in E as [Hlen ->]. apply Z.ltb_ge in Hlen.
  apply match_true in E1 as (K1 & L1 & P1 & _). simpl in P1.
  destruct (copy_step f_unitnum 6 p2) as (q2 & Hq & K2 & L2 & P2); [lia..|].
  rewrite Hq in E2. injection E2 as Heq. subst q2.
  apply match_true in E3 as (K3 & L3 & P3 & _). simpl in P3.
  destruct (copy_step f_serialnum 6 p4) as (q4 & Hq' & K4 & L4 & P4); [lia..|].
  rewrite Hq' in E4. injection E4 as Heq. subst q4.
  apply match_true in E5 as (K5 & L5 & P5 & _). simpl in P5.
  destruct (copy_step f_phoneline 2 p6) as (q6 & Hq'' & K6 & L6 & P6); [lia..|].
  rewrite Hq'' in E6. injection E6 as Heq. subst q6.
  apply match_true in E7 as (_ & _ & _ & C7).
  specialize (C7 0%nat " "%char eq_refl).
  apply Hsp. rewrite <- C7.
  rewrite (pkt_at_ext p7 p) by congruence.
  f_equal. lia.
Qed.

(** ** Decoding a "start call" packet *)

Ltac explode l H :=
  repeat (destruct l as [|? l]; simpl in H;
          [try discriminate H | try discriminate H; injection H as H]).

Ltac explode_le l H :=
  repeat (destruct l as [|? l]; simpl in H;
          [try (exfalso; lia) | try (exfalso; lia)]).

(** C3: a packet built after the "start call" grammar, 70 to 83 bytes
    long (the caller name, the last field, may stop short of its 15
    bytes), takes the "start call" branch, and the line, date and time,
    phone number and caller name buffers then hold the bytes put into the
    packet (the name filled up with NULs), in front of their terminating
    NUL, which is not touched; with any one of its first 24 bytes (the
    preamble) deleted, the packet is a bad packet of type 1. *)
Theorem call_start_roundtrip
    (unit serial line dur : list ascii) (good : bool) (sub : ascii)
    (dt ph nm : list ascii) (p0 : parser) :
  length unit = 6%nat -> length serial = 6%nat -> length line = 2%nat ->
  length dur = 4%nat ->
  length dt = 15%nat -> length ph = 15%nat ->
  (2 <= length nm <= 15)%nat ->
  let pkt := call_start_packet unit serial line dur good sub dt ph nm in
  let r := decode (received_packet pkt p0) in
  (70 <= Z.of_nat (length pkt) <= 83 /\
   r.1 = StartCall /\
   phoneline r.2 = line ++ drop 2 (phoneline p0) /\
   datetime r.2 = dt ++ drop 15 (datetime p0) /\
   phonenum r.2 = ph ++ drop 15 (phonenum p0) /\
   callername r.2
   = nm ++ zeros (15 - length nm) ++ drop 15 (callername p0)) /\
  forall i : nat, (i < 24)%nat -> branch_of (delete i pkt) p0 = BadPacket 1.
Proof.
  intros Hu Hs Hl Hd Hdt Hph Hnm.
  explode unit Hu. explode serial Hs. explode line Hl. explode dur Hd.
  explode dt Hdt. explode ph Hph.
  destruct p0 as [pk pp pl un sn phl du aty dtm pn cn rd].
  explode_le nm Hnm.
  all: split;
    [ destruct good; vm_compute; split_and!; (reflexivity || discriminate)
    | intros i Hi; unfold branch_of; apply bad_preamble_no_space;
      [ unfold received_packet, read_packet; by simpl
      | destruct good;
        do 24 (destruct i as [|i]; [vm_compute; discriminate|]); lia ] ].
Qed.

Lemma call_start_roundtrip_witness :
  length sample_unit = 6%nat /\
  (decode
     (received_packet
        (call_start_packet sample_unit sample_unit (list_ascii_of_string "01")
           (list_ascii_of_string "0000") true "0"%char
           (list_ascii_of_string "03/14 10:55 PM ")
           (list_ascii_of_string "111 111 1111   ")
           (list_ascii_of_string "Caller one")) init_parser)).1
  = StartCall.
Proof.
  split; [reflexivity|].
  refine (proj1 (proj2 (proj1 (call_start_roundtrip sample_unit sample_unit
           (list_ascii_of_string "01") (list_ascii_of_string "0000") true
           "0"%char (list_ascii_of_string "03/14 10:55 PM ")
           (list_ascii_of_string "111 111 1111   ")
           (list_ascii_of_string "Caller one") init_parser
           eq_refl eq_refl eq_refl eq_refl eq_refl eq_refl _)))).
  simpl. lia.
Defined.

(** ** The archive and the "end call" packets *)

Lemma with_seconds_inv s i seconds : store_inv s -> store_inv (with_seconds s i seconds).
Proof.
  unfold store_inv, RingStore.inv, with_seconds. simpl.
  by rewrite arr_set_length.
Qed.

Lemma show_newest_call_inv s : store_inv s -> store_inv (show_newest_call s).
Proof. unfold store_inv. by rewrite show_newest_call_ring. Qed.

(** [update_duration] returns, and keeps the ring invariant. *)
Lemma update_duration_total p s :
  store_inv s -> exists s', update_duration p s = Some s' /\ store_inv s'.
Proof.
  intros Hinv. unfold update_duration.
  destruct (sscanf_d (duration p)) as [v|]; [|eauto].
  destruct (Z.gtb_spec (num_calls s) 0) as [Hc|]; [|eauto].
  pose proof Hinv as (_ & Hcnt & _ & Hw & _ & Hpos). simpl in Hcnt, Hw, Hpos.
  destruct (update_duration_loop_total s (to_short v) (parse_phoneline p) Hinv
              (Z.to_nat (num_calls s - 1)) (Z.to_nat MAX_CALLS))
    as (s' & Hs' & Hcase); [unfold MAX_CALLS in *; lia..|].
  rewrite Z2Nat.id in Hs' by lia.
  replace (oldest s + (num_calls s - 1)) with (oldest s + num_calls s - 1)
    in Hs' by lia.
  rewrite <- Hpos in Hs' by lia.
  exists s'. split; [done|].
  destruct Hcase as [->|[i ->]]; [done|]. by apply with_seconds_inv.
Qed.

Lemma eeprom_add_call_effect s m :
  let m' := eeprom_add_call s m in
  ee_calls m' = arr_set (ee_calls m) (hdr_newest (eeprom_hdr m'))
                        (calls_at s (newest s)) /\
  ee_log m' = ee_log m ++ [WriteHeader; WriteRecord (hdr_newest (eeprom_hdr m'));
                           Commit] /\
  ee_hdr m' = eeprom_hdr m'.
Proof.
  unfold eeprom_add_call.
  by destruct (if hdr_num_calls (eeprom_hdr m) =? 0 then _ else _) as [[n o] w].
Qed.

Lemma decode_empty p : pktlen p < 52 -> (decode p).1 = BadPacket 1.
Proof.
  intros Hlen. unfold decode, bad_preamble, c_or, c_test.
  destruct (Z.ltb_spec (pktlen p) 52); [done|lia].
Qed.

Lemma start_parse_pktlen n p : pktlen (start_parse n p) = n.
Proof. by destruct p. Qed.

(** The calls held in the archive after [eeprom_add_call]. *)
Lemma eeprom_add_call_held s m :
  archive_inv m ->
  archive_held (eeprom_add_call s m)
  = lastn NUM_EEPROM_CALLS (archive_held m ++ [calls_at s (newest s)]).
Proof.
  intros Hinv. unfold archive_held.
  rewrite eeprom_add_call_append by done. by apply held_append.
Qed.

(** One packet from a state with sound rings. *)
Lemma loop_packet_total received st :
  store_inv (sto st) -> archive_inv (nv st) -> archive_zero (nv st) ->
  exists st', loop_packet received st = Some st' /\
              store_inv (sto st') /\ archive_inv (nv st') /\
              archive_zero (nv st').
Proof.
  intros Hinv Hainv Hz. unfold loop_packet.
  destruct (read_packet received (prs st)) as [n p0].
  destruct (n =? 0); [eauto 6|].
  destruct (decode (start_parse n p0)) as [br p].
  destruct br as [type| | |].
  - eauto 6.
  - eexists. split; [done|]. simpl. split; [|done].
    by apply show_newest_call_inv.
  - eexists. split; [done|]. simpl. split_and!.
    + by apply show_newest_call_inv, add_call_inv.
    + by apply eeprom_add_call_inv.
    + unfold archive_zero. rewrite eeprom_add_call_held by done.
      unfold lastn. apply Forall_drop, Forall_app. split; [done|].
      apply Forall_singleton. by rewrite add_call_newest.
  - destruct (update_duration_total p (sto st) Hinv) as (s' & Hs' & Hinv').
    rewrite Hs'. simpl. eauto 6.
Qed.

(** C5: a packet that does not take the "start call" branch, so every
    "end call" packet, leaves the non-volatile memory as it is: header,
    record slots and the log of writes and commits; a "start call" packet
    writes the header and one record slot and commits once, and the record
    written has no duration; hence, along any sequence of packets, no call
    held in the archive ever carries a duration. *)
Theorem archive_frame (pkts : list (list ascii)) (st : state) :
  store_inv (sto st) -> archive_inv (nv st) -> archive_zero (nv st) ->
  (forall received st',
     loop_packet received st = Some st' ->
     branch_of received (prs st) <> StartCall -> nv st' = nv st) /\
  (forall received st',
     loop_packet received st = Some st' ->
     branch_of received (prs st) = StartCall ->
     exists r, cr_seconds r = 0 /\
       ee_calls (nv st')
       = arr_set (ee_calls (nv st)) (hdr_newest (eeprom_hdr (nv st'))) r /\
       ee_log (nv st')
       = ee_log (nv st)
         ++ [WriteHeader; WriteRecord (hdr_newest (eeprom_hdr (nv st'))); Commit] /\
       ee_hdr (nv st') = eeprom_hdr (nv st')) /\
  exists st', run_packets pkts st = Some st' /\
              store_inv (sto st') /\ archive_inv (nv st') /\
              archive_zero (nv st').
Proof.
  intros Hinv Hainv Hz. split_and!.
  - intros received st'. unfold loop_packet, branch_of, received_packet.
    destruct (read_packet received (prs st)) as [n p0].
    destruct (n =? 0); [by intros [= <-]|].
    destruct (decode (start_parse n p0)) as [br p]. simpl.
    destruct br; try (by intros [= <-]).
    destruct (update_duration p (sto st)); simpl; [|done]. by intros [= <-].
  - intros received st'. unfold loop_packet, branch_of, received_packet.
    destruct (read_packet received (prs st)) as [n p0].
    destruct (Z.eqb_spec n 0) as [->|Hn].
    { intros _ Hbr. rewrite decode_empty in Hbr; [done|].
      by rewrite start_parse_pktlen. }
    destruct (decode (start_parse n p0)) as [br p]. simpl.
    intros Hst ->. injection Hst as <-. simpl.
    exists (calls_at (add_call p (sto st)) (newest (add_call p (sto st)))).
    split; [by rewrite add_call_newest|].
    apply eeprom_add_call_effect.
  - revert st Hinv Hainv Hz.
    induction pkts as [|pk pkts IH]; intros st Hinv Hainv Hz.
    + exists st. done.
    + destruct (loop_packet_total pk st Hinv Hainv Hz)
        as (st1 & Hst1 & Hinv1 & Hainv1 & Hz1).
      destruct (IH st1 Hinv1 Hainv1 Hz1) as (st' & Hrun & Hr).
      exists st'. split; [|done].
      unfold run_packets in *. simpl. by rewrite Hst1.
Qed.

Lemma init_nvm_zero : archive_zero init_nvm.
Proof. unfold archive_zero. by vm_compute. Qed.

Lemma archive_frame_witness :
  store_inv (sto init_state) /\ archive_inv (nv init_state) /\
  archive_zero (nv init_state) /\
  exists st', run_packets [testcall_start; testcall_end] init_state = Some st' /\
              store_inv (sto st') /\ archive_inv (nv st') /\
              archive_zero (nv st').
Proof.
  split; [exact init_store_inv|]. split; [exact init_nvm_inv|].
  split; [exact init_nvm_zero|].
  exact (proj2 (proj2 (archive_frame [testcall_start; testcall_end] init_state
                         init_store_inv init_nvm_inv init_nvm_zero))).
Defined.

(** The two test calls: the call in memory gets its duration, the archive
    has been written once, by the "start call". *)
Example testcalls_start_end :
  exists st, run_packets [testcall_start; testcall_end] init_state = Some st /\
    cr_seconds (calls_at (sto st) 0) = 3 /\
    cr_seconds <$> arr_get (ee_calls (nv st)) 0 = Some 0 /\
    ee_log (nv st) = [WriteHeader; WriteRecord 0; Commit].
Proof. eexists. split; [vm_compute; reflexivity|]. by vm_compute. Qed.

(** ** An "end call" without a number *)

(** C6, as the program behaves: a packet that takes the "end call" branch
    and whose duration field [sscanf] does not read as a number is
    dropped: the call list, the archive and the bad packet record are as
    before. *)
Theorem end_call_without_number_ignored (received : list ascii) (st : state) :
  let r := decode (received_packet received (prs st)) in
  r.1 = EndCall -> sscanf_d (duration r.2) = None ->
  loop_packet received st = Some (mkState r.2 (sto st) (nv st) (bad st) true).
Proof.
  unfold loop_packet, received_packet.
  destruct (read_packet received (prs st)) as [n p0].
  destruct (Z.eqb_spec n 0) as [->|Hn].
  { intros Hbr. rewrite decode_empty in Hbr; [done|].
    by rewrite start_parse_pktlen. }
  destruct (decode (start_parse n p0)) as [br p]. simpl.
  intros -> Hscan. unfold update_duration. by rewrite Hscan.
Qed.

Lemma end_call_without_number_ignored_witness :
  (decode (received_packet end_call_no_number (prs init_state))).1 = EndCall /\
  loop_packet end_call_no_number init_state
  = Some (mkState (decode (received_packet end_call_no_number (prs init_state))).2
                  (sto init_state) (nv init_state) (bad init_state) true).
Proof.
  split; [reflexivity|].
  exact (end_call_without_number_ignored end_call_no_number init_state
           eq_refl eq_refl).
Defined.

(** The packet is in the "end call" branch, its duration field is not a
    number, and the bad packet record has not taken it: no bad packet is
    counted and no type 2 is recorded. *)
Lemma end_call_without_number_not_bad :
  branch_of end_call_no_number (prs init_state) = EndCall /\
  sscanf_d (duration (decode (received_packet end_call_no_number
                                (prs init_state))).2) = None /\
  exists st', loop_packet end_call_no_number init_state = Some st' /\
              badpacket_count (bad st') = 0 /\
              badpacket_type (bad st') = 0 /\
              (badpacket_type (bad st') =? 2) = false.
Proof.
  split; [reflexivity|]. split; [reflexivity|].
  eexists. split; [vm_compute; reflexivity|]. by vm_compute.
Qed.

(** ** The branches share the cursor *)

(** C4, at a packet where the program departs from it: ["I S "] and the
    four bytes after it are taken by the "start call" branch, which then
    fails; the "end call" branch goes on from offset 32, finds ["I E "]
    there and the packet is an "end call" of 42 seconds, which sets the
    duration of the call on line 1.  With each branch started right after
    the preamble (offset 24) the packet is a bad packet of type 2. *)
Theorem start_then_end_is_end_call :
  let r := decode (received_packet start_then_end init_parser) in
  r.1 = EndCall /\ pktptr r.2 = 40 /\
  sscanf_d (duration r.2) = Some 42 /\
  (decode_restarting (received_packet start_then_end init_parser)).1
  = BadPacket 2 /\
  exists st st',
    after_testcall_start = Some st /\
    loop_packet start_then_end st = Some st' /\
    cr_seconds (calls_at (sto st) 0) = 0 /\
    cr_seconds (calls_at (sto st') 0) = 42 /\
    badpacket_count (bad st') = 0.
Proof.
  split_and!; try reflexivity.
  eexists. eexists. split; [vm_compute; reflexivity|].
  split; [vm_compute; reflexivity|]. by vm_compute.
Qed.

(** ** Entering a string from the serial port *)

Lemma arr_set_twice {A} (a : list A) i x y :
  arr_set (arr_set a i x) i y = arr_set a i y.
Proof.
  unfold arr_set. destruct (i <? 0); [done|]. apply list_insert_insert_eq.
Qed.

Lemma zeros_cons n : zeros (S n) = NUL :: zeros n.
Proof. done. Qed.

Lemma arr_set_typed (typed : list ascii) (n : nat) rest ch :
  arr_set (typed ++ zeros (S n) ++ rest) (Z.of_nat (length typed)) ch
  = (typed ++ [ch]) ++ zeros n ++ rest.
Proof.
  unfold arr_set. destruct (Z.ltb_spec (Z.of_nat (length typed)) 0); [lia|].
  rewrite Nat2Z.id. rewrite zeros_cons. simpl.
  rewrite insert_app_r_alt by lia. rewrite Nat.sub_diag. simpl.
  by rewrite <- app_assoc.
Qed.

Lemma ordinary_not_newline ch : ordinary ch -> is_newline ch = false.
Proof. by intros [? ?]. Qed.

(** The first byte typed, whether [input_string] has proposed the first
    glyph or is asking to keep a current value. *)
Lemma first_key d L ch :
  1 < L -> ordinary ch ->
  step L (input_string_start d L 0 0) (Key ch)
  = mkComposer ([ch] ++ zeros (Z.to_nat L - 1) ++ drop (Z.to_nat L) d) 1 0 Waiting.
Proof.
  intros HL [Hnl Hbs].
  assert (Hstart : forall ph0,
    step_choosing L (start_edit L (mkComposer d 0 0 ph0)) (Key ch)
    = mkComposer ([ch] ++ zeros (Z.to_nat L - 1) ++ drop (Z.to_nat L) d)
                 1 0 Waiting).
  { intros ph0.
    unfold step_choosing, start_edit, put_next_glyph, next_glyph, next_column.
    simpl. rewrite Hnl, Hbs. simpl. rewrite arr_set_twice.
    unfold store_prefix, zeros. rewrite length_replicate.
    destruct (Z.to_nat L) as [|n] eqn:HLn; [lia|].
    replace (S n - 1)%nat with n by lia. simpl.
    change (0 + 1) with 1. change (-1 + 1) with 0.
    rewrite Z.geb_leb. destruct (Z.leb_spec L 1); [lia|]. done. }
  unfold input_string_start.
  destruct d as [|c0 d']; [apply Hstart|].
  destruct (Ascii.eqb c0 NUL); [apply Hstart|].
  unfold step. simpl at_phase. cbv iota. rewrite Hnl. apply Hstart.
Qed.

(** A further byte typed. *)
Lemma next_key L (typed : list ascii) (n : nat) rest g ch :
  Z.of_nat (length typed) + 1 < L -> ordinary ch ->
  step L (mkComposer (typed ++ zeros (S n) ++ rest)
                     (Z.of_nat (length typed)) g Waiting) (Key ch)
  = mkComposer ((typed ++ [ch]) ++ zeros n ++ rest)
               (Z.of_nat (length (typed ++ [ch]))) g Waiting.
Proof.
  intros HL [Hnl Hbs]. unfold step, step_choosing, next_column.
  cbn [at_phase dst input_col glyph].
  rewrite Hnl, Hbs. cbn [at_phase dst input_col glyph]. rewrite arr_set_typed.
  rewrite length_app. simpl length.
  rewrite Z.geb_leb. destruct (Z.leb_spec L (Z.of_nat (length typed) + 1)); [lia|].
  f_equal. lia.
Qed.

Lemma typed_keys d L : forall typed : list ascii,
  1 <= Z.of_nat (length typed) < L -> Forall ordinary typed ->
  foldl (step L) (input_string_start d L 0 0) (Key <$> typed)
  = mkComposer (typed ++ zeros (Z.to_nat L - length typed)
                      ++ drop (Z.to_nat L) d)
               (Z.of_nat (length typed)) 0 Waiting.
Proof.
  induction typed as [|ch typed IH] using rev_ind; intros Hk Hord.
  - simpl in Hk. lia.
  - apply Forall_app in Hord as [Hord Hch]. apply Forall_inv in Hch.
    rewrite length_app in Hk. simpl in Hk.
    rewrite fmap_app. change (Key <$> [ch]) with [Key ch]. rewrite foldl_snoc.
    destruct typed as [|c0 typed'] using rev_ind.
    + simpl in *. rewrite first_key by (done || lia). done.
    + clear IHtyped'.
      assert (1 <= Z.of_nat (length (typed' ++ [c0])))
        by (rewrite length_app; simpl; lia).
      set (t := typed' ++ [c0]) in *.
      rewrite IH by (done || lia).
      replace (Z.to_nat L - length t)%nat
        with (S (Z.to_nat L - length (t ++ [ch])))
        by (rewrite length_app; simpl; lia).
      rewrite next_key by (done || lia). done.
Qed.

(** C9, as the program behaves: from an idle pair of buttons, when
    1 <= k < L bytes that are neither line terminators nor backspaces
    arrive on the serial port and then a line terminator, the edit ends at
    the terminator and the first L bytes of the string are the k bytes
    typed, in order, followed by NULs; the buffer behind them is
    untouched. *)
Theorem typed_string_stored (d : list ascii) (L : Z) (typed : list ascii)
    (nl : ascii) :
  L <= Z.of_nat (length d) ->
  1 <= Z.of_nat (length typed) < L ->
  Forall ordinary typed -> is_newline nl = true ->
  let c := input_string d L ((Key <$> typed) ++ [Key nl]) in
  at_phase c = Done /\
  take (Z.to_nat L) (dst c) = typed ++ zeros (Z.to_nat L - length typed) /\
  drop (Z.to_nat L) (dst c) = drop (Z.to_nat L) d.
Proof.
  intros Hd Hk Hord Hnl. unfold input_string.
  rewrite foldl_snoc, typed_keys by done.
  unfold step, step_choosing. simpl. rewrite Hnl. simpl.
  assert (Hlen : length (typed ++ zeros (Z.to_nat L - length typed))
                 = Z.to_nat L).
  { unfold zeros. rewrite length_app, length_replicate. lia. }
  rewrite app_assoc. split_and!; [done|..].
  - by rewrite take_app_length'.
  - by rewrite drop_app_length'.
Qed.

Lemma typed_string_stored_witness :
  15 <= Z.of_nat (length empty_name) /\
  take 15 (dst (input_string empty_name 15 (keys "Office" ++ [Key "013"%char])))
  = list_ascii_of_string "Office" ++ zeros 9.
Proof.
  split; [vm_compute; discriminate|].
  refine (proj1 (proj2 (typed_string_stored empty_name 15
            (list_ascii_of_string "Office") "013"%char _ _ _ eq_refl))).
  - vm_compute. discriminate.
  - vm_compute. split; [discriminate|reflexivity].
  - repeat constructor.
Defined.

(** With no byte typed before the line terminator the string is not
    empty: its first byte is the glyph that [input_string] proposes for
    the first position. *)
Lemma terminator_alone_keeps_first_glyph :
  is_newline "010"%char = true /\
  at_phase (input_string empty_name 15 [Key "010"%char]) = Done /\
  take 15 (dst (input_string empty_name 15 [Key "010"%char]))
  = "A"%char :: zeros 14.
Proof. by vm_compute. Qed.

(** C10, as the program behaves: a backspace received with the cursor at
    position 0, while a character is being chosen or awaited, stores NUL
    at position 0, which erases the glyph or byte there, leaves the other
    bytes as they were, and leaves the cursor at position 0 for the next
    input.  At the "ok" prompt for a string that has a value the backspace
    first starts the edit: the [length] bytes of the string are cleared,
    the proposed glyph is erased like before, and the cursor is at
    position 0.  After the label [done] nothing is read any more. *)
Theorem backspace_at_first_column (L : Z) (c : composer) (ch : ascii) :
  0 < L -> is_backspace ch = true ->
  match at_phase c with
  | Confirm =>
      step L c (Key ch)
      = mkComposer (store_prefix (zeros (Z.to_nat L)) (dst c)) 0 0 Waiting
  | Choosing | Waiting =>
      input_col c = 0 ->
      step L c (Key ch)
      = mkComposer (arr_set (dst c) 0 NUL) 0 (glyph c) Waiting
  | Done => step L c (Key ch) = c
  end.
Proof.
  intros HL Hbs.
  assert (Hnl : is_newline ch = false).
  { unfold is_backspace, is_newline in *.
    destruct (Ascii.eqb_spec ch "008"%char) as [->|]; [done|].
    destruct (Ascii.eqb_spec ch "127"%char) as [->|]; [done|]. done. }
  assert (Hstep : forall d g ph0,
    step_choosing L (mkComposer d 0 g ph0) (Key ch)
    = mkComposer (arr_set d 0 NUL) 0 g Waiting).
  { intros d g ph0. unfold step_choosing, next_column. simpl.
    rewrite Hnl, Hbs. simpl. change (0 - 1 + 1) with 0.
    rewrite Z.geb_leb. destruct (Z.leb_spec L 0); [lia|done]. }
  unfold step. destruct c as [d col g ph].
  cbn [at_phase dst input_col glyph].
  destruct ph; [|intros ->; apply Hstep..|done].
  rewrite Hnl. unfold start_edit, put_next_glyph, next_glyph.
  cbn [at_phase dst input_col glyph].
  rewrite Hstep. f_equal.
  rewrite arr_set_twice. unfold arr_set, store_prefix. simpl.
  destruct (Z.to_nat L) as [|n] eqn:HLn; [lia|]. done.
Qed.

(** A backspace as the first byte of the edit of an empty line name, and
    at the "ok" prompt of the name "Office". *)
Lemma backspace_at_first_column_witness :
  0 < 15 /\
  step 15 (input_string empty_name 15 []) (Key "008"%char)
  = mkComposer (arr_set (dst (input_string empty_name 15 [])) 0 NUL) 0
               (glyph (input_string empty_name 15 [])) Waiting /\
  at_phase (input_string (list_ascii_of_string "Office" ++ zeros 10) 15 [])
  = Confirm /\
  step 15 (input_string (list_ascii_of_string "Office" ++ zeros 10) 15 [])
       (Key "127"%char)
  = mkComposer (zeros 16) 0 0 Waiting.
Proof.
  split; [lia|]. split; [|split; [reflexivity|]].
  - exact (backspace_at_first_column 15 (input_string empty_name 15 [])
             "008"%char eq_refl eq_refl eq_refl).
  - exact (backspace_at_first_column 15
             (input_string (list_ascii_of_string "Office" ++ zeros 10) 15 [])
             "127"%char eq_refl eq_refl).
Defined.

(** The first position holds the proposed glyph ['A'] when the backspace
    arrives, and NUL after it: the string has changed, and so has what a
    line terminator then leaves in it. *)
Lemma backspace_erases_first_glyph :
  input_col (input_string empty_name 15 []) = 0 /\
  c_str (dst (input_string empty_name 15 [])) = ["A"%char] /\
  c_str (dst (input_string empty_name 15 [Key "008"%char])) = [] /\
  input_col (input_string empty_name 15 [Key "008"%char]) = 0 /\
  c_str (dst (input_string empty_name 15 [Key "010"%char])) = ["A"%char] /\
  c_str (dst (input_string empty_name 15 [Key "008"%char; Key "010"%char])) = [].
Proof. by vm_compute. Qed.

(** ** The decoder reads inside the datagram *)

Lemma match_loop_reads literal : forall startptr p,
  exists new, reads (match_loop literal startptr p).2 = reads p ++ new /\
    Forall (fun q => pktptr p <= q < pktptr p + Z.of_nat (length literal)) new.
Proof.
  induction literal as [|c literal IH]; intros startptr p; simpl.
  - exists []. by rewrite app_nil_r.
  - destruct (next_byte p) as [b p1] eqn:Hnb.
    destruct (next_byte_spec p) as (_ & _ & Hpp & _ & Hrd & _).
    rewrite Hnb in *. simpl in *.
    destruct (negb (Ascii.eqb c b)).
    + exists [pktptr p]. simpl.
      destruct (set_pktptr_spec startptr p1) as (_ & _ & _ & Srd & _).
      rewrite Srd, Hrd. split; [done|]. constructor; [lia|done].
    + destruct (IH startptr p1) as (new & Hnew & Hall).
      exists (pktptr p :: new). rewrite Hnew, Hrd, <- app_assoc.
      split; [done|]. constructor; [lia|].
      eapply Forall_impl; [exact Hall|]. simpl. intros q. lia.
Qed.

Lemma copy_loop_le len : forall p out,
  pktptr (copy_loop len p out).2 <= pktptr p + Z.of_nat len.
Proof.
  induction len as [|len IH]; intros p out; simpl; [lia|].
  destruct (pktptr p <? pktlen p).
  - destruct (next_byte p) as [b p1] eqn:Hnb.
    destruct (next_byte_spec p) as (_ & _ & Hpp & _).
    rewrite Hnb in *. simpl in *.
    specialize (IH p1 (out ++ [b])). lia.
  - specialize (IH p (out ++ [NUL])). lia.
Qed.

Section Reads.
Variable base : list Z.

Lemma reads_within_more b b' p :
  reads_within base b p -> b <= b' -> reads_within base b' p.
Proof. intros (Hr & Hp & Hl) Hb. split_and!; try done; lia. Qed.

Lemma keeps_test_t f b bf :
  b <= bf -> cond_keeps base b (c_test f) b bf.
Proof.
  intros Hb p Hp. unfold c_test. simpl. split; [done|].
  destruct (f p); [done|]. by eapply reads_within_more.
Qed.

Lemma keeps_test_f f b bt :
  b <= bt -> cond_keeps base b (c_test f) bt b.
Proof.
  intros Hb p Hp. unfold c_test. simpl. split; [done|].
  destruct (f p); [|done]. by eapply reads_within_more.
Qed.

Lemma keeps_match literal b bt bf :
  bt = b + Z.of_nat (String.length literal) -> bt <= 52 -> b <= bf ->
  cond_keeps base b (match_ literal) bt bf.
Proof.
  intros -> Hbt Hbf p ((new & Hnew & Hall) & Hpp & Hpl). unfold match_.
  assert (Hlen : length (list_ascii_of_string literal) = String.length literal).
  { clear. induction literal; simpl; [done|]. by f_equal. }
  destruct (match_loop_spec (list_ascii_of_string literal) (pktptr p) p)
    as (_ & Hl & _ & Ht & Hf).
  destruct (match_loop_reads (list_ascii_of_string literal) (pktptr p) p)
    as (new' & Hnew' & Hall').
  rewrite Hlen in *. split; [done|].
  assert (Hrd : exists n, reads (match_loop (list_ascii_of_string literal)
                                   (pktptr p) p).2 = base ++ n /\
            Forall (fun q => 0 <= q < pktlen (match_loop
                     (list_ascii_of_string literal) (pktptr p) p).2) n).
  { exists (new ++ new'). rewrite Hnew', Hnew, app_assoc. split; [done|].
    rewrite Hl. apply Forall_app. split; [done|].
    eapply Forall_impl; [exact Hall'|]. simpl. intros q. lia. }
  destruct (match_loop (list_ascii_of_string literal) (pktptr p) p) as [[] p'];
    simpl in *.
  - destruct (Ht eq_refl) as [Hptr _]. split_and!; try done; lia.
  - specialize (Hf eq_refl). split_and!; try done; lia.
Qed.

Lemma keeps_copy dst len b bt bf :
  0 <= len -> bt = b + len -> cond_keeps base b (copy dst len) bt bf.
Proof.
  intros Hlen -> p ((new & Hnew & Hall) & Hpp & Hpl).
  pose proof (copy_loop_le (Z.to_nat len) p []) as Hle.
  destruct (copy_loop_spec (Z.to_nat len) p [])
    as (_ & _ & Hl & Hlo & _ & _ & _ & new' & Hnew' & Hall').
  unfold copy. destruct (copy_loop (Z.to_nat len) p []) as [out p1].
  simpl in *.
  destruct (set_field_frame dst (store_prefix out (get_field dst p1)) p1)
    as (_ & Fpp & Fpl & Frd).
  split; [congruence|]. unfold reads_within.
  rewrite Fpp, Fpl, Frd, Hl. split_and!; try lia.
  exists (new ++ new'). rewrite Hnew', Hnew, app_assoc. split; [done|].
  apply Forall_app. split; [done|].
  eapply Forall_impl; [exact Hall'|]. simpl. intros q. lia.
Qed.

Lemma keeps_not a b bt bf :
  cond_keeps base b a bf bt -> cond_keeps base b (c_not a) bt bf.
Proof.
  intros Ha p Hp. destruct (Ha p Hp) as [Hl Hpost]. unfold c_not.
  destruct (a p) as [[] p1]; simpl in *; done.
Qed.

Lemma keeps_and a c b t1 t f :
  cond_keeps base b a t1 f -> cond_keeps base t1 c t f ->
  cond_keeps base b (a &&> c) t f.
Proof.
  intros Ha Hc p Hp. destruct (Ha p Hp) as [Hl Hpost]. unfold c_and.
  destruct (a p) as [[] p1]; simpl in *; [|done].
  destruct (Hc p1 Hpost) as [Hl' Hpost']. split; [congruence|done].
Qed.

Lemma keeps_or a c b f1 t f :
  cond_keeps base b a t f1 -> cond_keeps base f1 c t f ->
  cond_keeps base b (a ||> c) t f.
Proof.
  intros Ha Hc p Hp. destruct (Ha p Hp) as [Hl Hpost]. unfold c_or.
  destruct (a p) as [[] p1]; simpl in *; [done|].
  destruct (Hc p1 Hpost) as [Hl' Hpost']. split; [congruence|done].
Qed.

Ltac keeps :=
  repeat first
    [ eapply keeps_and | eapply keeps_or | eapply keeps_not
    | eapply keeps_test_t; by vm_compute
    | eapply keeps_test_f; by vm_compute
    | eapply keeps_copy; [by vm_compute | reflexivity]
    | eapply keeps_match; [reflexivity | by vm_compute | reflexivity]
    | eapply keeps_match; [reflexivity | by vm_compute | by vm_compute] ].

Lemma keeps_bad_preamble : cond_keeps base 0 bad_preamble 52 24.
Proof. unfold bad_preamble. keeps. Qed.

Lemma keeps_is_booted : cond_keeps base 24 is_booted 25 24.
Proof. unfold is_booted. keeps. Qed.

Lemma keeps_is_start_call : cond_keeps base 24 is_start_call 83 38.
Proof. unfold is_start_call. keeps. Qed.

Lemma keeps_is_end_call : cond_keeps base 38 is_end_call 46 52.
Proof. unfold is_end_call. keeps. Qed.
End Reads.

(** Whatever the datagram, every offset that the decoder reads lies
    before [pktlen]: [match] is only reached with at least 52 bytes and
    never looks beyond offset 41, [copy] checks each byte. *)
Theorem decode_reads_in_packet (p : parser) :
  pktptr p = 0 ->
  pktlen (decode p).2 = pktlen p /\
  exists new, reads (decode p).2 = reads p ++ new /\
              Forall (fun q => 0 <= q < pktlen p) new.
Proof.
  intros Hpp.
  assert (Hfin : forall b p', pktlen p' = pktlen p ->
            reads_within (reads p) b p' ->
            pktlen p' = pktlen p /\
            exists new, reads p' = reads p ++ new /\
                        Forall (fun q => 0 <= q < pktlen p) new).
  { intros b p' Hl ((new & Hnew & Hall) & _). split; [done|].
    exists new. by rewrite <- Hl. }
  destruct (Z.ltb_spec (pktlen p) 52) as [Hshort|Hlong].
  - unfold decode, bad_preamble, c_or, c_test.
    destruct (Z.ltb_spec (pktlen p) 52); [|lia]. simpl.
    split; [done|]. exists []. by rewrite app_nil_r.
  - assert (RW : reads_within (reads p) 0 p).
    { split_and!; try lia. exists []. by rewrite app_nil_r. }
    unfold decode.
    destruct (keeps_bad_preamble (reads p) p RW) as [L1 P1].
    destruct (bad_preamble p) as [[] p1]; simpl in *; [by eapply Hfin|].
    destruct (keeps_is_booted (reads p) p1 P1) as [L2 P2].
    destruct (is_booted p1) as [[] p2]; simpl in *;
      [eapply Hfin; [congruence|done]|].
    destruct (keeps_is_start_call (reads p) p2 P2) as [L3 P3].
    destruct (is_start_call p2) as [[] p3]; simpl in *;
      [eapply Hfin; [congruence|done]|].
    destruct (keeps_is_end_call (reads p) p3 P3) as [L4 P4].
    destruct (is_end_call p3) as [[] p4]; simpl in *;
      eapply Hfin; try done; congruence.
Qed.

(** For a datagram received into the 255-byte array [packet], these
    offsets lie inside the bytes received, so inside the array. *)
Corollary decode_reads_in_datagram (received : list ascii) (p0 : parser) :
  length (packet p0) = Z.to_nat MAX_PACKET ->
  let p := received_packet received p0 in
  exists new, reads (decode p).2 = reads p0 ++ new /\
    Forall (fun q => 0 <= q < Z.of_nat (length received) /\
                     q < Z.of_nat (length (packet p))) new.
Proof.
  intros Hpk p.
  assert (Hp : pktptr p = 0 /\ reads p = reads p0 /\
               pktlen p = Z.min (Z.of_nat (length received)) MAX_PACKET /\
               length (packet p) = Z.to_nat MAX_PACKET).
  { subst p. unfold received_packet, read_packet. destruct p0. simpl in *.
    split_and!; try done. unfold store_prefix.
    rewrite length_app, length_drop, !length_take.
    unfold MAX_PACKET in *. lia. }
  destruct Hp as (Hpp & Hrd & Hpl & Hlen).
  destruct (decode_reads_in_packet p Hpp) as (_ & new & Hnew & Hall).
  exists new. rewrite Hnew, Hrd. split; [done|].
  eapply Forall_impl; [exact Hall|]. simpl. intros q.
  rewrite Hpl, Hlen. unfold MAX_PACKET. lia.
Qed.

(** * Further properties *)

(** ** Matching and copying at the cursor *)

Lemma cursor_head p a rest :
  cursor p (a :: rest) -> pkt_at p (pktptr p) = a /\ pktptr p < pktlen p.
Proof.
  intros [Hpp Hd].
  assert (Hl : take (Z.to_nat (pktlen p)) (packet p) !! Z.to_nat (pktptr p)
               = Some a).
  { rewrite <- (Nat.add_0_r (Z.to_nat (pktptr p))), <- lookup_drop. by rewrite Hd. }
  pose proof (lookup_lt_Some _ _ _ Hl) as Hlt. rewrite length_take in Hlt.
  apply lookup_take_Some in Hl as [Hl _].
  split; [|lia]. unfold pkt_at, arr_get.
  destruct (Z.ltb_spec (pktptr p) 0); [lia|]. by rewrite Hl.
Qed.

Lemma next_byte_cursor p a rest :
  cursor p (a :: rest) ->
  (next_byte p).1 = a /\ cursor (next_byte p).2 rest /\
  same_buffers p (next_byte p).2.
Proof.
  intros Hc. destruct (cursor_head p a rest Hc) as [Ha Hlt].
  destruct Hc as [Hpp Hd].
  destruct (next_byte_spec p) as (Hb & Hpk & Hptr & Hpl & _ & Hf).
  split; [congruence|]. split; [|done].
  unfold cursor. rewrite Hpk, Hptr, Hpl. split; [lia|].
  replace (Z.to_nat (pktptr p + 1)) with (Z.to_nat (pktptr p) + 1)%nat by lia.
  by rewrite <- drop_drop, Hd.
Qed.

Lemma same_buffers_refl p : same_buffers p p.
Proof. by split_and!. Qed.

Lemma same_buffers_trans p q r :
  same_buffers p q -> same_buffers q r -> same_buffers p r.
Proof.
  intros (H1 & H2 & H3) (K1 & K2 & K3). split_and!; try congruence.
Qed.

Lemma set_pktptr_same i p : same_buffers p (set_pktptr i p).
Proof. destruct (set_pktptr_spec i p) as (? & ? & _ & _ & ?). by split_and!. Qed.

(** A literal that is ahead of the cursor is matched and passed. *)
Lemma match_loop_ok literal : forall startptr p rest,
  cursor p (literal ++ rest) ->
  exists p', match_loop literal startptr p = (true, p') /\
             cursor p' rest /\ same_buffers p p'.
Proof.
  induction literal as [|c literal IH]; intros startptr p rest Hc; simpl.
  - exists p. split_and!; try done; apply same_buffers_refl.
  - destruct (next_byte_cursor p c (literal ++ rest) Hc) as (Hb & Hc1 & Hs1).
    destruct (next_byte p) as [b p1]. simpl in *. subst b.
    rewrite Ascii.eqb_refl. simpl.
    destruct (IH startptr p1 rest Hc1) as (p' & Hm & Hc' & Hs').
    exists p'. split_and!; try done. by eapply same_buffers_trans.
Qed.

(** A literal that differs from the bytes ahead is not matched, and the
    cursor returns to where the match began. *)
Lemma match_loop_fail pre c c' literal rest : forall startptr p,
  cursor p (pre ++ c' :: rest) -> c <> c' ->
  exists p', match_loop (pre ++ c :: literal) startptr p = (false, p') /\
             pktptr p' = startptr /\ same_buffers p p'.
Proof.
  induction pre as [|a pre IH]; intros startptr p Hc Hne; simpl in *.
  - destruct (next_byte_cursor p c' rest Hc) as (Hb & Hc1 & Hs1).
    destruct (next_byte p) as [b p1]. simpl in *. subst b.
    destruct (Ascii.eqb_spec c c'); [done|]. simpl.
    eexists. split; [done|]. split; [apply set_pktptr_spec|].
    eapply same_buffers_trans; [done|apply set_pktptr_same].
  - destruct (next_byte_cursor p a (pre ++ c' :: rest) Hc) as (Hb & Hc1 & Hs1).
    destruct (next_byte p) as [b p1]. simpl in *. subst b.
    rewrite Ascii.eqb_refl. simpl.
    destruct (IH startptr p1 Hc1 Hne) as (p' & Hm & Hp' & Hs').
    exists p'. split_and!; try done. by eapply same_buffers_trans.
Qed.

Lemma match_ok literal p rest :
  cursor p (list_ascii_of_string literal ++ rest) ->
  exists p', match_ literal p = (true, p') /\
             cursor p' rest /\ same_buffers p p'.
Proof. apply match_loop_ok. Qed.

Lemma match_fail literal pre c c' lit' p rest :
  list_ascii_of_string literal = pre ++ c :: lit' ->
  cursor p (pre ++ c' :: rest) -> c <> c' ->
  exists p', match_ literal p = (false, p') /\
             cursor p' (pre ++ c' :: rest) /\ same_buffers p p'.
Proof.
  intros Hl Hc Hne. unfold match_. rewrite Hl.
  destruct (match_loop_fail pre c c' lit' rest (pktptr p) p Hc Hne)
    as (p' & Hm & Hp' & Hs').
  exists p'. split_and!; try done.
  destruct Hc as [Hpp Hd]. destruct Hs' as (Hpk & Hpl & _).
  unfold cursor. by rewrite Hp', Hpk, Hpl.
Qed.


Lemma cursor_length p ahead :
  cursor p ahead -> Z.of_nat (length ahead) = pktlen p - pktptr p.
Proof.
  intros [Hpp Hd]. apply (f_equal length) in Hd.
  rewrite length_drop, length_take in Hd. lia.
Qed.

(** The bytes that [copy_loop] yields, in terms of the bytes ahead. *)
Lemma copy_loop_cursor len : forall p out ahead,
  cursor p ahead ->
  exists p', copy_loop len p out
             = (out ++ take len ahead ++ zeros (len - length ahead), p') /\
             cursor p' (drop len ahead) /\ same_buffers p p'.
Proof.
  induction len as [|len IH]; intros p out ahead Hc; simpl copy_loop.
  - exists p. rewrite take_0, drop_0. simpl. rewrite app_nil_r.
    split_and!; try done; apply same_buffers_refl.
  - pose proof (cursor_length p ahead Hc) as Hlen.
    destruct ahead as [|a ahead].
    + simpl in Hlen. destruct (Z.ltb_spec (pktptr p) (pktlen p)); [lia|].
      destruct (IH p (out ++ [NUL]) [] Hc) as (p' & Hcl & Hc' & Hs').
      exists p'. rewrite Hcl. rewrite take_nil, drop_nil in *. simpl.
      rewrite Nat.sub_0_r, <- app_assoc. done.
    + destruct (cursor_head p a ahead Hc) as [Ha Hlt].
      destruct (Z.ltb_spec (pktptr p) (pktlen p)); [|lia].
      destruct (next_byte_cursor p a ahead Hc) as (Hb & Hc1 & Hs1).
      destruct (next_byte p) as [b p1]. simpl in Hb, Hc1, Hs1. subst b.
      destruct (IH p1 (out ++ [a]) ahead Hc1) as (p' & Hcl & Hc' & Hs').
      exists p'. rewrite Hcl. simpl. rewrite <- app_assoc.
      split_and!; try done. by eapply same_buffers_trans.
Qed.

(** [copy] at the cursor: the field takes the bytes ahead, filled up with
    NULs when they run out, and the cursor passes them. *)
Lemma copy_ok dst len p ahead :
  cursor p ahead ->
  exists p', copy dst (Z.of_nat len) p = (true, p') /\
    cursor p' (drop len ahead) /\
    packet p' = packet p /\ pktlen p' = pktlen p /\
    get_field dst p'
    = take len ahead ++ zeros (len - length ahead)
      ++ drop len (get_field dst p) /\
    forall g, g <> dst -> get_field g p' = get_field g p.
Proof.
  intros Hc. unfold copy. rewrite Nat2Z.id.
  destruct (copy_loop_cursor len p [] ahead Hc) as (p1 & Hcl & Hc1 & Hpk & Hpl & Hf).
  rewrite Hcl. simpl.
  eexists. split; [done|].
  destruct (set_field_frame dst
     (store_prefix (take len ahead ++ zeros (len - length ahead))
                   (get_field dst p1)) p1) as (Fpk & Fpp & Fpl & _).
  split_and!.
  - destruct Hc1 as [Hb Hd]. unfold cursor. by rewrite Fpk, Fpp, Fpl.
  - congruence.
  - congruence.
  - rewrite get_set_field_eq. unfold store_prefix.
    rewrite <- app_assoc, Hf. do 2 f_equal.
    rewrite length_app, length_take. unfold zeros. rewrite length_replicate.
    f_equal. lia.
  - intros g Hg. by rewrite get_set_field_ne, Hf.
Qed.

(** [copy] of bytes that are all there. *)
Lemma copy_full dst (len : nat) p bytes rest :
  length bytes = len -> cursor p (bytes ++ rest) ->
  exists p', copy dst (Z.of_nat len) p = (true, p') /\
    cursor p' rest /\
    packet p' = packet p /\ pktlen p' = pktlen p /\
    get_field dst p' = bytes ++ drop len (get_field dst p) /\
    forall g, g <> dst -> get_field g p' = get_field g p.
Proof.
  intros Hlen Hc.
  destruct (copy_ok dst len p _ Hc) as (p' & E & C & K & L & G & F).
  exists p'. rewrite drop_app_length' in C by done.
  rewrite take_app_length' in G by done.
  rewrite length_app, Hlen in G.
  replace (len - (len + length rest))%nat with 0%nat in G by lia.
  simpl in G. done.
Qed.

(** The parser globals when [loop] starts on a datagram. *)
Lemma received_cursor received p0 :
  length (packet p0) = Z.to_nat MAX_PACKET ->
  let p := received_packet received p0 in
  cursor p (take (Z.to_nat MAX_PACKET) received) /\
  pktlen p = Z.min (Z.of_nat (length received)) MAX_PACKET /\
  (forall f, get_field f p = get_field f p0) /\
  reads p = reads p0.
Proof.
  intros Hpk p. subst p. unfold received_packet, read_packet, cursor, MAX_PACKET in *.
  destruct p0 as [pk pp pl un sn phl du aty dtm pn cn rd]. simpl in *.
  split_and!; try done; try lia; try (by intros []).
  - unfold store_prefix. rewrite length_app, length_drop, !length_take. lia.
  - unfold store_prefix.
    rewrite take_app_length' by (rewrite length_take; lia).
    change (Z.to_nat 0) with 0%nat. rewrite drop_0.
    destruct (Z.le_gt_cases (Z.of_nat (length received)) 255).
    + by rewrite !take_ge by lia.
    + f_equal. lia.
Qed.

Ltac as_fields :=
  change unitnum with (get_field f_unitnum) in *;
  change serialnum with (get_field f_serialnum) in *;
  change phoneline with (get_field f_phoneline) in *;
  change duration with (get_field f_duration) in *;
  change atype with (get_field f_atype) in *;
  change datetime with (get_field f_datetime) in *;
  change phonenum with (get_field f_phonenum) in *;
  change callername with (get_field f_callername) in *.

(** ** The preamble *)

(** A datagram of at least 52 bytes that begins with a preamble passes the
    first test of [loop]; the unit, serial and line fields are filled and
    the cursor is behind the preamble. *)
Lemma preamble_ok unit serial line rest p :
  length unit = 6%nat -> length serial = 6%nat -> length line = 2%nat ->
  52 <= pktlen p -> cursor p (preamble unit serial line ++ rest) ->
  exists p1, bad_preamble p = (false, p1) /\
    cursor p1 rest /\ packet p1 = packet p /\ pktlen p1 = pktlen p /\
    unitnum p1 = unit ++ drop 6 (unitnum p) /\
    serialnum p1 = serial ++ drop 6 (serialnum p) /\
    phoneline p1 = line ++ drop 2 (phoneline p) /\
    duration p1 = duration p /\ atype p1 = atype p /\
    datetime p1 = datetime p /\ phonenum p1 = phonenum p /\
    callername p1 = callername p.
Proof.
  intros Hu Hs Hl Hlen Hc. unfold preamble in Hc.
  rewrite <- !app_assoc in Hc.
  unfold bad_preamble, c_or, c_not, c_test.
  destruct (Z.ltb_spec (pktlen p) 52); [lia|].
  destruct (match_ok "^^<U>" p _ Hc) as (p1 & E1 & C1 & K1 & L1 & F1).
  rewrite E1. simpl negb. cbv iota.
  destruct (copy_full f_unitnum 6 p1 _ _ Hu C1)
    as (p2 & E2 & C2 & K2 & L2 & G2 & F2).
  change (Z.of_nat 6) with 6 in E2. rewrite E2. simpl negb. cbv iota.
  destruct (match_ok "<S>" p2 _ C2) as (p3 & E3 & C3 & K3 & L3 & F3).
  rewrite E3. simpl negb. cbv iota.
  destruct (copy_full f_serialnum 6 p3 _ _ Hs C3)
    as (p4 & E4 & C4 & K4 & L4 & G4 & F4).
  change (Z.of_nat 6) with 6 in E4. rewrite E4. simpl negb. cbv iota.
  destruct (match_ok "$" p4 _ C4) as (p5 & E5 & C5 & K5 & L5 & F5).
  rewrite E5. simpl negb. cbv iota.
  destruct (copy_full f_phoneline 2 p5 _ _ Hl C5)
    as (p6 & E6 & C6 & K6 & L6 & G6 & F6).
  change (Z.of_nat 2) with 2 in E6. rewrite E6. simpl negb. cbv iota.
  destruct (match_ok " " p6 _ C6) as (p7 & E7 & C7 & K7 & L7 & F7).
  rewrite E7. simpl negb.
  exists p7. split; [done|]. split; [done|].
  as_fields.
  split_and!; try congruence.
  - rewrite F7, F6, F5, F4, F3, G2, F1 by done. done.
  - rewrite F7, F6, F5, G4, F3, F2, F1 by done. done.
  - rewrite F7, G6, F5, F4, F3, F2, F1 by done. done.
  - rewrite F7, F6, F5, F4, F3, F2, F1 by done. done.
  - rewrite F7, F6, F5, F4, F3, F2, F1 by done. done.
  - rewrite F7, F6, F5, F4, F3, F2, F1 by done. done.
  - rewrite F7, F6, F5, F4, F3, F2, F1 by done. done.
  - rewrite F7, F6, F5, F4, F3, F2, F1 by done. done.
Qed.

(** ** The branches of the decoder *)

Lemma decode_after_preamble p p1 :
  bad_preamble p = (false, p1) ->
  decode p =
    let '(r, p2) := is_booted p1 in
    if r then (Booted, p2) else
    let '(r, p3) := is_start_call p2 in
    if r then (StartCall, p3) else
    let '(r, p4) := is_end_call p3 in
    if r then (EndCall, p4) else (BadPacket 2, p4).
Proof. intros H. unfold decode. by rewrite H. Qed.

(** X1: a datagram of exactly 52 bytes with a preamble and then ['V'] is
    taken as the start-up notice of the unit: the serial number is in its
    field, the call list keeps its calls and indices (only the newest call
    is displayed again), and neither the archive nor the bad packet record
    is touched. *)
Theorem boot_notice (unit serial line rest : list ascii) (st : state) :
  length unit = 6%nat -> length serial = 6%nat -> length line = 2%nat ->
  length rest = 27%nat ->
  length (packet (prs st)) = Z.to_nat MAX_PACKET ->
  let received := preamble unit serial line ++ "V"%char :: rest in
  exists p',
    decode (received_packet received (prs st)) = (Booted, p') /\
    serialnum p' = serial ++ drop 6 (serialnum (prs st)) /\
    loop_packet received st
    = Some (mkState p' (show_newest_call (sto st)) (nv st) (bad st) true) /\
    store_ring (show_newest_call (sto st)) = store_ring (sto st).
Proof.
  intros Hu Hs Hl Hr Hpk received.
  assert (Hlen : length received = 52%nat).
  { subst received. unfold preamble. rewrite !length_app. simpl.
    rewrite Hu, Hs, Hl, Hr. done. }
  destruct (received_cursor received (prs st) Hpk) as (Hc & Hpl & Hf & _).
  rewrite take_ge in Hc by (unfold MAX_PACKET; lia).
  rewrite Hlen in Hpl. change (Z.min _ _) with 52 in Hpl.
  assert (H52 : 52 <= pktlen (received_packet received (prs st))) by lia.
  destruct (preamble_ok unit serial line ("V"%char :: rest) _ Hu Hs Hl
              H52 Hc) as (p1 & E1 & C1 & K1 & L1 & _ & G1 & _).
  assert (Hb : exists p2, is_booted p1 = (true, p2) /\
                          forall f, get_field f p2 = get_field f p1).
  { unfold is_booted, c_and, c_test. rewrite L1, Hpl. simpl.
    destruct (match_ok "V" p1 rest C1) as (p2 & E2 & _ & _ & _ & F2).
    exists p2. by rewrite E2. }
  destruct Hb as (p2 & E2 & F2).
  assert (Hdec : decode (received_packet received (prs st)) = (Booted, p2)).
  { rewrite (decode_after_preamble _ p1 E1). by rewrite E2. }
  exists p2. split_and!; try done.
  - as_fields. by rewrite F2, G1, Hf.
  - unfold loop_packet. unfold received_packet in Hdec, Hpl.
    destruct (read_packet received (prs st)) as [n p0].
    rewrite start_parse_pktlen in Hpl. subst n. simpl. by rewrite Hdec.
  - apply show_newest_call_ring.
Qed.

Lemma boot_notice_witness :
  length sample_unit = 6%nat /\
  exists p', decode (received_packet sample_boot_notice (prs init_state))
             = (Booted, p').
Proof.
  split; [reflexivity|].
  destruct (boot_notice sample_unit sample_unit sample_line
              (list_ascii_of_string "3.0 and some more bytes up.") init_state
              eq_refl eq_refl eq_refl eq_refl eq_refl) as (p' & Hd & _).
  exists p'. exact Hd.
Defined.

Lemma in_call_lengths (n : Z) :
  70 <= n <= 83 -> (n >=? 70) && (n <=? 83) = true.
Proof. intros Hn. rewrite Z.geb_leb. lia. Qed.

Lemma not_in_call_lengths (n : Z) :
  ~ (70 <= n <= 83) -> (n >=? 70) && (n <=? 83) = false.
Proof. intros Hn. rewrite Z.geb_leb. lia. Qed.

(** What [loop] does with a datagram once it is decoded. *)
Lemma loop_packet_decoded received st br p :
  received <> [] ->
  decode (received_packet received (prs st)) = (br, p) ->
  loop_packet received st
  = match br with
    | BadPacket type =>
        Some (mkState p (sto st) (nv st) (badpacket type p (bad st)) true)
    | Booted =>
        Some (mkState p (show_newest_call (sto st)) (nv st) (bad st) true)
    | StartCall =>
        let s1 := add_call p (sto st) in
        let m1 := eeprom_add_call s1 (nv st) in
        Some (mkState p (show_newest_call s1) m1 (bad st) true)
    | EndCall =>
        s1 ← update_duration p (sto st);
        Some (mkState p s1 (nv st) (bad st) true)
    end.
Proof.
  intros Hne Hdec. unfold loop_packet. unfold received_packet in Hdec.
  destruct (read_packet received (prs st)) as [n p0] eqn:Hrp.
  assert (n = Z.min (Z.of_nat (length received)) MAX_PACKET) as Hn.
  { unfold read_packet in Hrp. destruct (prs st). by injection Hrp as <- _. }
  destruct (Z.eqb_spec n 0) as [Hz|_].
  - destruct received; [done|]. unfold MAX_PACKET in Hn. simpl in Hn. lia.
  - by rewrite Hdec.
Qed.

(** A datagram with a preamble, then ["I E "] and four more bytes. *)
Lemma end_call_decode (unit serial line dur rest : list ascii) (p0 : parser) :
  length unit = 6%nat -> length serial = 6%nat -> length line = 2%nat ->
  length dur = 4%nat ->
  length (packet p0) = Z.to_nat MAX_PACKET ->
  let received :=
    preamble unit serial line ++ list_ascii_of_string "I E " ++ dur ++ rest in
  70 <= Z.of_nat (length received) <= 83 ->
  exists p',
    decode (received_packet received p0) = (EndCall, p') /\
    phoneline p' = line ++ drop 2 (phoneline p0) /\
    duration p' = dur ++ drop 4 (duration p0).
Proof.
  intros Hu Hs Hl Hd Hpk received Hlen.
  destruct (received_cursor received p0 Hpk) as (Hc & Hpl & Hf & _).
  rewrite take_ge in Hc by (unfold MAX_PACKET; lia).
  rewrite Z.min_l in Hpl by (unfold MAX_PACKET; lia).
  assert (H52 : 52 <= pktlen (received_packet received p0)) by lia.
  destruct (preamble_ok unit serial line _ _ Hu Hs Hl H52 Hc)
    as (p1 & E1 & C1 & K1 & L1 & _ & _ & G1 & D1 & _).
  assert (Hnb : exists p2, is_booted p1 = (false, p2) /\ p2 = p1).
  { unfold is_booted, c_and, c_test. rewrite L1, Hpl.
    destruct (Z.eqb_spec (Z.of_nat (length received)) 52); [lia|]. eauto. }
  destruct Hnb as (p2 & E2 & ->).
  assert (Hns : exists p3, is_start_call p1 = (false, p3) /\
            cursor p3 (list_ascii_of_string "I E " ++ dur ++ rest) /\
            same_buffers p1 p3).
  { unfold is_start_call, c_and, c_or, c_test.
    rewrite L1, Hpl, in_call_lengths by done.
    destruct (match_fail "I S " (list_ascii_of_string "I ") "S"%char "E"%char
                (list_ascii_of_string " ") p1
                (list_ascii_of_string " " ++ dur ++ rest) eq_refl C1
                ltac:(discriminate)) as (p3 & E3 & C3 & S3).
    rewrite E3. simpl. eauto. }
  destruct Hns as (p3 & E3 & C3 & K3 & L3 & F3).
  assert (Hend : exists p4, is_end_call p3 = (true, p4) /\
            get_field f_duration p4 = dur ++ drop 4 (get_field f_duration p3) /\
            forall g, g <> f_duration -> get_field g p4 = get_field g p3).
  { unfold is_end_call, c_and, c_test.
    rewrite L3, L1, Hpl, in_call_lengths by done.
    destruct (match_ok "I E " p3 _ C3) as (p4 & E4 & C4 & K4 & L4 & F4).
    rewrite E4.
    destruct (copy_full f_duration 4 p4 dur rest Hd C4)
      as (p5 & E5 & _ & _ & _ & G5 & F5).
    change (Z.of_nat 4) with 4 in E5. rewrite E5.
    exists p5. split; [done|]. rewrite G5, F4. split; [done|].
    intros g Hg. by rewrite F5, F4. }
  destruct Hend as (p4 & E4 & G4 & F4).
  exists p4. as_fields. split_and!.
  - rewrite (decode_after_preamble _ p1 E1). by rewrite E2, E3, E4.
  - by rewrite F4, F3, G1, Hf.
  - by rewrite G4, F3, D1, Hf.
Qed.

(** X2: a datagram of 70 to 83 bytes with a preamble, then ["I E "] and
    four more bytes takes the "end call" branch, whatever follows; the
    line and duration fields then hold the bytes of the datagram, and
    [loop] hands the packet to [update_duration]. *)
Theorem end_call_roundtrip (unit serial line dur rest : list ascii)
    (st : state) :
  length unit = 6%nat -> length serial = 6%nat -> length line = 2%nat ->
  length dur = 4%nat ->
  length (packet (prs st)) = Z.to_nat MAX_PACKET ->
  let received :=
    preamble unit serial line ++ list_ascii_of_string "I E " ++ dur ++ rest in
  70 <= Z.of_nat (length received) <= 83 ->
  exists p',
    decode (received_packet received (prs st)) = (EndCall, p') /\
    phoneline p' = line ++ drop 2 (phoneline (prs st)) /\
    duration p' = dur ++ drop 4 (duration (prs st)) /\
    loop_packet received st
    = (s1 ← update_duration p' (sto st);
       Some (mkState p' s1 (nv st) (bad st) true)).
Proof.
  intros Hu Hs Hl Hd Hpk received Hlen.
  destruct (end_call_decode unit serial line dur rest (prs st)
              Hu Hs Hl Hd Hpk Hlen) as (p' & Hdec & Hline & Hdur).
  exists p'. split_and!; try done.
  rewrite (loop_packet_decoded received st EndCall p'); [done| |done].
  intros Hnil. subst received. rewrite Hnil in Hlen. simpl in Hlen. lia.
Qed.

Lemma end_call_roundtrip_witness :
  length sample_unit = 6%nat /\
  exists p', decode (received_packet sample_end_call (prs init_state))
             = (EndCall, p') /\
             duration p' = list_ascii_of_string "0123"
                           ++ drop 4 (duration (prs init_state)).
Proof.
  split; [reflexivity|].
  destruct (end_call_roundtrip sample_unit sample_unit sample_line
              (list_ascii_of_string "0123")
              (list_ascii_of_string
                 " G A2 03/14 10:56 PM 111 111 1111   Caller one")
              init_state eq_refl eq_refl eq_refl eq_refl eq_refl)
    as (p' & Hd & _ & Hdur & _).
  - vm_compute. split; discriminate.
  - exists p'. split; [exact Hd | exact Hdur].
Defined.

(** X3: a datagram with a preamble whose length is neither that of a
    start-up notice nor between 70 and 83, or which has the length of a
    start-up notice but not its ['V'], is a bad packet of type 2, whatever
    it contains behind the preamble. *)
Theorem other_lengths_bad (unit serial line rest : list ascii) (p0 : parser) :
  length unit = 6%nat -> length serial = 6%nat -> length line = 2%nat ->
  length (packet p0) = Z.to_nat MAX_PACKET ->
  let received := preamble unit serial line ++ rest in
  52 <= Z.of_nat (length received) ->
  ~ (70 <= Z.of_nat (length received) <= 83) ->
  (Z.of_nat (length received) = 52 -> head rest <> Some "V"%char) ->
  branch_of received p0 = BadPacket 2.
Proof.
  intros Hu Hs Hl Hpk received H52 Hout Hv. unfold branch_of.
  destruct (received_cursor received p0 Hpk) as (Hc & Hpl & Hf & _).
  assert (Hpre : length (preamble unit serial line) = 24%nat).
  { unfold preamble. rewrite !length_app. simpl. rewrite Hu, Hs, Hl. done. }
  assert (Hrl : Z.of_nat (length received) = 24 + Z.of_nat (length rest)).
  { subst received. rewrite length_app, Hpre. lia. }
  subst received. rewrite take_app_ge in Hc by (rewrite Hpre; unfold MAX_PACKET; lia).
  set (received := preamble unit serial line ++ rest) in *.
  assert (H52' : 52 <= pktlen (received_packet received p0))
    by (unfold MAX_PACKET in *; lia).
  destruct (preamble_ok unit serial line _ _ Hu Hs Hl H52' Hc)
    as (p1 & E1 & C1 & K1 & L1 & _).
  assert (Hcall : (pktlen (received_packet received p0) >=? 70)
                  && (pktlen (received_packet received p0) <=? 83) = false).
  { apply not_in_call_lengths. unfold MAX_PACKET in *. lia. }
  assert (Hnb : exists p2, is_booted p1 = (false, p2) /\
                           pktlen p2 = pktlen (received_packet received p0)).
  { unfold is_booted, c_and, c_test. rewrite L1.
    destruct (Z.eqb_spec (pktlen (received_packet received p0)) 52) as [He|];
      [|eauto].
    assert (Hn : Z.of_nat (length received) = 52)
      by (unfold MAX_PACKET in *; lia).
    specialize (Hv Hn).
    rewrite Hpre in C1.
    destruct rest as [|c rest']; [simpl in *; lia|].
    simpl in Hv.
    replace (Z.to_nat MAX_PACKET - 24)%nat with (S 230) in C1 by done.
    simpl take in C1.
    destruct (match_fail "V" [] "V"%char c [] p1 (take 230 rest') eq_refl C1)
      as (p2 & E2 & _ & _ & L2 & _); [congruence|].
    exists p2. rewrite E2. split; [done|]. congruence. }
  destruct Hnb as (p2 & E2 & L2).
  rewrite (decode_after_preamble _ p1 E1), E2.
  unfold is_start_call, is_end_call, c_and, c_or, c_test.
  rewrite L2, Hcall. simpl. by rewrite L2, Hcall.
Qed.

Lemma other_lengths_bad_witness :
  length sample_unit = 6%nat /\
  branch_of sample_other init_parser = BadPacket 2.
Proof.
  split; [reflexivity|].
  apply (other_lengths_bad sample_unit sample_unit sample_line
           (list_ascii_of_string "I S 0000 G A0 03/14 10:55 PM .") init_parser
           eq_refl eq_refl eq_refl eq_refl).
  - vm_compute. discriminate.
  - vm_compute. intros [H1 _]. apply H1. reflexivity.
  - vm_compute. discriminate.
Defined.

(** ** The field buffers keep their NUL *)

Lemma buffers_kept_refl p : buffers_kept p p.
Proof. by split_and!. Qed.

Lemma buffers_kept_trans p q r :
  buffers_kept p q -> buffers_kept q r -> buffers_kept p r.
Proof.
  intros (H1 & H2 & H3) (K1 & K2 & K3). split_and!; try congruence.
  intros f Hf. destruct (H3 f Hf) as [Hd Hl].
  destruct (K3 f ltac:(lia)) as [Kd Kl]. split; congruence.
Qed.

Lemma frame_test f : cond_frame (c_test f).
Proof. intros p. apply buffers_kept_refl. Qed.

Lemma frame_match literal : cond_frame (match_ literal).
Proof.
  intros p. unfold match_.
  destruct (match_loop_spec (list_ascii_of_string literal) (pktptr p) p)
    as (Hpk & Hpl & Hf & _).
  split_and!; try done. intros f _. by rewrite Hf.
Qed.

Lemma frame_copy dst len :
  (Z.to_nat len <= width dst)%nat -> cond_frame (copy dst len).
Proof.
  intros Hw p. unfold copy.
  destruct (copy_loop_spec (Z.to_nat len) p [])
    as (Ho & Hpk & Hpl & _ & _ & _ & Hf & _).
  destruct (copy_loop (Z.to_nat len) p []) as [out p1]. simpl in *.
  assert (Hout : length out = Z.to_nat len) by (by rewrite Ho, copied_length).
  destruct (set_field_frame dst (store_prefix out (get_field dst p1)) p1)
    as (Fpk & _ & Fpl & _).
  split_and!; try congruence.
  intros f Hlen. destruct (decide (f = dst)) as [->|Hne].
  - rewrite get_set_field_eq, Hf. unfold store_prefix.
    rewrite drop_app_ge, drop_drop, length_app, length_drop by lia.
    split; [f_equal; lia | lia].
  - by rewrite get_set_field_ne, Hf.
Qed.

Lemma frame_not a : cond_frame a -> cond_frame (c_not a).
Proof. intros Ha p. specialize (Ha p). unfold c_not. by destruct (a p). Qed.

Lemma frame_and a c : cond_frame a -> cond_frame c -> cond_frame (a &&> c).
Proof.
  intros Ha Hc p. specialize (Ha p). unfold c_and.
  destruct (a p) as [[] p1]; simpl in *; [|done].
  eapply buffers_kept_trans; [done|apply Hc].
Qed.

Lemma frame_or a c : cond_frame a -> cond_frame c -> cond_frame (a ||> c).
Proof.
  intros Ha Hc p. specialize (Ha p). unfold c_or.
  destruct (a p) as [[] p1]; simpl in *; [done|].
  eapply buffers_kept_trans; [done|apply Hc].
Qed.

Ltac frame :=
  repeat first
    [ apply frame_and | apply frame_or | apply frame_not | apply frame_test
    | apply frame_match | apply frame_copy; by vm_compute ].

Lemma decode_frame p : buffers_kept p (decode p).2.
Proof.
  assert (H1 : cond_frame bad_preamble) by (unfold bad_preamble; frame).
  assert (H2 : cond_frame is_booted) by (unfold is_booted; frame).
  assert (H3 : cond_frame is_start_call) by (unfold is_start_call; frame).
  assert (H4 : cond_frame is_end_call) by (unfold is_end_call; frame).
  unfold decode.
  specialize (H1 p). destruct (bad_preamble p) as [[] p1]; simpl in *; [done|].
  specialize (H2 p1). destruct (is_booted p1) as [[] p2]; simpl in *;
    [by eapply buffers_kept_trans|].
  specialize (H3 p2). destruct (is_start_call p2) as [[] p3]; simpl in *;
    [eauto using buffers_kept_trans|].
  specialize (H4 p3). destruct (is_end_call p3) as [[] p4]; simpl in *;
    eauto using buffers_kept_trans.
Qed.

Lemma c_str_le (a b : list ascii) :
  (length (c_str (a ++ NUL :: b)) <= length a)%nat.
Proof.
  induction a as [|c a IH]; simpl; [lia|].
  destruct (Ascii.eqb c NUL); simpl; lia.
Qed.

Lemma c_str_terminated w (l : list ascii) :
  drop w l = [NUL] -> (length (c_str l) <= w)%nat.
Proof.
  intros Hd. rewrite <- (take_drop w l), Hd.
  etrans; [apply c_str_le|]. rewrite length_take. lia.
Qed.

Lemma parser_wf_kept p p' : buffers_kept p p' -> parser_wf p -> parser_wf p'.
Proof.
  intros (Hpk & _ & Hf) [Hlen Hnul]. split; [congruence|].
  intros f. specialize (Hnul f).
  assert (Hw : (width f <= length (get_field f p))%nat).
  { apply (f_equal length) in Hnul. rewrite length_drop in Hnul.
    simpl in Hnul. lia. }
  destruct (Hf f Hw) as [-> _]. done.
Qed.

Lemma received_packet_wf received p0 :
  parser_wf p0 -> parser_wf (received_packet received p0).
Proof.
  intros [Hlen Hnul].
  destruct (received_cursor received p0 Hlen) as ([[_ Hb] _] & Hpl & Hf & _).
  split.
  - unfold received_packet, read_packet, store_prefix, MAX_PACKET in *.
    destruct p0. simpl in *.
    rewrite length_app, length_drop, !length_take. lia.
  - intros f. by rewrite Hf.
Qed.

Lemma loop_packet_parser received st st' :
  loop_packet received st = Some st' ->
  (Z.min (Z.of_nat (length received)) MAX_PACKET = 0 /\
   prs st' = set_pktlen 0 (read_packet received (prs st)).2) \/
  prs st' = (decode (received_packet received (prs st))).2.
Proof.
  unfold loop_packet, received_packet.
  destruct (read_packet received (prs st)) as [n p0] eqn:Hrp.
  assert (n = Z.min (Z.of_nat (length received)) MAX_PACKET) as Hn.
  { unfold read_packet in Hrp. destruct (prs st). by injection Hrp as <- _. }
  destruct (Z.eqb_spec n 0) as [Hz|Hnz].
  - intros [= <-]. left. simpl. split; [lia|done].
  - destruct (decode (start_parse n p0)) as [br p]. simpl.
    destruct br; try (intros [= <-]; by right).
    destruct (update_duration p (sto st)); simpl; [|done].
    intros [= <-]. by right.
Qed.

(** X4: whatever datagram arrives, the arrays of the parser keep their
    declared sizes and every field buffer keeps its terminating NUL, so
    each parsed field is a C string of at most its width (6, 6, 2, 4, 1,
    15, 15 and 15 characters). *)
Theorem fields_stay_terminated (received : list ascii) (st st' : state) :
  parser_wf (prs st) -> loop_packet received st = Some st' ->
  parser_wf (prs st') /\
  forall f, (length (c_str (get_field f (prs st'))) <= width f)%nat.
Proof.
  intros Hwf Hloop.
  assert (Hwf' : parser_wf (prs st')).
  { destruct (loop_packet_parser received st st' Hloop) as [[Hz ->]| ->].
    - pose proof (received_packet_wf received (prs st) Hwf) as [Hl Hn].
      unfold received_packet in *.
      destruct (read_packet received (prs st)) as [n p0].
      destruct p0. split; [exact Hl|]. intros f. specialize (Hn f).
      by destruct f.
    - eapply parser_wf_kept; [apply decode_frame|].
      by apply received_packet_wf. }
  split; [done|]. intros f. apply c_str_terminated, Hwf'.
Qed.

Lemma init_parser_wf : parser_wf init_parser.
Proof. split; [done|]. by intros []. Qed.

Lemma fields_stay_terminated_witness :
  parser_wf (prs init_state) /\
  exists st', loop_packet testcall_start init_state = Some st' /\
              parser_wf (prs st').
Proof.
  split; [exact init_parser_wf|].
  eexists. split; [vm_compute; reflexivity|].
  refine (proj1 (fields_stay_terminated testcall_start init_state _
                   init_parser_wf _)).
  vm_compute. reflexivity.
Defined.

(** ** The bad packet record *)

Lemma received_pktptr received p0 : pktptr (received_packet received p0) = 0.
Proof. unfold received_packet, read_packet. by destruct p0. Qed.

Lemma loop_packet_bad received st type p :
  length (packet (prs st)) = Z.to_nat MAX_PACKET ->
  received <> [] ->
  decode (received_packet received (prs st)) = (BadPacket type, p) ->
  let n := Z.min (Z.of_nat (length received)) MAX_PACKET in
  loop_packet received st
  = Some (mkState p (sto st) (nv st) (badpacket type p (bad st)) true) /\
  badpacket_count (badpacket type p (bad st)) = badpacket_count (bad st) + 1 /\
  badpacket_type (badpacket type p (bad st)) = type /\
  badpacket_length (badpacket type p (bad st)) = n /\
  take (Z.to_nat n) (badpacket_data (badpacket type p (bad st)))
  = take (Z.to_nat n) received.
Proof.
  intros Hpk Hne Hdec n.
  destruct (received_cursor received (prs st) Hpk) as ([[_ Hb] Hd] & Hpl & _).
  destruct (decode_frame (received_packet received (prs st))) as (Kpk & Kpl & _).
  rewrite Hdec in Kpk, Kpl. simpl in Kpk, Kpl. fold n in Hpl.
  assert (Hn : 0 < n).
  { subst n. destruct received; [done|]. simpl. unfold MAX_PACKET. lia. }
  split_and!; try done.
  - unfold loop_packet. unfold received_packet in Hdec, Hpl.
    destruct (read_packet received (prs st)) as [m p0].
    rewrite start_parse_pktlen in Hpl. subst m.
    destruct (Z.eqb_spec n 0); [lia|]. by rewrite Hdec.
  - simpl. congruence.
  - simpl. rewrite Kpl, Hpl, Kpk. unfold store_prefix.
    rewrite take_app_length' by (rewrite length_take; lia).
    rewrite Hpl, received_pktptr in Hd. change (Z.to_nat 0) with 0%nat in Hd.
    rewrite drop_0 in Hd. rewrite Hd.
    subst n. destruct (Z.le_gt_cases (Z.of_nat (length received)) MAX_PACKET).
    + rewrite Z.min_l by done. by rewrite !take_ge by lia.
    + rewrite Z.min_r by lia. done.
Qed.

(** X5: a datagram that [loop] does not understand is kept for the
    diagnostic display: the bad packet record counts one more, and holds
    the type of the failure, the length of the datagram (at most 255) and
    its bytes; the call list and the archive are left alone. *)
Theorem bad_packet_recorded (received : list ascii) (st : state) (type : Z) :
  length (packet (prs st)) = Z.to_nat MAX_PACKET ->
  received <> [] ->
  branch_of received (prs st) = BadPacket type ->
  let n := Z.min (Z.of_nat (length received)) MAX_PACKET in
  exists st', loop_packet received st = Some st' /\
    sto st' = sto st /\ nv st' = nv st /\
    badpacket_count (bad st') = badpacket_count (bad st) + 1 /\
    badpacket_type (bad st') = type /\
    badpacket_length (bad st') = n /\
    take (Z.to_nat n) (badpacket_data (bad st')) = take (Z.to_nat n) received.
Proof.
  intros Hpk Hne Hbr n. unfold branch_of in Hbr.
  destruct (decode (received_packet received (prs st))) as [br p] eqn:Hdec.
  simpl in Hbr. subst br.
  destruct (loop_packet_bad received st type p Hpk Hne Hdec)
    as (Hloop & Hc & Ht & Hl & Hd).
  eexists. split; [exact Hloop|]. simpl. by split_and!.
Qed.

Lemma bad_packet_recorded_witness :
  length (packet (prs init_state)) = Z.to_nat MAX_PACKET /\
  exists st', loop_packet sample_other init_state = Some st' /\
    badpacket_type (bad st') = 2.
Proof.
  split; [reflexivity|].
  destruct (bad_packet_recorded sample_other init_state 2 eq_refl)
    as (st' & Hl & _ & _ & _ & Ht & _).
  - discriminate.
  - reflexivity.
  - exists st'. split; [exact Hl | exact Ht].
Defined.

(** X6: a datagram of fewer than 52 bytes is a bad packet of type 1,
    whatever it contains (even the beginning of a good packet); it is
    recorded whole, and the call list and the archive are left alone. *)
Theorem short_datagram_bad (received : list ascii) (st : state) :
  length (packet (prs st)) = Z.to_nat MAX_PACKET ->
  0 < Z.of_nat (length received) < 52 ->
  exists st', loop_packet received st = Some st' /\
    sto st' = sto st /\ nv st' = nv st /\
    badpacket_count (bad st') = badpacket_count (bad st) + 1 /\
    badpacket_type (bad st') = 1 /\
    badpacket_length (bad st') = Z.of_nat (length received) /\
    take (length received) (badpacket_data (bad st')) = received.
Proof.
  intros Hpk Hlen.
  destruct (received_cursor received (prs st) Hpk) as (_ & Hpl & _).
  rewrite Z.min_l in Hpl by (unfold MAX_PACKET; lia).
  destruct (decode (received_packet received (prs st))) as [br p] eqn:Hdec.
  assert (br = BadPacket 1) as ->.
  { change br with (br, p).1. rewrite <- Hdec. apply decode_empty. lia. }
  destruct (loop_packet_bad received st 1 p Hpk) as (Hloop & Hc & Ht & Hl & Hd);
    [intros ->; simpl in Hlen; lia|done|].
  rewrite Z.min_l in Hl, Hd by (unfold MAX_PACKET; lia).
  rewrite Nat2Z.id, (take_ge received) in Hd by lia.
  eexists. split; [exact Hloop|]. simpl. by split_and!.
Qed.

Lemma short_datagram_bad_witness :
  0 < Z.of_nat (length sample_short) < 52 /\
  exists st', loop_packet sample_short init_state = Some st' /\
    take (length sample_short) (badpacket_data (bad st')) = sample_short.
Proof.
  split; [vm_compute; split; reflexivity|].
  destruct (short_datagram_bad sample_short init_state eq_refl)
    as (st' & Hl & _ & _ & _ & _ & _ & Hd).
  - vm_compute. split; reflexivity.
  - exists st'. split; [exact Hl | exact Hd].
Defined.

(** X7: whatever datagram [loop] processes, every byte of [packet] that
    the parsing routines read lies inside the bytes received, and inside
    the array. *)
Theorem loop_reads_in_datagram (received : list ascii) (st st' : state) :
  length (packet (prs st)) = Z.to_nat MAX_PACKET ->
  loop_packet received st = Some st' ->
  exists new, reads (prs st') = reads (prs st) ++ new /\
    Forall (fun q => 0 <= q < Z.of_nat (length received) /\ q < MAX_PACKET)
           new.
Proof.
  intros Hpk Hloop.
  destruct (loop_packet_parser received st st' Hloop) as [[_ ->]| ->].
  - exists []. rewrite app_nil_r. split; [|done].
    unfold read_packet. by destruct (prs st).
  - destruct (decode_reads_in_datagram received (prs st) Hpk)
      as (new & Hnew & Hall).
    exists new. split; [done|].
    eapply Forall_impl; [exact Hall|]. simpl. intros q [Hq Hq'].
    split; [done|].
    pose proof (received_packet_wf received (prs st)) as Hwf.
    assert (length (packet (received_packet received (prs st)))
            = Z.to_nat MAX_PACKET) as Hl.
    { unfold received_packet, read_packet, store_prefix, MAX_PACKET in *.
      destruct (prs st). simpl in *.
      rewrite length_app, length_drop, !length_take. lia. }
    rewrite Hl in Hq'. unfold MAX_PACKET in *. lia.
Qed.

Lemma loop_reads_in_datagram_witness :
  length (packet (prs init_state)) = Z.to_nat MAX_PACKET /\
  exists st' new, loop_packet testcall_start init_state = Some st' /\
    reads (prs st') = reads (prs init_state) ++ new /\
    Forall (fun q => 0 <= q < Z.of_nat (length testcall_start) /\
                     q < MAX_PACKET) new.
Proof.
  split; [reflexivity|].
  eexists.
  assert (H := fun st' => loop_reads_in_datagram testcall_start init_state st'
                            eq_refl).
  specialize (H _ ltac:(vm_compute; reflexivity)).
  destruct H as (new & Hn & Hall).
  exists new. split; [vm_compute; reflexivity|]. split; [exact Hn|exact Hall].
Defined.

(** ** Loading the archive *)

Lemma digits_small n acc :
  0 <= n < 100 -> (length (digits 10 n acc) <= 2 + length acc)%nat.
Proof.
  intros Hn. cbn [digits].
  destruct (Z.ltb_spec n 10); [simpl; lia|].
  destruct (Z.ltb_spec (n / 10) 10); [simpl; lia|].
  assert (n / 10 < 10) by (apply Z.div_lt_upper_bound; lia). lia.
Qed.

Lemma center_message_short msg :
  (length msg <= 20)%nat -> exists row, center_message msg = Some row.
Proof.
  intros Hl. unfold center_message.
  rewrite to_byte_id by lia.
  destruct (Z.leb_spec (Z.of_nat (length msg)) 20); [eauto|lia].
Qed.

Section Load.
Variable h : eeprom_hdr_t.
Variable rom : list call_record_t.
Hypothesis Hrom : Z.of_nat (length rom) = NUM_EEPROM_CALLS.
Hypothesis Hn : 0 <= hdr_num_calls h <= NUM_EEPROM_CALLS.
Hypothesis Ho : 0 <= hdr_oldest h < NUM_EEPROM_CALLS.

(** The record [i] steps after the oldest one of the archive. *)
Let src (i : Z) : call_record_t :=
  match arr_get rom ((hdr_oldest h + i) mod NUM_EEPROM_CALLS) with
  | Some r => r
  | None => empty_record
  end.

Lemma load_loop_spec (k : nat) : forall s fuel,
  (k < fuel)%nat ->
  num_calls s + Z.of_nat k = hdr_num_calls h ->
  0 <= num_calls s ->
  newest s = Z.max (num_calls s - 1) 0 ->
  length (calls s) = Z.to_nat MAX_CALLS ->
  exists s',
    eeprom_load_loop fuel h rom s
      ((hdr_oldest h + num_calls s) mod NUM_EEPROM_CALLS) = Some s' /\
    num_calls s' = hdr_num_calls h /\
    newest s' = Z.max (hdr_num_calls h - 1) 0 /\
    oldest s' = oldest s /\ displayed s' = displayed s /\
    displayed_age s' = displayed_age s /\
    length (calls s') = Z.to_nat MAX_CALLS /\
    forall i, calls_at s' i
              = if (num_calls s <=? i) && (i <? hdr_num_calls h) then src i
                else calls_at s i.
Proof.
  rewrite NUM_EEPROM_CALLS_eq in *.
  induction k as [|k IH]; intros s fuel Hfuel Hk Hj Hnew Hlen;
    (destruct fuel as [|fuel]; [lia|]); cbn [eeprom_load_loop].
  - replace (num_calls s <? hdr_num_calls h) with false
      by (symmetry; apply Z.ltb_ge; lia).
    rewrite andb_false_r. exists s. split_and!; try done; try lia.
    intros i. destruct (Z.leb_spec (num_calls s) i),
      (Z.ltb_spec i (hdr_num_calls h)); simpl; try done; lia.
  - replace (num_calls s <? hdr_num_calls h) with true
      by (symmetry; apply Z.ltb_lt; lia).
    replace (hdr_num_calls h =? 0) with false
      by (symmetry; apply Z.eqb_neq; lia).
    simpl negb. simpl andb.
    set (ndx := (hdr_oldest h + num_calls s) mod 74).
    assert (Hndx : 0 <= ndx < 74) by (apply Z.mod_pos_bound; lia).
    destruct (arr_get_is_Some rom ndx) as [r Hr]; [lia|]. rewrite Hr.
    set (w := if num_calls s >? 0 then _ else _).
    assert (Hw : w = num_calls s).
    { subst w. unfold MAX_CALLS. rewrite Z.gtb_ltb.
      destruct (Z.ltb_spec 0 (num_calls s)); [|lia].
      rewrite to_short_id by lia. rewrite Z.geb_leb.
      destruct (Z.leb_spec 200 (newest s + 1)); lia. }
    rewrite Hw. clear w Hw.
    set (s1 := mkStore _ _ _ _ _ _). rewrite NUM_EEPROM_CALLS_eq.
    assert (Hnext : (if to_size_t (to_short (ndx + 1)) >=? 74 then 0
                     else to_short (ndx + 1))
                    = (hdr_oldest h + num_calls s1) mod 74).
    { subst s1. cbn [num_calls]. rewrite !to_short_id by lia.
      rewrite to_size_t_id by lia. subst ndx.
      rewrite !add_mod_cases by lia. rewrite Z.geb_leb. zcases; lia. }
    rewrite Hnext.
    destruct (IH s1 fuel) as (s' & Hs' & Hc & Hw' & Hol & Hd & Hda & Hl & Hat).
    + lia.
    + subst s1. cbn [num_calls]. rewrite to_short_id by lia. lia.
    + subst s1. cbn [num_calls]. rewrite to_short_id by lia. lia.
    + subst s1. cbn [num_calls newest]. rewrite to_short_id by lia. lia.
    + subst s1. cbn [calls]. by rewrite arr_set_length.
    + exists s'. split_and!; try done. intros i. rewrite Hat.
      subst s1. cbn [num_calls]. rewrite to_short_id by lia.
      unfold calls_at at 1. cbn [calls].
      destruct (Z.eq_dec i (num_calls s)) as [->|Hne].
      * rewrite arr_get_set_eq by (unfold MAX_CALLS in *; lia).
        replace (num_calls s + 1 <=? num_calls s) with false
          by (symmetry; apply Z.leb_gt; lia).
        rewrite Z.leb_refl.
        replace (num_calls s <? hdr_num_calls h) with true
          by (symmetry; apply Z.ltb_lt; lia).
        simpl. unfold src. rewrite NUM_EEPROM_CALLS_eq. fold ndx.
        by rewrite Hr.
      * rewrite arr_get_set_ne by done. fold (calls_at s i).
        destruct (Z.leb_spec (num_calls s + 1) i),
          (Z.leb_spec (num_calls s) i); try lia; done.
Qed.
End Load.

Lemma held_ext {T} C (d : T) (r r' : RingStore.t T) (f : T -> T) :
  RingStore.count r' = RingStore.count r ->
  (forall k, 0 <= k < RingStore.count r ->
     RingStore.slot_at d r' ((RingStore.oldestIndex r' + k) mod C)
     = f (RingStore.slot_at d r ((RingStore.oldestIndex r + k) mod C))) ->
  RingStore.held C d r' = f <$> RingStore.held C d r.
Proof.
  intros Hc Hk. unfold RingStore.held. rewrite Hc, <- list_fmap_compose.
  apply Forall_fmap_ext_1, Forall_seqZ. intros k Hk'. simpl. apply Hk. lia.
Qed.

Lemma committed_nvm m :
  ee_hdr m = eeprom_hdr m ->
  mkNvm (ee_hdr m) (ee_hdr m) (ee_calls m) (ee_log m) = m.
Proof. destruct m. simpl. by intros ->. Qed.

Lemma load_message n :
  0 <= n < 100 ->
  exists row, center_message (print_int n
                              ++ list_ascii_of_string " calls in memory")
              = Some row.
Proof.
  intros Hn. apply center_message_short. rewrite length_app.
  unfold print_int. destruct (Z.ltb_spec n 0); [lia|].
  pose proof (digits_small n [] Hn). simpl in *. lia.
Qed.

(** The loop of [eeprom_load] on a sound archive. *)
Lemma load_loop_store (m : nvm) (s : store) :
  archive_inv m -> length (calls s) = Z.to_nat MAX_CALLS ->
  exists s',
    eeprom_load_loop (Z.to_nat 32768) (eeprom_hdr m) (ee_calls m)
      (mkStore (calls s) 0 0 0 (displayed s) (displayed_age s))
      (hdr_oldest (eeprom_hdr m)) = Some s' /\
    num_calls s' = Z.of_nat (length (archive_held m)) /\
    0 <= num_calls s' <= NUM_EEPROM_CALLS /\
    store_inv s' /\ oldest s' = 0 /\
    store_held s' = archive_held m /\
    displayed s' = displayed s /\ displayed_age s' = displayed_age s.
Proof.
  intros Hinv Hlen.
  pose proof Hinv as (Hrom & Hn & Ho & _). simpl in Hrom, Hn, Ho.
  set (s0 := mkStore _ _ _ _ _ _).
  destruct (load_loop_spec (eeprom_hdr m) (ee_calls m) Hrom Hn Ho
              (Z.to_nat (hdr_num_calls (eeprom_hdr m))) s0 (Z.to_nat 32768))
    as (s' & Hs' & Hc & Hw & Hol & Hd & Hda & Hl & Hat).
  { rewrite NUM_EEPROM_CALLS_eq in Hn. lia. }
  { simpl. lia. }
  { simpl. lia. }
  { done. }
  { done. }
  cbn [num_calls s0] in Hs'. rewrite Z.add_0_r, Z.mod_small in Hs' by done.
  exists s'.
  assert (Hheld : store_held s' = archive_held m).
  { unfold store_held, archive_held.
    rewrite <- (list_fmap_id (RingStore.held NUM_EEPROM_CALLS _ _)).
    unfold RingStore.held. cbn [store_ring archive_ring RingStore.count
      RingStore.oldestIndex]. rewrite Hc, Hol. cbn [oldest s0].
    rewrite <- list_fmap_compose.
    apply Forall_fmap_ext_1, Forall_seqZ. intros k Hk. simpl.
    unfold RingStore.slot_at. cbn [RingStore.slots].
    rewrite Z.mod_small
      by (rewrite NUM_EEPROM_CALLS_eq in Hn; unfold MAX_CALLS; lia).
    change (0 + k) with k. change (calls_at s' k = calls_at
      (mkStore (ee_calls m) 0 0 0 0 0)
      ((hdr_oldest (eeprom_hdr m) + k) mod NUM_EEPROM_CALLS)).
    rewrite Hat. cbn [num_calls s0].
    replace (0 <=? k) with true by (symmetry; apply Z.leb_le; lia).
    replace (k <? hdr_num_calls (eeprom_hdr m)) with true
      by (symmetry; apply Z.ltb_lt; lia).
    done. }
  split_and!; try done; try lia.
  - rewrite <- Hheld. unfold store_held. rewrite held_length by (simpl; lia).
    done.
  - rewrite NUM_EEPROM_CALLS_eq in Hn. unfold store_inv, RingStore.inv.
    cbn [store_ring RingStore.slots RingStore.count RingStore.oldestIndex
         RingStore.newestIndex].
    rewrite Hl, Hc, Hw, Hol. cbn [oldest s0]. unfold MAX_CALLS.
    split_and!; try lia.
    intros Hpos. rewrite Z.mod_small by lia. lia.
Qed.

(** X8: when the archive is sound and its header carries the
    identification, a start-up with no button held down brings the header
    back into memory, writes nothing, and fills the call list with the
    calls held in the archive, the oldest at index 0; the display says how
    many there are. *)
Theorem eeprom_load_restores (m : nvm) (s : store) :
  archive_inv m -> header_committed m ->
  length (calls s) = Z.to_nat MAX_CALLS ->
  exists s' row,
    eeprom_load false false (power_cycle m) s = Some (m, s', [(1, row)]) /\
    center_message (print_int (Z.of_nat (length (archive_held m)))
                    ++ list_ascii_of_string " calls in memory") = Some row /\
    store_inv s' /\ oldest s' = 0 /\
    store_held s' = archive_held m /\
    displayed s' = displayed s /\ displayed_age s' = displayed_age s.
Proof.
  intros Hinv [Hcom Hid] Hlen.
  destruct (load_loop_store m s Hinv Hlen)
    as (s' & Hs' & Hc & Hn & Hi & Ho & Hh & Hd & Hda).
  unfold eeprom_load, power_cycle. cbn [ee_hdr ee_calls ee_log].
  rewrite Hcom, Hid. cbn [negb orb]. rewrite Hs'. cbn [mbind option_bind].
  destruct (load_message (num_calls s')) as [row Hrow].
  { rewrite NUM_EEPROM_CALLS_eq in Hn. lia. }
  rewrite Hrow. cbn [mbind option_bind].
  exists s', row. rewrite <- Hcom at 1 2. rewrite committed_nvm by done.
  rewrite <- Hc. done.
Qed.

Lemma eeprom_load_restores_witness :
  header_committed two_calls.2 /\
  exists s' row,
    eeprom_load false false (power_cycle two_calls.2) init_store
    = Some (two_calls.2, s', [(1, row)]) /\
    store_held s' = archive_held two_calls.2.
Proof.
  assert (Hc : header_committed two_calls.2)
    by (split; vm_compute; reflexivity).
  split; [exact Hc|].
  destruct (eeprom_load_restores two_calls.2 init_store) as
    (s' & row & Hl & _ & _ & _ & Hh & _).
  - exact (proj2 (proj2 (proj2 (start_calls_rings
             [parser_with_line "01"; parser_with_line "03"]
             init_store init_nvm init_store_inv init_nvm_inv)))).
  - exact Hc.
  - reflexivity.
  - exists s', row. split; [exact Hl | exact Hh].
Defined.

(** X9: when the archive does not carry the identification, or a button
    is held down at start-up, [eeprom_load] starts a new archive: the
    header written holds no calls, no network name or password and the
    line names ["line 1"] to ["line 8"]; the record slots and the call
    list in memory are not touched. *)
Theorem eeprom_load_initializes (dn up : bool) (m : nvm) (s : store) :
  memcmp_eq (hdr_id (ee_hdr m)) ID_STRING 8 = false \/ dn = true \/ up = true ->
  Z.of_nat (length (ee_calls m)) = NUM_EEPROM_CALLS ->
  exists m' msgs,
    eeprom_load dn up m s = Some (m', s, msgs) /\
    header_committed m' /\ archive_inv m' /\ archive_held m' = [] /\
    ee_calls m' = ee_calls m /\
    ee_log m' = ee_log m ++ [WriteHeader; Commit] /\
    hdr_options (eeprom_hdr m') = 0 /\
    c_str (hdr_ssid (eeprom_hdr m')) = [] /\
    c_str (hdr_password (eeprom_hdr m')) = [] /\
    c_str <$> hdr_line_names (eeprom_hdr m')
    = list_ascii_of_string <$> default_names.
Proof.
  intros Hcase Hrom. unfold eeprom_load.
  assert (negb (memcmp_eq (hdr_id (ee_hdr m)) ID_STRING 8) || dn || up = true)
    as ->.
  { destruct Hcase as [->|[->| ->]]; [done|by rewrite orb_true_r..]. }
  eexists _, _. split; [reflexivity|].
  split_and!; done.
Qed.

Lemma eeprom_load_initializes_witness :
  exists m' msgs,
    eeprom_load true false two_calls.2 two_calls.1
    = Some (m', two_calls.1, msgs) /\
    archive_held m' = [].
Proof.
  destruct (eeprom_load_initializes true false two_calls.2 two_calls.1)
    as (m' & msgs & Hl & _ & _ & Hh & _).
  - right. left. reflexivity.
  - reflexivity.
  - exists m', msgs. split; [exact Hl | exact Hh].
Defined.

(** ** Restarting *)

Lemma lastn_fmap {A B} (f : A -> B) n (l : list A) :
  lastn n (f <$> l) = f <$> lastn n l.
Proof. unfold lastn. by rewrite fmap_drop, length_fmap. Qed.

Lemma lastn_lastn {A} a b (l : list A) :
  0 <= a <= b -> lastn a (lastn b l) = lastn a l.
Proof.
  intros Hab. unfold lastn. rewrite drop_drop, length_drop. f_equal. lia.
Qed.

(** Setting a duration is not seen once the durations are dropped. *)
Lemma with_seconds_held s i seconds :
  store_inv s ->
  set_seconds 0 <$> store_held (with_seconds s i seconds)
  = set_seconds 0 <$> store_held s.
Proof.
  intros (Hlen & _). simpl in Hlen.
  unfold store_held, RingStore.held. rewrite <- !list_fmap_compose.
  apply Forall_fmap_ext_1, Forall_seqZ. intros k Hk. simpl.
  unfold RingStore.slot_at. cbn [store_ring RingStore.slots
    RingStore.oldestIndex with_seconds calls oldest].
  set (j := (oldest s + k) mod MAX_CALLS).
  assert (Hj : 0 <= j < MAX_CALLS) by (apply Z.mod_pos_bound; done).
  destruct (Z.eq_dec i j) as [->|Hne].
  - rewrite arr_get_set_eq by lia. unfold calls_at.
    by destruct (arr_get (calls s) j).
  - by rewrite arr_get_set_ne.
Qed.

Lemma update_duration_shape p s :
  store_inv s ->
  exists s', update_duration p s = Some s' /\
    (s' = s \/ exists i seconds, s' = with_seconds s i seconds).
Proof.
  intros Hinv. unfold update_duration.
  destruct (sscanf_d (duration p)) as [v|]; [|eauto].
  destruct (Z.gtb_spec (num_calls s) 0) as [Hc|]; [|eauto].
  pose proof Hinv as (_ & Hcnt & _ & Hw & _ & Hpos). simpl in Hcnt, Hw, Hpos.
  destruct (update_duration_loop_total s (to_short v) (parse_phoneline p) Hinv
              (Z.to_nat (num_calls s - 1)) (Z.to_nat MAX_CALLS))
    as (s' & Hs' & Hcase); [unfold MAX_CALLS in *; lia..|].
  rewrite Z2Nat.id in Hs' by lia.
  replace (oldest s + (num_calls s - 1)) with (oldest s + num_calls s - 1)
    in Hs' by lia.
  rewrite <- Hpos in Hs' by lia.
  exists s'. split; [done|].
  destruct Hcase as [->|[i ->]]; eauto.
Qed.

Lemma run_packets_snoc pkts pk st :
  run_packets (pkts ++ [pk]) st
  = (st1 ← run_packets pkts st; loop_packet pk st1).
Proof. unfold run_packets. by rewrite foldl_snoc. Qed.

(** What one packet does to the two stores. *)
Lemma loop_packet_stores received st st' :
  store_inv (sto st) ->
  loop_packet received st = Some st' ->
  (nv st' = nv st /\
   (sto st' = sto st \/ sto st' = show_newest_call (sto st) \/
    exists i seconds, sto st' = with_seconds (sto st) i seconds)) \/
  (exists p, sto st' = show_newest_call (add_call p (sto st)) /\
             nv st' = eeprom_add_call (add_call p (sto st)) (nv st)).
Proof.
  intros Hinv. unfold loop_packet.
  destruct (read_packet received (prs st)) as [n p0].
  destruct (n =? 0); [intros [= <-]; left; simpl; eauto|].
  destruct (decode (start_parse n p0)) as [br p].
  destruct br as [type| | |].
  - intros [= <-]. left. simpl. eauto.
  - intros [= <-]. left. simpl. eauto.
  - intros [= <-]. right. exists p. simpl. eauto.
  - destruct (update_duration_shape p (sto st) Hinv) as (s' & Hs' & Hcase).
    rewrite Hs'. simpl. intros [= <-]. left. simpl.
    destruct Hcase as [->|(i & sec & ->)]; eauto 6.
Qed.

Lemma show_newest_call_held s : store_held (show_newest_call s) = store_held s.
Proof. unfold store_held. by rewrite show_newest_call_ring. Qed.

Lemma loop_packet_follows received st st' :
  store_inv (sto st) -> archive_inv (nv st) -> header_committed (nv st) ->
  archive_follows st ->
  loop_packet received st = Some st' ->
  store_inv (sto st') /\ archive_inv (nv st') /\ header_committed (nv st') /\
  archive_follows st'.
Proof.
  intros Hs Hm Hc Hf Hloop. unfold archive_follows in *.
  destruct (loop_packet_stores received st st' Hs Hloop)
    as [[-> Hcase]|(p & -> & ->)].
  - destruct Hcase as [->|[->|(i & sec & ->)]].
    + done.
    + rewrite show_newest_call_held. split_and!; try done.
      by apply show_newest_call_inv.
    + split_and!; try done; [by apply with_seconds_inv|].
      by rewrite <- lastn_fmap, with_seconds_held, lastn_fmap.
  - split_and!.
    + by apply show_newest_call_inv, add_call_inv.
    + by apply eeprom_add_call_inv.
    + destruct Hc as [Hc Hid].
      destruct (eeprom_add_call_effect (add_call p (sto st)) (nv st))
        as (_ & _ & He). split; [done|].
      unfold eeprom_add_call.
      by destruct (if hdr_num_calls (eeprom_hdr (nv st)) =? 0 then _ else _)
        as [[n o] w].
    + rewrite eeprom_add_call_held, add_call_newest by done.
      rewrite show_newest_call_held. unfold store_held at 1.
      rewrite add_call_append by done.
      rewrite (held_append MAX_CALLS empty_record) by done.
      fold (store_held (sto st)). rewrite Hf.
      rewrite lastn_lastn by (rewrite NUM_EEPROM_CALLS_eq; unfold MAX_CALLS; lia).
      rewrite <- !lastn_fmap, fmap_app. simpl.
      change (set_seconds 0 (call_of p)) with (call_of p).
      rewrite lastn_fmap. rewrite <- (lastn_fmap (set_seconds 0)).
      apply lastn_snoc_lastn. by rewrite NUM_EEPROM_CALLS_eq.
Qed.

(** X10: the archive follows the call list: after any datagrams, a
    restart (a power cycle, then a start-up with no button held down)
    brings back the last 74 calls of the call list as it was, in their
    order and without their durations. *)
Theorem restart_keeps_last_calls (pkts : list (list ascii)) (st st' : state) :
  store_inv (sto st) -> archive_inv (nv st) -> header_committed (nv st) ->
  archive_follows st ->
  run_packets pkts st = Some st' ->
  exists s' row,
    eeprom_load false false (power_cycle (nv st')) init_store
    = Some (nv st', s', [(1, row)]) /\
    store_inv s' /\
    store_held s'
    = set_seconds 0 <$> lastn NUM_EEPROM_CALLS (store_held (sto st')).
Proof.
  intros Hs Hm Hc Hf Hrun.
  assert (Hall : store_inv (sto st') /\ archive_inv (nv st') /\
                 header_committed (nv st') /\ archive_follows st').
  { revert st' Hrun. induction pkts as [|pk pkts IH] using rev_ind;
      intros st' Hrun.
    - injection Hrun as <-. done.
    - rewrite run_packets_snoc in Hrun.
      destruct (run_packets pkts st) as [st1|]; [|done]. simpl in Hrun.
      destruct (IH st1 eq_refl) as (? & ? & ? & ?).
      by apply (loop_packet_follows pk st1). }
  destruct Hall as (Hs' & Hm' & Hc' & Hf').
  destruct (load_loop_store (nv st') init_store Hm' eq_refl)
    as (s' & Hl & _ & Hn & Hi & _ & Hh & _).
  destruct (load_message (num_calls s')) as [row Hrow].
  { rewrite NUM_EEPROM_CALLS_eq in Hn. lia. }
  destruct Hc' as [Hcom Hid].
  exists s', row. split_and!; try done; [|by rewrite Hh].
  unfold eeprom_load, power_cycle. cbn [ee_hdr ee_calls ee_log].
  rewrite Hcom, Hid. cbn [negb orb].
  cbn [displayed displayed_age init_store] in Hl |- *.
  rewrite Hl. cbn [mbind option_bind]. rewrite Hrow. cbn [mbind option_bind].
  rewrite <- Hcom at 1 2. by rewrite committed_nvm.
Qed.

Lemma restart_keeps_last_calls_witness :
  archive_follows init_state /\
  exists st' s' row,
    run_packets [testcall_start; testcall_end] init_state = Some st' /\
    eeprom_load false false (power_cycle (nv st')) init_store
    = Some (nv st', s', [(1, row)]) /\
    store_held s'
    = set_seconds 0 <$> lastn NUM_EEPROM_CALLS (store_held (sto st')).
Proof.
  assert (Hf : archive_follows init_state) by (vm_compute; reflexivity).
  assert (Hc : header_committed (nv init_state))
    by (split; vm_compute; reflexivity).
  assert (Hrun : exists st',
             run_packets [testcall_start; testcall_end] init_state = Some st')
    by (eexists; vm_compute; reflexivity).
  destruct Hrun as [st' Hrun].
  split; [exact Hf|].
  destruct (restart_keeps_last_calls [testcall_start; testcall_end]
              init_state st' init_store_inv init_nvm_inv Hc Hf Hrun)
    as (s' & row & Hl & _ & Hh).
  exists st', s', row. split; [exact Hrun|]. split; [exact Hl | exact Hh].
Defined.

(** ** The call on display *)

Lemma display_ok_show_newest s : store_inv s -> display_ok (show_newest_call s).
Proof.
  intros Hinv. split; [by apply show_newest_call_inv|].
  destruct Hinv as (_ & _ & _ & Hw & _). simpl in Hw.
  unfold show_newest_call, display_call.
  destruct (Z.gtb_spec (num_calls s) 0); [|lia].
  cbn [num_calls displayed displayed_age newest]. rewrite Z.eqb_refl.
  intros _. split; [lia|]. unfold back_from_newest. cbn [newest].
  rewrite Z.sub_0_r, Z.mod_small; done.
Qed.

Lemma display_ok_with_seconds s i seconds :
  display_ok s -> display_ok (with_seconds s i seconds).
Proof.
  intros [Hinv Hd]. split; [by apply with_seconds_inv|].
  pose proof Hinv as (_ & Hc & _ & Hw & _). simpl in Hc, Hw.
  unfold with_seconds, back_from_newest in *.
  cbn [num_calls displayed displayed_age newest]. intros Hpos.
  destruct (Hd Hpos) as [Ha Hdi].
  destruct (Z.eqb_spec (displayed s) i) as [<-|]; [|done].
  destruct (Z.eqb_spec (displayed s) (newest s)) as [He|]; [|done].
  simpl. split; [lia|]. rewrite He. rewrite Z.sub_0_r, Z.mod_small; done.
Qed.

(** One push of the upper button shows the call before the one on
    display, unless that is the oldest. *)
Lemma push_up_spec s :
  display_ok s -> 0 < num_calls s ->
  push_up s
  = if displayed_age s <? num_calls s
    then mkStore (calls s) (num_calls s) (oldest s) (newest s)
                 (back_from_newest s (displayed_age s)) (displayed_age s + 1)
    else s.
Proof.
  intros [Hinv Hd] Hpos. destruct (Hd Hpos) as [Ha Hdi].
  pose proof (back_from_newest_idx s (num_calls s - 1) Hinv Hpos) as Hold.
  pose proof Hinv as (_ & Hc & Ho & Hw & _). simpl in Hc, Ho, Hw.
  unfold push_up, scroll. cbn [andb].
  destruct (Z.gtb_spec (num_calls s) 0); [|lia]. cbn [andb].
  unfold back_from_newest, MAX_CALLS in *.
  replace (oldest s + (num_calls s - 1 - (num_calls s - 1))) with (oldest s)
    in Hold by lia.
  rewrite (Z.mod_small (oldest s)) in Hold by done.
  destruct (Z.ltb_spec (displayed_age s) (num_calls s)) as [Hlt|Hge].
  - destruct (Z.eqb_spec (displayed s) (oldest s)) as [He|Hne].
    { exfalso. rewrite Hdi, <- Hold in He.
      revert He. Z.div_mod_to_equations. lia. }
    cbn [negb]. unfold display_call. cbn [calls num_calls oldest newest
      displayed_age].
    assert (Hd1 : (if to_short (displayed s - 1) <? 0 then 200 - 1
                   else to_short (displayed s - 1))
                  = (newest s - displayed_age s) mod 200).
    { assert (0 <= displayed s < 200)
        by (rewrite Hdi; apply Z.mod_pos_bound; lia).
      rewrite to_short_id by lia.
      destruct (Z.ltb_spec (displayed s - 1) 0);
        revert Hdi; Z.div_mod_to_equations; lia. }
    rewrite Hd1.
    destruct (Z.eqb_spec ((newest s - displayed_age s) mod 200) (newest s))
      as [He|_].
    { exfalso. revert He. Z.div_mod_to_equations. lia. }
    rewrite to_short_id by lia. done.
  - assert (displayed_age s = num_calls s) as Heq by lia.
    rewrite Heq in Hdi. rewrite <- Hdi in Hold. rewrite Hold, Z.eqb_refl.
    cbn [negb andb]. done.
Qed.

(** One push of the lower button shows the call after the one on display,
    unless that is the newest. *)
Lemma push_dn_spec s :
  display_ok s -> 0 < num_calls s ->
  push_dn s
  = if 1 <? displayed_age s
    then mkStore (calls s) (num_calls s) (oldest s) (newest s)
                 (back_from_newest s (displayed_age s - 2))
                 (displayed_age s - 1)
    else s.
Proof.
  intros [Hinv Hd] Hpos. destruct (Hd Hpos) as [Ha Hdi].
  pose proof Hinv as (_ & Hc & Ho & Hw & _). simpl in Hc, Ho, Hw.
  unfold push_dn, scroll. cbn [andb].
  destruct (Z.gtb_spec (num_calls s) 0); [|lia]. cbn [andb].
  unfold back_from_newest, MAX_CALLS in *.
  destruct (Z.ltb_spec 1 (displayed_age s)) as [Hlt|Hge].
  - destruct (Z.eqb_spec (displayed s) (newest s)) as [He|Hne].
    { exfalso. rewrite Hdi in He. revert He. Z.div_mod_to_equations. lia. }
    cbn [negb]. unfold display_call. cbn [calls num_calls oldest newest
      displayed_age].
    assert (Hd1 : (if to_short (displayed s + 1) >=? 200 then 0
                   else to_short (displayed s + 1))
                  = (newest s - (displayed_age s - 2)) mod 200).
    { assert (0 <= displayed s < 200)
        by (rewrite Hdi; apply Z.mod_pos_bound; lia).
      rewrite to_short_id by lia. rewrite Z.geb_leb.
      destruct (Z.leb_spec 200 (displayed s + 1));
        revert Hdi; Z.div_mod_to_equations; lia. }
    rewrite Hd1. rewrite to_short_id by lia.
    destruct (Z.eqb_spec ((newest s - (displayed_age s - 2)) mod 200)
                         (newest s)) as [He|Hne'].
    + assert (displayed_age s = 2)
        by (revert He; Z.div_mod_to_equations; lia).
      f_equal. lia.
    + done.
  - assert (displayed_age s = 1) as Heq by lia.
    rewrite Heq in Hdi. change (1 - 1) with 0 in Hdi.
    rewrite Z.sub_0_r, Z.mod_small in Hdi by done.
    rewrite Hdi, Z.eqb_refl. cbn [negb andb]. done.
Qed.

Lemma scroll_split up dn s :
  scroll up dn s
  = (if dn then push_dn else id) ((if up then push_up else id) s).
Proof.
  unfold push_up, push_dn, scroll.
  destruct up, dn; cbn [andb id]; try done;
    repeat match goal with |- context [if ?c then _ else _] =>
      destruct c end; done.
Qed.

Lemma display_ok_push_up s : display_ok s -> display_ok (push_up s).
Proof.
  intros Hok. destruct (Z.lt_ge_cases 0 (num_calls s)) as [Hpos|Hz].
  - rewrite push_up_spec by done. destruct Hok as [Hinv Hd].
    destruct (Hd Hpos) as [Ha Hdi].
    destruct (Z.ltb_spec (displayed_age s) (num_calls s)); [|done].
    split; [done|]. cbn [num_calls displayed displayed_age].
    intros _. split; [lia|]. unfold back_from_newest. cbn [newest].
    f_equal. lia.
  - unfold push_up, scroll. cbn [andb].
    destruct (Z.gtb_spec (num_calls s) 0); [lia|]. done.
Qed.

Lemma display_ok_push_dn s : display_ok s -> display_ok (push_dn s).
Proof.
  intros Hok. destruct (Z.lt_ge_cases 0 (num_calls s)) as [Hpos|Hz].
  - rewrite push_dn_spec by done. destruct Hok as [Hinv Hd].
    destruct (Hd Hpos) as [Ha Hdi].
    destruct (Z.ltb_spec 1 (displayed_age s)); [|done].
    split; [done|]. cbn [num_calls displayed displayed_age].
    intros _. split; [lia|]. unfold back_from_newest. cbn [newest].
    f_equal. lia.
  - unfold push_dn, scroll. cbn [andb].
    destruct (Z.gtb_spec (num_calls s) 0); [lia|]. done.
Qed.

Lemma display_ok_scroll up dn s : display_ok s -> display_ok (scroll up dn s).
Proof.
  intros Hok. rewrite scroll_split.
  assert (H1 : display_ok ((if up then push_up else id) s))
    by (destruct up; [by apply display_ok_push_up|done]).
  destruct dn; [by apply display_ok_push_dn|done].
Qed.

Lemma badpacket_display_store b s r :
  badpacket_display b s = Some r -> r.2 = show_newest_call s.
Proof.
  unfold badpacket_display. destruct (badpacket_count b =? 0).
  - by intros [= <-].
  - destruct (badpacket_pages _ b 0); [|done]. by intros [= <-].
Qed.

(** Whatever the buttons do, a call of [process_scroll_buttons] that
    returns has scrolled, and after a double push shown the newest call;
    the parser and the bad packet record are as before. *)
Lemma process_scroll_buttons_store up dn dn_pushes cfg x y :
  process_scroll_buttons up dn dn_pushes cfg x = Some y ->
  exists u d,
    (sto y.1 = scroll u d (sto x.1) \/
     sto y.1 = show_newest_call (scroll u d (sto x.1))) /\
    prs y.1 = prs x.1 /\ bad y.1 = bad x.1.
Proof.
  unfold process_scroll_buttons.
  destruct (switch_push up _ _) as [r1|]; [|done]. cbn [mbind option_bind].
  destruct (switch_push dn _ _) as [r2|]; [|done]. cbn [mbind option_bind].
  intros Hy. exists r1.1.1, r2.1.1.
  destruct (double_button_push r2.1.2).
  - destruct (switch_pushed_time r2.1.2 >? 3000).
    + destruct (badpacket_display _ _) as [r|] eqn:Hr; [|done].
      cbn [mbind option_bind] in Hy.
      destruct (_ <=? _)%nat; [|done]. injection Hy as <-.
      cbn [fst snd sto prs bad]. split_and!; try done. right.
      by apply badpacket_display_store in Hr.
    + destruct (run_configuration _ cfg) as [c|]; [|done].
      cbn [mbind option_bind] in Hy. injection Hy as <-.
      cbn [fst snd sto prs bad]. split_and!; try done. by right.
  - injection Hy as <-. cbn [fst snd sto prs bad]. split_and!; try done.
    by left.
Qed.

(** With each button up, or pushed and released alone, the call returns
    and has only scrolled. *)
Lemma process_scroll_buttons_single up dn dn_pushes cfg st cg :
  single up -> single dn ->
  process_scroll_buttons up dn dn_pushes cfg (st, cg)
  = Some (mkState (prs st) (scroll (pushed up) (pushed dn) (sto st)) (nv st)
                  (bad st) (backlight_on st || pushed up || pushed dn), cg).
Proof.
  intros [->|[ms ->]] [->|[ms' ->]]; unfold process_scroll_buttons;
    cbn [switch_push mbind option_bind fst snd double_button_push orb pushed];
    by rewrite ?orb_false_r, ?orb_true_r.
Qed.

Lemma join_network_store link m cg n s r :
  join_network link m cg n s = Some r -> r.1.2 = show_newest_call s.
Proof.
  unfold join_network.
  destruct (center_message (list_ascii_of_string "connecting")); [|done].
  cbn [mbind option_bind]. destruct link as [rounds|]; [|done].
  cbn [mbind option_bind].
  destruct (join_network_loop rounds 0 _ _) as [r0|]; [|done].
  cbn [mbind option_bind].
  destruct (center_message []); [|done]. cbn [mbind option_bind].
  destruct (center_message (_ ++ _)); [|done]. cbn [mbind option_bind].
  by intros [= <-].
Qed.

(** The test of the network in [loop] leaves the call list as it is, or
    shows the newest call; the parser and the bad packet record are as
    before. *)
Lemma loop_network_store wifi x y :
  loop_network wifi x = Some y ->
  (sto y.1.1 = sto x.1.1 \/ sto y.1.1 = show_newest_call (sto x.1.1)) /\
  prs y.1.1 = prs x.1.1 /\ bad y.1.1 = bad x.1.1.
Proof.
  unfold loop_network. destruct wifi as [link|].
  - destruct (join_network link _ _ _ _) as [r|] eqn:Hr; [|done].
    cbn [mbind option_bind]. intros [= <-]. cbn [fst snd sto prs bad].
    split_and!; try done. right. by apply join_network_store in Hr.
  - intros [= <-]. split_and!; try done. by left.
Qed.

Lemma display_ok_packet received st st' :
  display_ok (sto st) -> loop_packet received st = Some st' ->
  display_ok (sto st').
Proof.
  intros Hok Hloop. pose proof Hok as [Hinv _].
  destruct (loop_packet_stores received st st' Hinv Hloop)
    as [[_ Hcase]|(p & -> & _)].
  - destruct Hcase as [->|[->|(i & sec & ->)]]; [done| |].
    + by apply display_ok_show_newest.
    + by apply display_ok_with_seconds.
  - by apply display_ok_show_newest, add_call_inv.
Qed.

(** The call on display is the held call that its number tells. *)
Lemma displayed_held s :
  display_ok s -> 0 < num_calls s ->
  store_held s !! Z.to_nat (num_calls s - displayed_age s)
  = Some (calls_at s (displayed s)).
Proof.
  intros [Hinv Hd] Hpos. destruct (Hd Hpos) as [Ha Hdi].
  unfold store_held, RingStore.held. rewrite list_lookup_fmap.
  rewrite lookup_seqZ_lt by (simpl; lia). simpl.
  rewrite Z2Nat.id by lia. f_equal.
  rewrite Hdi, back_from_newest_idx by done.
  unfold RingStore.slot_at, calls_at. simpl.
  replace (0 + (num_calls s - displayed_age s))
    with (num_calls s - 1 - (displayed_age s - 1)) by lia.
  done.
Qed.

Lemma loop_packet_returns received st :
  store_inv (sto st) -> exists st', loop_packet received st = Some st'.
Proof.
  intros Hinv. unfold loop_packet.
  destruct (read_packet received (prs st)) as [n p0].
  destruct (n =? 0); [eauto|].
  destruct (decode (start_parse n p0)) as [br p].
  destruct br as [type| | |]; eauto.
  destruct (update_duration_total p (sto st) Hinv) as (s' & -> & _).
  simpl. eauto.
Qed.

(** X11: a round of [loop] is [process_scroll_buttons], the test of the
    network with [join_network], and then a datagram if there is one.
    The first two wait: for a button to be released, for the dialogues
    that a double push starts, for the network to connect.  Whenever they
    return, the packet part returns too, and the call on display is a held
    call of the call list with the number shown being its age: call
    number [k] is the [k]-th newest.  With each button up, or pushed and
    released alone, and the network connected, the first two parts do
    return, and the buttons have only scrolled.  With a button that is
    not released, or a network that never connects, the round does not
    return. *)
Theorem displayed_call_is_held (up dn : push) (dn_pushes : nat)
    (cfg : config_input)
    (wifi : option (option (list (option config_input))))
    (received : list ascii) (st : state) (cg : Z * Z) (n : net) :
  display_ok (sto st) ->
  (forall x1 x2,
     process_scroll_buttons up dn dn_pushes cfg (st, cg) = Some x1 ->
     loop_network wifi (x1, n) = Some x2 ->
     exists st',
       loop_packet received x2.1.1 = Some st' /\
       display_ok (sto st') /\
       (0 < num_calls (sto st') ->
        store_held (sto st')
          !! Z.to_nat (num_calls (sto st') - displayed_age (sto st'))
        = Some (calls_at (sto st') (displayed (sto st'))))) /\
  (single up -> single dn -> wifi = None ->
   exists x1,
     process_scroll_buttons up dn dn_pushes cfg (st, cg) = Some x1 /\
     loop_network wifi (x1, n) = Some (x1, n) /\
     sto x1.1 = scroll (pushed up) (pushed dn) (sto st)) /\
  (up = Held \/ dn = Held ->
   process_scroll_buttons up dn dn_pushes cfg (st, cg) = None) /\
  (wifi = Some None -> forall x1, loop_network wifi (x1, n) = None).
Proof.
  intros Hok. split_and!.
  - intros x1 x2 Hb Hn.
    destruct (process_scroll_buttons_store _ _ _ _ _ _ Hb)
      as (u & d & Hs1 & _).
    cbn [fst] in Hs1.
    pose proof (display_ok_scroll u d _ Hok) as Hsc.
    assert (Hok1 : display_ok (sto x1.1)).
    { destruct Hs1 as [H|H]; rewrite H; [done|].
      apply display_ok_show_newest. by destruct Hsc. }
    destruct (loop_network_store _ _ _ Hn) as (Hs2 & _).
    cbn [fst] in Hs2.
    assert (Hok2 : display_ok (sto x2.1.1)).
    { destruct Hs2 as [H|H]; rewrite H; [done|].
      apply display_ok_show_newest. by destruct Hok1. }
    destruct (loop_packet_returns received x2.1.1) as [st' Hloop];
      [by destruct Hok2|].
    pose proof (display_ok_packet received _ st' Hok2 Hloop) as Hok'.
    exists st'. split_and!; try done. by apply displayed_held.
  - intros Hu Hd ->. eexists. split_and!.
    + by apply process_scroll_buttons_single.
    + done.
    + done.
  - unfold process_scroll_buttons. intros [-> | ->]; [done|].
    by destruct (switch_push up _ _).
  - intros -> x1. unfold loop_network, join_network.
    by destruct (center_message _).
Qed.

Lemma init_display_ok : display_ok init_store.
Proof. split; [apply init_store_inv|]. simpl. lia. Qed.

(** The upper button pushed for 50 ms, then the first test call. *)
Lemma displayed_call_is_held_witness :
  display_ok (sto init_state) /\
  exists x1 st',
    process_scroll_buttons (Pushed false 50) Idle 0 sample_config
      (init_state, (0, 0)) = Some x1 /\
    loop_packet testcall_start x1.1 = Some st' /\
    display_ok (sto st').
Proof.
  split; [exact init_display_ok|].
  pose proof (displayed_call_is_held (Pushed false 50) Idle 0 sample_config
                None testcall_start init_state (0, 0) (mkNet 0 0)
                init_display_ok) as (Hall & Hret & _).
  destruct Hret as (x1 & Hb & Hn & _).
  - right. by exists 50.
  - by left.
  - reflexivity.
  - destruct (Hall x1 (x1, mkNet 0 0) Hb Hn) as (st' & Hl & Hok & _).
    exists x1, st'. split; [exact Hb|]. split; [exact Hl | exact Hok].
Defined.


Lemma push_dn_up s :
  display_ok s -> 0 < num_calls s -> displayed_age s < num_calls s ->
  push_dn (push_up s) = s.
Proof.
  intros Hok Hpos Hlt. pose proof (display_ok_push_up s Hok) as Hup.
  rewrite push_up_spec in * by done.
  destruct (Z.ltb_spec (displayed_age s) (num_calls s)); [|lia].
  rewrite push_dn_spec by done. cbn [displayed_age calls num_calls oldest newest].
  destruct Hok as [_ Hd]. destruct (Hd Hpos) as [Ha Hdi].
  destruct (Z.ltb_spec 1 (displayed_age s + 1)); [|lia].
  unfold back_from_newest in *. cbn [newest].
  destruct s. simpl in *. f_equal; [|lia]. rewrite Hdi. f_equal; lia.
Qed.

Lemma push_up_dn s :
  display_ok s -> 0 < num_calls s -> 1 < displayed_age s ->
  push_up (push_dn s) = s.
Proof.
  intros Hok Hpos Hlt. pose proof (display_ok_push_dn s Hok) as Hdn.
  rewrite push_dn_spec in * by done.
  destruct (Z.ltb_spec 1 (displayed_age s)); [|lia].
  rewrite push_up_spec by done. cbn [displayed_age calls num_calls oldest newest].
  destruct Hok as [_ Hd]. destruct (Hd Hpos) as [Ha Hdi].
  destruct (Z.ltb_spec (displayed_age s - 1) (num_calls s)); [|lia].
  unfold back_from_newest in *. cbn [newest].
  destruct s. simpl in *. f_equal; [|lia]. rewrite Hdi. f_equal; lia.
Qed.

(** X12: with calls in the list, the upper button steps to the next older
    call and stops at the oldest one, the lower button steps to the next
    newer call and stops at the newest one; neither changes the call
    list, and each undoes a step of the other. *)
Theorem scroll_steps (s : store) :
  display_ok s -> 0 < num_calls s ->
  store_ring (push_up s) = store_ring s /\
  store_ring (push_dn s) = store_ring s /\
  displayed_age (push_up s) = Z.min (displayed_age s + 1) (num_calls s) /\
  displayed_age (push_dn s) = Z.max (displayed_age s - 1) 1 /\
  displayed (push_up s) = back_from_newest s (displayed_age (push_up s) - 1) /\
  displayed (push_dn s) = back_from_newest s (displayed_age (push_dn s) - 1) /\
  (displayed_age s < num_calls s -> push_dn (push_up s) = s) /\
  (1 < displayed_age s -> push_up (push_dn s) = s).
Proof.
  intros Hok Hpos.
  split_and!; try (intros; by apply push_dn_up || by apply push_up_dn);
    rewrite ?push_up_spec, ?push_dn_spec by done;
    destruct Hok as [Hinv Hd]; destruct (Hd Hpos) as [Ha Hdi];
    try destruct (Z.ltb_spec (displayed_age s) (num_calls s));
    try destruct (Z.ltb_spec 1 (displayed_age s));
    cbn [store_ring calls num_calls oldest newest displayed displayed_age];
    try done; try lia;
    try (rewrite Hdi; f_equal; lia);
    try (unfold back_from_newest; cbn [newest]; f_equal; lia).
Qed.

Lemma scroll_steps_witness :
  0 < num_calls (show_newest_call two_calls.1) /\
  displayed_age (push_up (show_newest_call two_calls.1)) = 2 /\
  push_dn (push_up (show_newest_call two_calls.1))
  = show_newest_call two_calls.1.
Proof.
  assert (Hok : display_ok (show_newest_call two_calls.1))
    by apply display_ok_show_newest, two_calls_inv.
  assert (Hpos : 0 < num_calls (show_newest_call two_calls.1))
    by reflexivity.
  split; [exact Hpos|].
  pose proof (scroll_steps (show_newest_call two_calls.1) Hok Hpos)
    as (_ & _ & Hup & _ & _ & _ & Hdu & _).
  split; [exact Hup|]. apply Hdu. reflexivity.
Defined.

(** ** The editor stays inside its buffer *)

Lemma arr_set_drop {A} (a : list A) i x (n : nat) :
  i < Z.of_nat n -> drop n (arr_set a i x) = drop n a.
Proof.
  intros Hi. unfold arr_set. destruct (Z.ltb_spec i 0); [done|].
  apply drop_insert_lt. lia.
Qed.

Lemma sizeof_alphabet_eq : sizeof_alphabet = 91.
Proof. reflexivity. Qed.

Ltac editing_goal :=
  unfold editing; cbn [dst input_col glyph at_phase];
  rewrite ?sizeof_alphabet_eq in *; split_and!; try done; try lia.

Lemma editing_put_next_glyph L d c :
  length (dst c) = length d ->
  drop (Z.to_nat L) (dst c) = drop (Z.to_nat L) d ->
  0 <= input_col c < L -> -1 <= glyph c < sizeof_alphabet ->
  at_phase c = Choosing ->
  editing L d (put_next_glyph c) /\ at_phase (put_next_glyph c) = Choosing.
Proof.
  intros Hl Hd Hcol Hg Hph. rewrite sizeof_alphabet_eq in Hg.
  unfold put_next_glyph, next_glyph. cbn [dst input_col glyph at_phase].
  split; [|done]. unfold editing. cbn [dst input_col glyph at_phase].
  rewrite arr_set_length, arr_set_drop by lia.
  split_and!; try done; rewrite sizeof_alphabet_eq;
    rewrite to_size_t_id by lia; rewrite Z.geb_leb;
    destruct (Z.leb_spec 91 (glyph c + 1)); lia.
Qed.

Lemma editing_iter_glyph L d n : forall c,
  editing L d c -> at_phase c = Choosing ->
  editing L d (Nat.iter n put_next_glyph c) /\
  at_phase (Nat.iter n put_next_glyph c) = Choosing.
Proof.
  induction n as [|n IH]; intros c Hc Hph; [done|].
  simpl. destruct (IH c Hc Hph) as [(Hl & Hd & Hin) Hph'].
  destruct (Hin (or_introl Hph')) as [Hcol Hg].
  apply editing_put_next_glyph; try done. lia.
Qed.

Lemma editing_next_column L d c :
  length (dst c) = length d ->
  drop (Z.to_nat L) (dst c) = drop (Z.to_nat L) d ->
  -1 <= input_col c < L -> 0 <= glyph c < sizeof_alphabet ->
  editing L d (next_column L c).
Proof.
  intros Hl Hd Hcol Hg. unfold next_column, editing.
  cbn [dst input_col glyph at_phase].
  split_and!; try done.
  rewrite Z.geb_leb. destruct (Z.leb_spec L (input_col c + 1)).
  - by intros [|].
  - intros _. lia.
Qed.

Lemma editing_step_choosing L d c ev :
  editing L d c -> at_phase c = Choosing ->
  editing L d (step_choosing L c ev).
Proof.
  intros Hc Hph. pose proof Hc as (Hl & Hd & Hin).
  destruct (Hin (or_introl Hph)) as [Hcol Hg].
  destruct ev as [ch|repeats|]; unfold step_choosing.
  - destruct (is_newline ch).
    { unfold editing. cbn [dst at_phase]. split_and!; try done; by intros [|]. }
    destruct (is_backspace ch).
    + destruct (Z.gtb_spec (input_col c) 0);
        apply editing_next_column; cbn [dst input_col glyph]; try done;
        try lia; by rewrite ?arr_set_length, ?arr_set_drop by lia.
    + apply editing_next_column; cbn [dst input_col glyph]; try done;
        try lia; by rewrite ?arr_set_length, ?arr_set_drop by lia.
  - by apply (editing_iter_glyph L d (S repeats)).
  - apply editing_next_column; try done. lia.
Qed.

Lemma editing_start_edit L d c :
  0 < L <= Z.of_nat (length d) ->
  length (dst c) = length d ->
  drop (Z.to_nat L) (dst c) = drop (Z.to_nat L) d ->
  editing L d (start_edit L c) /\ at_phase (start_edit L c) = Choosing.
Proof.
  intros HL Hl Hd. unfold start_edit.
  apply editing_put_next_glyph; cbn [dst input_col glyph at_phase];
    try done; try lia; unfold store_prefix, zeros.
  - rewrite length_app, length_replicate, length_drop. lia.
  - rewrite length_replicate.
    by rewrite drop_app_length' by (by rewrite length_replicate).
Qed.

Lemma editing_step L d c ev :
  0 < L <= Z.of_nat (length d) ->
  editing L d c -> editing L d (step L c ev).
Proof.
  intros HL Hc. pose proof Hc as (Hl & Hd & Hin).
  assert (Hdone : editing L d (mkComposer (dst c) (input_col c) (glyph c)
                                          Done)).
  { unfold editing. cbn [dst at_phase]. split_and!; try done; by intros [|]. }
  unfold step. destruct (at_phase c) eqn:Hph; [| | |done].
  - destruct ev as [ch|repeats|]; [|by apply editing_start_edit|done].
    destruct (is_newline ch); [done|].
    destruct (editing_start_edit L d c HL Hl Hd) as [Hs Hp].
    by apply editing_step_choosing.
  - by apply editing_step_choosing.
  - destruct (Hin (or_intror eq_refl)) as [Hcol Hg].
    destruct ev as [ch|repeats|]; [| |done].
    + apply editing_step_choosing; [|done]. unfold editing.
      cbn [dst input_col glyph at_phase]. by split_and!.
    + eapply proj1, editing_put_next_glyph;
        cbn [dst input_col glyph at_phase]; try done;
        rewrite sizeof_alphabet_eq; lia.
Qed.

Lemma editing_start L d col g :
  0 < L <= Z.of_nat (length d) -> editing L d (input_string_start d L col g).
Proof.
  intros HL.
  assert (Hs : editing L d (start_edit L (mkComposer d col g Choosing)))
    by (by apply editing_start_edit).
  unfold input_string_start. destruct d as [|ch d']; [done|].
  destruct (Ascii.eqb ch NUL); [done|].
  unfold editing. cbn [dst input_col glyph at_phase].
  split_and!; try done. by intros [|].
Qed.

Lemma editing_run L d col g evs :
  0 < L <= Z.of_nat (length d) ->
  editing L d (foldl (step L) (input_string_start d L col g) evs).
Proof.
  intros HL. induction evs as [|ev evs IH] using rev_ind.
  - by apply editing_start.
  - rewrite foldl_snoc. by apply editing_step.
Qed.

(** X13: whatever the buttons and the serial port do, and whatever the
    globals [input_col] and [glyph] hold on entry, [input_string] stores
    only inside the first [length] bytes of the string: the buffer keeps
    its bytes from there on, so the NUL that the caller has behind them
    still ends the string; while a character is chosen or awaited the
    cursor is at a position below [length] and the glyph is an index of
    the alphabet; hence the string that is left is a C string of at most
    [length] characters. *)
Theorem input_string_in_bounds (d : list ascii) (L col g : Z)
    (evs : list event) :
  0 < L <= Z.of_nat (length d) ->
  let c := foldl (step L) (input_string_start d L col g) evs in
  length (dst c) = length d /\
  drop (Z.to_nat L) (dst c) = drop (Z.to_nat L) d /\
  (at_phase c = Choosing \/ at_phase c = Waiting ->
   0 <= input_col c < L /\ 0 <= glyph c < sizeof_alphabet) /\
  (drop (Z.to_nat L) d = [NUL] ->
   (length (c_str (dst c)) <= Z.to_nat L)%nat).
Proof.
  intros HL c.
  destruct (editing_run L d col g evs HL) as (Hl & Hd & Hin). fold c in Hl, Hd, Hin.
  split_and!; try done.
  intros Hnul. apply c_str_terminated. by rewrite Hd.
Qed.

Lemma input_string_in_bounds_witness :
  0 < 15 <= Z.of_nat (length empty_name) /\
  drop 15 (dst (input_string empty_name 15
                  (keys "Office" ++ [Change 3; Accept; Key "008"%char])))
  = drop 15 empty_name.
Proof.
  assert (H : 0 < 15 <= Z.of_nat (length empty_name))
    by (split; [reflexivity | vm_compute; discriminate]).
  split; [exact H|].
  exact (proj1 (proj2 (input_string_in_bounds empty_name 15 0 0
           (keys "Office" ++ [Change 3; Accept; Key "008"%char]) H))).
Defined.

(** ** A line typed on the serial port *)

Lemma arr_set_app {A} (a b : list A) x y :
  arr_set (a ++ x :: b) (Z.of_nat (length a)) y = a ++ y :: b.
Proof.
  unfold arr_set. destruct (Z.ltb_spec (Z.of_nat (length a)) 0); [lia|].
  rewrite Nat2Z.id, insert_app_r_alt by lia. by rewrite Nat.sub_diag.
Qed.

Lemma type_byte_length text ch :
  (length (type_byte text ch) <= S (length text))%nat.
Proof.
  unfold type_byte. destruct (is_backspace ch).
  - destruct text as [|x text] using rev_ind; [simpl; lia|].
    rewrite removelast_last, length_app. simpl. lia.
  - rewrite length_app. simpl. lia.
Qed.

Lemma typed_line_snoc bytes ch :
  typed_line (bytes ++ [ch]) = type_byte (typed_line bytes) ch.
Proof. unfold typed_line. by rewrite foldl_snoc. Qed.

Lemma typed_line_length bytes : (length (typed_line bytes) <= length bytes)%nat.
Proof.
  induction bytes as [|ch bytes IH] using rev_ind; [done|].
  rewrite typed_line_snoc, length_app. simpl.
  pose proof (type_byte_length (typed_line bytes) ch). lia.
Qed.

(** One byte while the editor is waiting. *)
Lemma waiting_byte L rest text g ch :
  is_newline ch = false ->
  Z.of_nat (length text) < L -> Z.of_nat (length (type_byte text ch)) < L ->
  step L (line_state L rest text g) (Key ch)
  = line_state L rest (type_byte text ch) g.
Proof.
  intros Hnl Ht Ht'. unfold type_byte in *.
  destruct (is_backspace ch) eqn:Hbs.
  - unfold line_state, step, step_choosing, next_column.
    cbn [at_phase dst input_col glyph]. rewrite Hnl, Hbs.
    destruct (Z.to_nat L - length text)%nat as [|n] eqn:Hn; [lia|].
    rewrite zeros_cons. cbn [app].
    rewrite arr_set_app.
    destruct text as [|x t _] using rev_ind.
    + cbn [length app removelast]. change (Z.of_nat 0) with 0.
      destruct (Z.gtb_spec 0 0); [lia|].
      cbn [dst input_col glyph]. change (0 - 1 + 1) with 0.
      rewrite Z.geb_leb. destruct (Z.leb_spec L 0); [lia|].
      rewrite Nat.sub_0_r in *. rewrite Hn. done.
    + rewrite removelast_last in *. rewrite length_app in *.
      cbn [length] in *.
      destruct (Z.gtb_spec (Z.of_nat (length t + 1)) 0); [|lia].
      cbn [dst input_col glyph].
      replace (Z.of_nat (length t + 1) - 1) with (Z.of_nat (length t)) by lia.
      rewrite <- app_assoc. cbn [app]. rewrite arr_set_app.
      replace (Z.of_nat (length t) - 1 + 1) with (Z.of_nat (length t)) by lia.
      rewrite Z.geb_leb. destruct (Z.leb_spec L (Z.of_nat (length t))); [lia|].
      replace (Z.to_nat L - length t)%nat with (S (S n)) by lia.
      done.
  - unfold line_state.
    destruct (Z.to_nat L - length text)%nat as [|n] eqn:Hn; [lia|].
    rewrite length_app in Ht'. cbn [length] in Ht'.
    rewrite next_key by (done || lia).
    replace (Z.to_nat L - length (text ++ [ch]))%nat with n
      by (rewrite length_app; simpl; lia).
    done.
Qed.

(** The first byte, whether [input_string] has proposed the first glyph
    or is asking to keep a current value. *)
Lemma first_byte d L ch :
  1 < L -> is_newline ch = false ->
  step L (input_string_start d L 0 0) (Key ch)
  = line_state L (drop (Z.to_nat L) d) (type_byte [] ch) 0.
Proof.
  intros HL Hnl. unfold type_byte.
  destruct (is_backspace ch) eqn:Hbs.
  - assert (Hstart : forall ph0,
      step_choosing L (start_edit L (mkComposer d 0 0 ph0)) (Key ch)
      = line_state L (drop (Z.to_nat L) d) [] 0).
    { intros ph0.
      unfold step_choosing, start_edit, put_next_glyph, next_glyph,
        next_column, line_state.
      cbn [dst input_col glyph at_phase]. rewrite Hnl, Hbs.
      rewrite arr_set_twice.
      unfold store_prefix, zeros. rewrite length_replicate.
      destruct (Z.to_nat L) as [|n] eqn:HLn; [lia|].
      cbn [removelast length app]. rewrite Nat.sub_0_r.
      change (replicate (S n) NUL) with (NUL :: replicate n NUL).
      cbn [app]. change (Z.of_nat 0) with 0.
      change (arr_set (NUL :: ?l) 0 NUL) with (NUL :: l).
      change (0 >? 0) with false. cbv iota beta. change (0 - 1 + 1) with 0.
      change (if to_size_t (-1 + 1) >=? sizeof_alphabet then 0 else -1 + 1)
        with 0.
      rewrite Z.geb_leb. destruct (Z.leb_spec L 0); [lia|]. done. }
    unfold input_string_start.
    destruct d as [|c0 d']; [apply Hstart|].
    destruct (Ascii.eqb c0 NUL); [apply Hstart|].
    unfold step. simpl at_phase. cbv iota. rewrite Hnl. apply Hstart.
  - rewrite first_key by done. unfold line_state. cbn [app length].
    done.
Qed.

Lemma typed_bytes d L : forall bytes : list ascii,
  1 <= Z.of_nat (length bytes) < L ->
  Forall (fun ch => is_newline ch = false) bytes ->
  foldl (step L) (input_string_start d L 0 0) (Key <$> bytes)
  = line_state L (drop (Z.to_nat L) d) (typed_line bytes) 0.
Proof.
  induction bytes as [|ch bytes IH] using rev_ind; intros Hk Hnl.
  - simpl in Hk. lia.
  - apply Forall_app in Hnl as [Hnl Hch]. apply Forall_inv in Hch.
    rewrite length_app in Hk. simpl in Hk.
    rewrite fmap_app. change (Key <$> [ch]) with [Key ch]. rewrite foldl_snoc.
    rewrite typed_line_snoc.
    destruct (decide (bytes = [])) as [->|Hne].
    + simpl. apply first_byte; [lia|done].
    + assert (1 <= Z.of_nat (length bytes)) by (destruct bytes; simpl; [done|lia]).
      rewrite IH by (done || lia).
      pose proof (typed_line_length bytes).
      pose proof (type_byte_length (typed_line bytes) ch).
      apply waiting_byte; [done|lia..].
Qed.

(** X14: a line typed on the serial port is edited as on a terminal: of
    1 <= k < length bytes that are not line terminators, each backspace
    (or DEL) takes away the last byte entered, if there is one, and any
    other byte is appended; at the line terminator the first [length]
    bytes of the string are the line that is left, followed by NULs. *)
Theorem serial_line_editing (d : list ascii) (L : Z) (bytes : list ascii)
    (nl : ascii) :
  1 <= Z.of_nat (length bytes) < L ->
  Forall (fun ch => is_newline ch = false) bytes -> is_newline nl = true ->
  let c := input_string d L ((Key <$> bytes) ++ [Key nl]) in
  at_phase c = Done /\
  take (Z.to_nat L) (dst c)
  = typed_line bytes ++ zeros (Z.to_nat L - length (typed_line bytes)) /\
  drop (Z.to_nat L) (dst c) = drop (Z.to_nat L) d /\
  (Forall (fun ch => ch <> NUL) (typed_line bytes) ->
   c_str (dst c) = typed_line bytes).
Proof.
  intros Hk Hbytes Hnl. unfold input_string.
  rewrite foldl_snoc, typed_bytes by done.
  unfold step, step_choosing, line_state. cbn [at_phase dst input_col glyph].
  rewrite Hnl. cbn [at_phase dst].
  pose proof (typed_line_length bytes) as Hle.
  set (text := typed_line bytes) in *.
  assert (Hlen : length (text ++ zeros (Z.to_nat L - length text))
                 = Z.to_nat L).
  { unfold zeros. rewrite length_app, length_replicate. lia. }
  rewrite app_assoc. split_and!; [done|..].
  - by rewrite take_app_length'.
  - by rewrite drop_app_length'.
  - intros Hnz. rewrite <- app_assoc.
    destruct (Z.to_nat L - length text)%nat as [|n] eqn:Hn; [lia|].
    clear -Hnz. induction Hnz as [|x l Hx _ IH]; [done|].
    cbn [app c_str]. destruct (Ascii.eqb_spec x NUL); [done|]. by rewrite IH.
Qed.

Lemma serial_line_editing_witness :
  1 <= Z.of_nat (length (list_ascii_of_string "Offf")) < 15 /\
  c_str (dst (input_string empty_name 15
                ((Key <$> (list_ascii_of_string "Offf"
                           ++ ["008"%char; "127"%char]
                           ++ list_ascii_of_string "fice"))
                 ++ [Key "013"%char])))
  = list_ascii_of_string "Office".
Proof.
  assert (Hk : 1 <= Z.of_nat (length (list_ascii_of_string "Offf")) < 15)
    by (split; [discriminate | reflexivity]).
  split; [exact Hk|].
  assert (Hb : Forall (fun ch => is_newline ch = false)
                 (list_ascii_of_string "Offf" ++ ["008"%char; "127"%char]
                  ++ list_ascii_of_string "fice"))
    by (repeat constructor).
  assert (Hz : Forall (fun ch => ch <> NUL) (list_ascii_of_string "Office"))
    by (repeat constructor; discriminate).
  exact (proj2 (proj2 (proj2 (serial_line_editing empty_name 15
           (list_ascii_of_string "Offf" ++ ["008"%char; "127"%char]
            ++ list_ascii_of_string "fice") "013"%char
           ltac:(split; [discriminate | reflexivity]) Hb eq_refl))) Hz).
Defined.

(** ** Choosing a glyph with the upper button *)

Lemma put_next_glyph_spec c :
  -1 <= glyph c < sizeof_alphabet ->
  put_next_glyph c
  = mkComposer (arr_set (dst c) (input_col c)
                        (glyph_at ((glyph c + 1) mod sizeof_alphabet)))
               (input_col c) ((glyph c + 1) mod sizeof_alphabet) (at_phase c).
Proof.
  rewrite sizeof_alphabet_eq. intros Hg.
  unfold put_next_glyph, next_glyph, glyph_at.
  cbn [dst input_col glyph at_phase]. rewrite sizeof_alphabet_eq.
  rewrite to_size_t_id by lia. rewrite Z.geb_leb.
  destruct (Z.leb_spec 91 (glyph c + 1)).
  - replace (glyph c + 1) with 91 by lia. done.
  - by rewrite Z.mod_small by lia.
Qed.

Lemma iter_glyph_spec n : forall c,
  -1 <= glyph c < sizeof_alphabet ->
  let g := (glyph c + Z.of_nat (S n)) mod sizeof_alphabet in
  Nat.iter (S n) put_next_glyph c
  = mkComposer (arr_set (dst c) (input_col c) (glyph_at g))
               (input_col c) g (at_phase c).
Proof.
  induction n as [|n IH]; intros c Hg g; subst g.
  - by apply put_next_glyph_spec.
  - change (Nat.iter (S (S n)) put_next_glyph c)
      with (put_next_glyph (Nat.iter (S n) put_next_glyph c)).
    rewrite IH by done. rewrite sizeof_alphabet_eq in *.
    rewrite put_next_glyph_spec; cbn [dst input_col glyph at_phase];
      rewrite sizeof_alphabet_eq.
    + rewrite arr_set_twice, Zplus_mod_idemp_l.
      by replace (glyph c + Z.of_nat (S n) + 1)
        with (glyph c + Z.of_nat (S (S n))) by lia.
    + pose proof (Z.mod_pos_bound (glyph c + Z.of_nat (S n)) 91). lia.
Qed.

Lemma glyph_at_NUL g :
  0 <= g < sizeof_alphabet -> (glyph_at g = NUL <-> g = sizeof_alphabet - 1).
Proof.
  rewrite sizeof_alphabet_eq. intros Hg.
  assert (Hall : Forall (fun g => Ascii.eqb (glyph_at g) NUL = (g =? 90))
                        (seqZ 0 91))
    by (vm_compute; repeat constructor).
  rewrite Forall_seqZ in Hall. specialize (Hall g ltac:(lia)).
  destruct (Z.eqb_spec g 90), (Ascii.eqb_spec (glyph_at g) NUL);
    try done; lia.
Qed.

(** X15: while a character is chosen, a push of the upper button that
    steps [repeats] more times while it is held down stores the glyph
    [repeats + 1] places further in the alphabet at the cursor and changes
    nothing else; the 91 glyphs come round again, and the last of them is
    the NUL that ends the string. *)
Theorem change_steps_glyph (L : Z) (c : composer) (repeats : nat) :
  at_phase c = Choosing -> 0 <= glyph c < sizeof_alphabet ->
  let g := (glyph c + Z.of_nat repeats + 1) mod sizeof_alphabet in
  step L c (Change repeats)
  = mkComposer (arr_set (dst c) (input_col c) (glyph_at g))
               (input_col c) g Choosing /\
  (glyph_at g = NUL <-> g = sizeof_alphabet - 1) /\
  (Z.of_nat repeats + 1 = sizeof_alphabet -> g = glyph c).
Proof.
  intros Hph Hg g. split_and!.
  - unfold step, step_choosing. rewrite Hph.
    rewrite iter_glyph_spec by lia. rewrite Hph. subst g.
    by replace (glyph c + Z.of_nat (S repeats))
      with (glyph c + Z.of_nat repeats + 1) by lia.
  - apply glyph_at_NUL, Z.mod_pos_bound. by rewrite sizeof_alphabet_eq.
  - intros Hr. subst g. rewrite <- Z.add_assoc, Hr.
    rewrite <- (Z.mul_1_l sizeof_alphabet) at 1.
    rewrite Z.mod_add by (by rewrite sizeof_alphabet_eq).
    by apply Z.mod_small.
Qed.

Lemma change_steps_glyph_witness :
  at_phase (input_string empty_name 15 []) = Choosing /\
  step 15 (input_string empty_name 15 []) (Change 1)
  = mkComposer (arr_set (dst (input_string empty_name 15 [])) 0 "C"%char)
               0 2 Choosing.
Proof.
  split; [reflexivity|].
  exact (proj1 (change_steps_glyph 15 (input_string empty_name 15 []) 1
                  eq_refl ltac:(split; [discriminate | reflexivity]))).
Defined.

(** ** Entering a string with the buttons *)

Lemma begin_edit_spec d L :
  0 < L ->
  foldl (step L) (input_string_start d L 0 0) (begin_edit d)
  = choosing_state L (drop (Z.to_nat L) d) [].
Proof.
  intros HL.
  assert (Hs : forall c0, dst c0 = d ->
            start_edit L c0 = choosing_state L (drop (Z.to_nat L) d) []).
  { intros c0 Hd. unfold start_edit.
    rewrite put_next_glyph_spec
      by (cbn [glyph]; rewrite sizeof_alphabet_eq; lia).
    cbn [dst input_col glyph at_phase]. rewrite Hd.
    unfold choosing_state, store_prefix, zeros.
    rewrite length_replicate. cbn [length app]. rewrite Nat.sub_0_r.
    destruct (Z.to_nat L) as [|n] eqn:Hn; [lia|].
    change (replicate (S n) NUL) with (NUL :: replicate n NUL).
    cbn [app]. change ((-1 + 1) mod sizeof_alphabet) with 0.
    change (arr_set (NUL :: ?l) 0 ?x) with (x :: l).
    by replace (S n - 1)%nat with n by lia. }
  unfold input_string_start, begin_edit.
  destruct d as [|ch d']; [by apply Hs|].
  destruct (Ascii.eqb ch NUL) eqn:Hch; [by apply Hs|].
  cbn [foldl]. unfold step. cbn [at_phase]. by apply Hs.
Qed.

Lemma enter_glyph_spec L rest text (j : nat) :
  Z.of_nat (length text) + 1 < L -> Z.of_nat j < sizeof_alphabet ->
  foldl (step L) (choosing_state L rest text) (enter_glyph j)
  = line_state L rest (text ++ [glyph_at (Z.of_nat j)]) (Z.of_nat j).
Proof.
  intros Ht Hj. unfold enter_glyph. rewrite foldl_app.
  assert (Hc : foldl (step L) (choosing_state L rest text) (choose j)
               = mkComposer (text ++ glyph_at (Z.of_nat j)
                                  :: zeros (Z.to_nat L - length text - 1)
                                  ++ rest)
                            (Z.of_nat (length text)) (Z.of_nat j) Choosing).
  { destruct j as [|r]; [done|]. cbn [choose foldl].
    unfold step, step_choosing, choosing_state. cbn [at_phase].
    rewrite iter_glyph_spec
      by (cbn [glyph]; rewrite sizeof_alphabet_eq; lia).
    cbn [dst input_col glyph at_phase]. rewrite arr_set_app.
    rewrite Z.add_0_l, Z.mod_small by lia. done. }
  rewrite Hc. cbn [foldl]. unfold step, step_choosing, next_column, line_state.
  cbn [at_phase dst input_col glyph].
  rewrite Z.geb_leb. destruct (Z.leb_spec L (Z.of_nat (length text) + 1)); [lia|].
  rewrite length_app. cbn [length]. rewrite <- app_assoc. cbn [app].
  replace (Z.to_nat L - (length text + 1))%nat
    with (Z.to_nat L - length text - 1)%nat by lia.
  f_equal. lia.
Qed.

Lemma change_after_glyph L rest text g r :
  Z.of_nat (length text) < L ->
  step L (line_state L rest text g) (Change r) = choosing_state L rest text.
Proof.
  intros Ht. unfold step, line_state, choosing_state. cbn [at_phase].
  rewrite put_next_glyph_spec
    by (cbn [glyph]; rewrite sizeof_alphabet_eq; lia).
  cbn [dst input_col glyph at_phase].
  change ((-1 + 1) mod sizeof_alphabet) with 0.
  destruct (Z.to_nat L - length text)%nat as [|n] eqn:Hn; [lia|].
  rewrite zeros_cons. cbn [app]. rewrite arr_set_app.
  by replace (S n - 1)%nat with n by lia.
Qed.

Lemma enter_more L rest : forall (js : list nat) text g,
  Z.of_nat (length text) + Z.of_nat (length js) < L ->
  Forall (fun j => Z.of_nat j < sizeof_alphabet) js ->
  js <> [] ->
  foldl (step L) (line_state L rest text g)
        (flat_map (fun j => Change 0 :: enter_glyph j) js)
  = line_state L rest (text ++ (glyph_at ∘ Z.of_nat <$> js))
               (Z.of_nat (List.last js O)).
Proof.
  induction js as [|j js IH] using rev_ind; intros text g Hlen Hall Hne;
    [done|].
  apply Forall_app in Hall as [Hall Hj]. apply Forall_inv in Hj.
  rewrite length_app in Hlen. cbn [length] in Hlen.
  rewrite flat_map_app, foldl_app. cbn [flat_map]. rewrite app_nil_r.
  rewrite last_last, fmap_app, app_assoc. cbn [fmap list_fmap].
  set (text1 := text ++ (glyph_at ∘ Z.of_nat <$> js)).
  assert (Hl1 : length text1 = (length text + length js)%nat)
    by (unfold text1; by rewrite length_app, length_fmap).
  assert (Hmid : exists g1,
            foldl (step L) (line_state L rest text g)
                  (flat_map (fun j => Change 0 :: enter_glyph j) js)
            = line_state L rest text1 g1).
  { destruct (decide (js = [])) as [->|Hne'].
    - exists g. unfold text1. simpl. by rewrite app_nil_r.
    - eexists. apply IH; [lia|done|done]. }
  destruct Hmid as [g1 ->]. cbn [foldl].
  rewrite change_after_glyph by lia.
  apply enter_glyph_spec; [lia|done].
Qed.

(** X16: a string is entered with the two buttons alone: for each
    character the upper button steps to its glyph and the lower button
    takes it, and a last push of the lower button ends the edit; the
    first [length] bytes of the string are then the glyphs chosen,
    followed by NULs. *)
Theorem button_entry (d : list ascii) (L : Z) (js : list nat) :
  1 <= Z.of_nat (length js) < L ->
  Forall (fun j => Z.of_nat j < sizeof_alphabet) js ->
  let c := input_string d L (begin_edit d ++ enter_glyphs js ++ [Accept]) in
  at_phase c = Done /\
  take (Z.to_nat L) (dst c)
  = (glyph_at ∘ Z.of_nat <$> js) ++ zeros (Z.to_nat L - length js) /\
  drop (Z.to_nat L) (dst c) = drop (Z.to_nat L) d.
Proof.
  intros Hk Hall c. subst c. unfold input_string.
  rewrite foldl_app, begin_edit_spec by lia.
  destruct js as [|j js]; [simpl in Hk; lia|].
  cbn [length] in Hk. apply Forall_cons in Hall as [Hj Hall].
  rewrite foldl_app. cbn [enter_glyphs]. rewrite foldl_app.
  rewrite enter_glyph_spec by (cbn [length]; lia || done).
  cbn [app].
  set (text := glyph_at ∘ Z.of_nat <$> j :: js).
  assert (Hmid : exists g,
            foldl (step L)
              (line_state L (drop (Z.to_nat L) d) [glyph_at (Z.of_nat j)]
                          (Z.of_nat j))
              (flat_map (fun j => Change 0 :: enter_glyph j) js)
            = line_state L (drop (Z.to_nat L) d) text g).
  { destruct (decide (js = [])) as [->|Hne].
    - by eexists.
    - eexists. apply (enter_more L _ js [glyph_at (Z.of_nat j)]);
        [cbn [length]; lia|done|done]. }
  destruct Hmid as [g ->]. cbn [foldl].
  unfold step, line_state. cbn [at_phase dst].
  assert (Hlen : length (text ++ zeros (Z.to_nat L - length text))
                 = Z.to_nat L).
  { unfold zeros, text. rewrite length_app, length_replicate, length_fmap.
    cbn [length]. lia. }
  assert (Ht : length text = length (j :: js))
    by (unfold text; by rewrite length_fmap).
  rewrite app_assoc. split_and!; [done|..].
  - rewrite take_app_length' by done. by rewrite Ht.
  - by rewrite drop_app_length'.
Qed.

Lemma button_entry_witness :
  1 <= Z.of_nat (length [7; 8]%nat) < 15 /\
  take 15 (dst (input_string empty_name 15
                  [Change 6; Accept; Change 0; Change 7; Accept; Accept]))
  = list_ascii_of_string "HI" ++ zeros 13.
Proof.
  assert (Hk : 1 <= Z.of_nat (length [7; 8]%nat) < 15)
    by (split; [discriminate | reflexivity]).
  split; [exact Hk|].
  exact (proj1 (proj2 (button_entry empty_name 15 [7; 8]%nat Hk
           ltac:(repeat constructor)))).
Defined.

(** ** Messages on the display *)

(** X17: [center_message] fails its assertion exactly when the length of
    the message, taken as a [byte], is above 20; otherwise it prints the
    message between blanks, as many on the left as on the right or one
    less, and a message of at most 20 characters fills the 20 columns of
    its row, so the empty message clears the row. *)
Theorem center_message_row (msg : list ascii) :
  let len := Z.of_nat (length msg) mod 256 in
  (20 < len -> center_message msg = None) /\
  (len <= 20 ->
   exists l r : nat,
     center_message msg
     = Some (replicate l " "%char ++ msg ++ replicate r " "%char) /\
     Z.of_nat l + len + Z.of_nat r = 20 /\ (l <= r <= l + 1)%nat /\
     ((length msg <= 20)%nat ->
      length (replicate l " "%char ++ msg ++ replicate r " "%char) = 20%nat)).
Proof.
  intros len. unfold center_message, to_byte. fold len.
  assert (Hlen : 0 <= len < 256) by (apply Z.mod_pos_bound; lia).
  split.
  - intros H20. destruct (Z.leb_spec len 20); [lia|done].
  - intros H20. destruct (Z.leb_spec len 20); [|lia].
    rewrite Z.shiftr_div_pow2 by lia. change (2 ^ 1) with 2.
    assert (Hq : 0 <= (20 - len) / 2 <= 10)
      by (split; [apply Z.div_pos; lia|apply Z.div_le_upper_bound; lia]).
    rewrite Z.mod_small by lia.
    eexists _, _. split; [reflexivity|].
    pose proof (Z.div_mod (20 - len) 2 ltac:(lia)) as Hdm.
    pose proof (Z.mod_pos_bound (20 - len) 2 ltac:(lia)) as Hm.
    split_and!; try lia.
    intros Hshort. rewrite !length_app, !length_replicate.
    assert (len = Z.of_nat (length msg))
      by (unfold len; rewrite Z.mod_small; lia).
    lia.
Qed.

Lemma center_message_row_witness :
  exists l r : nat,
    center_message (list_ascii_of_string "connecting")
    = Some (replicate l " "%char ++ list_ascii_of_string "connecting"
            ++ replicate r " "%char) /\
    (l <= r <= l + 1)%nat.
Proof.
  destruct (proj2 (center_message_row (list_ascii_of_string "connecting"))
              ltac:(discriminate)) as (l & r & Hc & _ & Hlr & _).
  exists l, r. split; [exact Hc | exact Hlr].
Defined.

(** ** Showing the last bad packet *)

Lemma page_read (data : list ascii) (o n : Z) :
  0 <= o -> 0 <= n -> o + n <= Z.of_nat (length data) ->
  mapM (fun ndx => arr_get data (o + ndx)) (seqZ 0 n)
  = Some (take (Z.to_nat n) (drop (Z.to_nat o) data)).
Proof.
  intros Ho Hn Hlen. apply mapM_Some_2, Forall2_same_length_lookup_2.
  - rewrite length_seqZ, length_take, length_drop. lia.
  - intros i x y Hx Hy. apply lookup_seqZ in Hx as [-> Hi].
    rewrite lookup_take_Some in Hy. destruct Hy as [Hy _].
    rewrite lookup_drop in Hy. unfold arr_get.
    destruct (Z.ltb_spec (o + (0 + Z.of_nat i)) 0); [lia|].
    rewrite <- Hy. f_equal. lia.
Qed.

Section Pages.
Variable b : badrec.
Hypothesis Hlen : 0 <= badpacket_length b <= Z.of_nat (length (badpacket_data b)).

(** The bytes recorded, and the window of eight of them at an offset. *)
Let recorded : list ascii :=
  take (Z.to_nat (badpacket_length b)) (badpacket_data b).
Let window (o : Z) : list ascii := take 8 (drop (Z.to_nat o) recorded).

Lemma badpacket_pages_spec (fuel : nat) : forall o,
  0 <= o -> (0 < fuel)%nat ->
  badpacket_length b - o + 8 <= 8 * Z.of_nat fuel ->
  exists pages,
    badpacket_pages fuel b o = Some pages /\
    concat (snd <$> pages) = drop (Z.to_nat o) recorded /\
    Forall (fun pg => o <= pg.1 < badpacket_length b /\
                      (pg.1 - o) mod 8 = 0 /\
                      pg.2 = window pg.1 /\ pg.2 <> []) pages /\
    Z.of_nat (length pages) = Z.max 0 ((badpacket_length b - o + 7) / 8).
Proof.
  induction fuel as [|fuel IH]; intros o Ho Hf Hfuel; [lia|].
  cbn [badpacket_pages].
  destruct (Z.ltb_spec o (badpacket_length b)) as [Hlt|Hge].
  - set (n := Z.min 8 (badpacket_length b - o)).
    rewrite page_read by lia. cbn [mbind option_bind].
    destruct (IH (o + 8)) as (rest & -> & Hcat & Hall & Hnum); [lia..|].
    cbn [mbind option_bind].
    assert (Hpage : take (Z.to_nat n) (drop (Z.to_nat o) (badpacket_data b))
                    = window o).
    { unfold window, recorded.
      replace (Z.to_nat (badpacket_length b))
        with (Z.to_nat o + Z.to_nat (badpacket_length b - o))%nat by lia.
      rewrite <- take_drop_commute, take_take. f_equal. lia. }
    rewrite Hpage. eexists. split; [reflexivity|].
    cbn [fmap list_fmap snd concat length]. split_and!.
    + rewrite Hcat. unfold window.
      replace (Z.to_nat (o + 8)) with (Z.to_nat o + 8)%nat by lia.
      rewrite <- drop_drop. apply take_drop.
    + constructor.
      * cbn [fst snd]. split_and!; try done; try lia.
        -- by rewrite Z.sub_diag.
        -- rewrite <- Hpage. intros Hnil%(f_equal length).
           rewrite length_take, length_drop in Hnil. simpl in Hnil. lia.
      * eapply Forall_impl; [exact Hall|]. simpl.
        intros pg (Hr & Hm & Hw & Hne). split_and!; try done; try lia.
        replace (pg.1 - o) with (pg.1 - (o + 8) + 1 * 8) by lia.
        by rewrite Z.mod_add.
    + rewrite Nat2Z.inj_succ, Hnum.
      replace (badpacket_length b - o + 7)
        with (badpacket_length b - (o + 8) + 7 + 1 * 8) by lia.
      rewrite Z.div_add by lia.
      assert (0 <= (badpacket_length b - (o + 8) + 7) / 8)
        by (apply Z.div_pos; lia).
      lia.
  - exists []. split; [done|]. cbn [fmap list_fmap concat length].
    split_and!; [|done|].
    + unfold recorded. rewrite drop_ge; [done|]. rewrite length_take. lia.
    + assert ((badpacket_length b - o + 7) / 8 < 1)
        by (apply Z.div_lt_upper_bound; lia).
      lia.
Qed.
End Pages.

(** X18: the bad packet display pages through the recorded datagram:
    with a bad packet recorded, of a length that [badpacket_data] can
    hold, it shows one page for every eight bytes (the last one may have
    fewer), each headed by its offset, a multiple of 8; the pages together
    are the recorded bytes, each once and in order; at the end the newest
    call is on display again. *)
Theorem badpacket_display_pages (b : badrec) (s : store) :
  badpacket_count b <> 0 ->
  0 <= badpacket_length b <= Z.of_nat (length (badpacket_data b)) ->
  badpacket_length b <= MAX_PACKET ->
  exists pages,
    badpacket_display b s = Some (pages, show_newest_call s) /\
    concat (snd <$> pages)
    = take (Z.to_nat (badpacket_length b)) (badpacket_data b) /\
    Forall (fun pg =>
              0 <= pg.1 < badpacket_length b /\ pg.1 mod 8 = 0 /\
              pg.2 = take 8 (drop (Z.to_nat pg.1)
                       (take (Z.to_nat (badpacket_length b))
                             (badpacket_data b))) /\
              pg.2 <> []) pages /\
    Z.of_nat (length pages) = (badpacket_length b + 7) / 8.
Proof.
  intros Hcount Hlen Hmax. unfold badpacket_display.
  destruct (Z.eqb_spec (badpacket_count b) 0); [done|].
  destruct (badpacket_pages_spec b Hlen (Z.to_nat MAX_PACKET) 0)
    as (pages & -> & Hcat & Hall & Hnum);
    [unfold MAX_PACKET in *; lia..|].
  exists pages. cbn [mbind option_bind]. split_and!; try done.
  - eapply Forall_impl; [exact Hall|]. simpl.
    intros pg (Hr & Hm & Hw & Hne). rewrite Z.sub_0_r in Hm. done.
  - rewrite Hnum, Z.sub_0_r.
    assert (0 <= (badpacket_length b + 7) / 8) by (apply Z.div_pos; lia).
    lia.
Qed.

Lemma badpacket_display_pages_witness :
  badpacket_length sample_bad <= MAX_PACKET /\
  exists pages,
    badpacket_display sample_bad init_store
    = Some (pages, show_newest_call init_store) /\
    concat (snd <$> pages) = sample_other /\
    Z.of_nat (length pages) = 7.
Proof.
  split; [discriminate|].
  destruct (badpacket_display_pages sample_bad init_store)
    as (pages & Hd & Hcat & _ & Hn).
  - discriminate.
  - split; discriminate.
  - discriminate.
  - exists pages. split; [exact Hd|]. split; [exact Hcat | exact Hn].
Defined.

Lemma badpacket_data_length type p b :
  length (packet p) = length (badpacket_data b) ->
  length (badpacket_data (badpacket type p b)) = length (badpacket_data b).
Proof.
  intros Hl. unfold badpacket, store_prefix. cbn [badpacket_data].
  rewrite length_app, length_drop, !length_take. lia.
Qed.

(** X19: a datagram that [loop] does not understand can be read on the
    bad packet display afterwards: its pages are the bytes received (the
    first 255 of them), eight to a page. *)
Theorem bad_packet_shown (received : list ascii) (st : state) (type : Z) :
  length (packet (prs st)) = Z.to_nat MAX_PACKET ->
  length (badpacket_data (bad st)) = Z.to_nat MAX_PACKET ->
  0 <= badpacket_count (bad st) ->
  received <> [] ->
  branch_of received (prs st) = BadPacket type ->
  exists st' pages,
    loop_packet received st = Some st' /\
    badpacket_display (bad st') (sto st')
    = Some (pages, show_newest_call (sto st)) /\
    concat (snd <$> pages) = take (Z.to_nat MAX_PACKET) received /\
    Forall (fun pg => (1 <= length pg.2 <= 8)%nat) pages.
Proof.
  intros Hpk Hbd Hcnt Hne Hbr. unfold branch_of in Hbr.
  destruct (decode (received_packet received (prs st))) as [br p] eqn:Hdec.
  simpl in Hbr. subst br.
  destruct (loop_packet_bad received st type p Hpk Hne Hdec)
    as (Hloop & Hc & Ht & Hl & Hd).
  set (b' := badpacket type p (bad st)) in *.
  assert (Hpl : length (packet p) = Z.to_nat MAX_PACKET).
  { pose proof (decode_frame (received_packet received (prs st)))
      as (Hp & _). rewrite Hdec in Hp. simpl in Hp. rewrite Hp.
    unfold received_packet, read_packet, store_prefix, MAX_PACKET in *.
    destruct (prs st). simpl in *.
    rewrite length_app, length_drop, !length_take. lia. }
  assert (Hbl : length (badpacket_data b') = Z.to_nat MAX_PACKET).
  { unfold b'. rewrite badpacket_data_length; [done|congruence]. }
  assert (Hrec : 0 < Z.of_nat (length received))
    by (destruct received; [done|simpl; lia]).
  assert (Hlen : 0 <= badpacket_length b'
                 <= Z.of_nat (length (badpacket_data b')))
    by (rewrite Hl, Hbl; unfold MAX_PACKET; lia).
  destruct (badpacket_pages_spec b' Hlen (Z.to_nat MAX_PACKET) 0)
    as (pages & Hpages & Hcat & Hall & _);
    [unfold MAX_PACKET in *; lia..|].
  eexists _, pages. split; [exact Hloop|]. cbn [bad sto].
  split_and!.
  - unfold badpacket_display.
    destruct (Z.eqb_spec (badpacket_count b') 0); [lia|].
    by rewrite Hpages.
  - rewrite Hcat, Hl, Hd.
    destruct (Z.le_gt_cases (Z.of_nat (length received)) MAX_PACKET).
    + rewrite Z.min_l by done. rewrite !take_ge; [done|lia..].
    + by rewrite Z.min_r by lia.
  - eapply Forall_impl; [exact Hall|]. simpl.
    intros pg (_ & _ & Hw & Hnil). split.
    + destruct (pg.2); [done|simpl; lia].
    + rewrite Hw, length_take. lia.
Qed.

Lemma bad_packet_shown_witness :
  0 <= badpacket_count (bad init_state) /\
  exists st' pages,
    loop_packet sample_other init_state = Some st' /\
    badpacket_display (bad st') (sto st')
    = Some (pages, show_newest_call (sto init_state)) /\
    concat (snd <$> pages) = take (Z.to_nat MAX_PACKET) sample_other.
Proof.
  split; [discriminate|].
  destruct (bad_packet_shown sample_other init_state 2)
    as (st' & pages & Hl & Hd & Hcat & _).
  - reflexivity.
  - reflexivity.
  - discriminate.
  - discriminate.
  - vm_compute. reflexivity.
  - exists st', pages. split; [exact Hl|]. split; [exact Hd | exact Hcat].
Defined.

(** ** The backlight *)

Lemma land_1_testbit z : (Z.land z 1 =? 0) = negb (Z.testbit z 0).
Proof.
  change 1 with (Z.ones 1). rewrite Z.land_ones by lia.
  change (2 ^ 1) with 2. rewrite <- Z.bit0_mod.
  by destruct (Z.testbit z 0).
Qed.

(** X20: the backlight goes off when the option is set, the light is on
    and more than ten seconds have passed since it was turned on; the
    elapsed time is right even when the 32-bit millisecond counter has
    wrapped around in between. *)
Theorem backlight_timeout_elapsed (options : Z) (on : bool) (t_on t_now : Z) :
  0 <= t_now - t_on < 4294967296 ->
  backlight_timeout options on (to_ulong t_now) (to_ulong t_on)
  = if Z.testbit options 0 && on && (10000 <? t_now - t_on)
    then false else on.
Proof.
  intros Ht. unfold backlight_timeout, OPT_BACKLIGHT_OFF,
    BACKLIGHT_TIMEOUT_SECS, to_ulong.
  rewrite land_1_testbit, negb_involutive.
  rewrite <- Zminus_mod, (Z.mod_small (t_now - t_on)) by done.
  change (10 * 1000 mod 4294967296) with 10000.
  by rewrite Z.gtb_ltb.
Qed.

Lemma backlight_timeout_elapsed_witness :
  0 <= (4294967296 + 5000) - 4294960000 < 4294967296 /\
  backlight_timeout 1 true 5000 4294960000 = false.
Proof.
  split; [lia|].
  exact (backlight_timeout_elapsed 1 true 4294960000 (4294967296 + 5000)
           ltac:(lia)).
Defined.

(** ** The bytes of the non-volatile memory *)

Lemma rom_at_set_eq rom a c :
  0 <= a < Z.of_nat (length rom) -> rom_at (arr_set rom a c) a = c.
Proof. intros Ha. unfold rom_at. by rewrite arr_get_set_eq. Qed.

Lemma rom_at_set_ne rom a a' c :
  a <> a' -> rom_at (arr_set rom a c) a' = rom_at rom a'.
Proof. intros Ha. unfold rom_at. by rewrite arr_get_set_ne. Qed.

Lemma eeprom_write_loop_spec src : forall addr rom,
  0 <= addr -> addr + Z.of_nat (length src) <= Z.of_nat (length rom) ->
  exists rom',
    eeprom_write_loop (length src) addr src rom = Some rom' /\
    length rom' = length rom /\
    eeprom_read_loop (length src) addr rom' = src /\
    forall a, a < addr \/ addr + Z.of_nat (length src) <= a ->
              rom_at rom' a = rom_at rom a.
Proof.
  induction src as [|c src IH]; intros addr rom Ha Hlen.
  - exists rom. by split_and!.
  - cbn [length] in *. cbn [eeprom_write_loop eeprom_read_loop].
    destruct (IH (addr + 1) (arr_set rom addr c))
      as (rom' & Hw & Hl & Hr & Hframe);
      [lia|rewrite arr_set_length; lia|].
    exists rom'. rewrite arr_set_length in Hl. split_and!; try done.
    + rewrite Hr. f_equal. rewrite Hframe by lia.
      apply rom_at_set_eq. lia.
    + intros a Hout. rewrite Hframe by lia. apply rom_at_set_ne. lia.
Qed.

Lemma eeprom_read_loop_ext n : forall addr rom rom',
  (forall a, addr <= a < addr + Z.of_nat n -> rom_at rom' a = rom_at rom a) ->
  eeprom_read_loop n addr rom' = eeprom_read_loop n addr rom.
Proof.
  induction n as [|n IH]; intros addr rom rom' Hsame; [done|].
  cbn [eeprom_read_loop]. f_equal; [apply Hsame; lia|].
  apply IH. intros a Ha. apply Hsame. lia.
Qed.

Lemma record_addr_eq ndx :
  0 <= ndx < NUM_EEPROM_CALLS ->
  record_addr ndx = sizeof_eeprom_hdr_t + ndx * sizeof_call_record_t.
Proof.
  rewrite NUM_EEPROM_CALLS_eq. intros Hn.
  unfold record_addr, to_int, sizeof_eeprom_hdr_t, sizeof_call_record_t.
  rewrite (to_size_t_id ndx) by lia.
  rewrite (to_size_t_id (ndx * 52)) by lia.
  rewrite to_size_t_id by lia. rewrite Z.mod_small by lia. lia.
Qed.

(** X21: the header and the record slots of the archive do not overlap
    in the non-volatile memory, and all of them lie inside it: a record
    written with [eeprom_write] at the address of a slot is read back by
    [eeprom_read] from that slot, and the bytes of the header and of
    every other slot read as before; the same for the header. *)
Theorem archive_layout (rom rec hdr : list ascii) (i j : Z) :
  Z.of_nat (length rom) = EEPROM_SIZE ->
  Z.of_nat (length rec) = sizeof_call_record_t ->
  Z.of_nat (length hdr) = sizeof_eeprom_hdr_t ->
  0 <= i < NUM_EEPROM_CALLS -> 0 <= j < NUM_EEPROM_CALLS ->
  (exists rom',
     eeprom_write (record_addr i) sizeof_call_record_t rec rom = Some rom' /\
     eeprom_read (record_addr i) sizeof_call_record_t rom' = Some rec /\
     eeprom_read 0 sizeof_eeprom_hdr_t rom'
     = eeprom_read 0 sizeof_eeprom_hdr_t rom /\
     (j <> i ->
      eeprom_read (record_addr j) sizeof_call_record_t rom'
      = eeprom_read (record_addr j) sizeof_call_record_t rom)) /\
  (exists rom',
     eeprom_write 0 sizeof_eeprom_hdr_t hdr rom = Some rom' /\
     eeprom_read 0 sizeof_eeprom_hdr_t rom' = Some hdr /\
     eeprom_read (record_addr j) sizeof_call_record_t rom'
     = eeprom_read (record_addr j) sizeof_call_record_t rom).
Proof.
  intros Hrom Hrec Hhdr Hi Hj.
  rewrite !record_addr_eq by done. rewrite NUM_EEPROM_CALLS_eq in *.
  unfold eeprom_write, eeprom_read, EEPROM_SIZE, sizeof_eeprom_hdr_t,
    sizeof_call_record_t in *.
  change (52 <? 0) with false. change (210 <? 0) with false. cbv iota.
  assert (Hr52 : Z.to_nat 52 = length rec) by lia.
  assert (Hh210 : Z.to_nat 210 = length hdr) by lia.
  split.
  - destruct (eeprom_write_loop_spec rec (210 + i * 52) rom)
      as (rom' & Hw & Hl & Hr & Hframe); [lia..|].
    exists rom'. rewrite Hr52 at 1 2. rewrite Hw, Hr. split_and!; try done.
    + f_equal. apply eeprom_read_loop_ext. intros a Ha. apply Hframe. lia.
    + intros Hne. f_equal. apply eeprom_read_loop_ext. intros a Ha.
      apply Hframe. lia.
  - destruct (eeprom_write_loop_spec hdr 0 rom)
      as (rom' & Hw & Hl & Hr & Hframe); [lia..|].
    exists rom'. rewrite Hh210 at 1 2. rewrite Hw, Hr. split_and!; try done.
    f_equal. apply eeprom_read_loop_ext. intros a Ha. apply Hframe. lia.
Qed.

Lemma archive_layout_witness :
  0 <= 73 < NUM_EEPROM_CALLS /\
  exists rom',
    eeprom_write (record_addr 73) sizeof_call_record_t
      (replicate 52 "x"%char) (zeros 4096) = Some rom' /\
    eeprom_read (record_addr 72) sizeof_call_record_t rom'
    = eeprom_read (record_addr 72) sizeof_call_record_t (zeros 4096).
Proof.
  split; [split; [discriminate | reflexivity]|].
  destruct (proj1 (archive_layout (zeros 4096) (replicate 52 "x"%char)
                     (zeros 210) 73 72 eq_refl eq_refl eq_refl
                     ltac:(split; [discriminate | reflexivity])
                     ltac:(split; [discriminate | reflexivity])))
    as (rom' & Hw & _ & _ & Hj).
  exists rom'. split; [exact Hw|]. apply Hj. discriminate.
Defined.

(** ** Configuration *)

Lemma edit_string_kept title cg d L evs r :
  0 < L -> drop (Z.to_nat L) d = [NUL] ->
  edit_string title cg d L evs = Some r ->
  drop (Z.to_nat L) r.1 = [NUL].
Proof.
  intros HL Hnul. unfold edit_string.
  destruct (center_message title); [|done]. cbn [mbind option_bind].
  assert (Hlen : 0 < L <= Z.of_nat (length d)).
  { apply (f_equal length) in Hnul. rewrite length_drop in Hnul.
    simpl in Hnul. lia. }
  destruct (editing_run L d cg.1 cg.2 evs Hlen) as (_ & Hd & _).
  destruct (at_phase _); try done. intros [= <-]. simpl. by rewrite Hd.
Qed.

Lemma edit_names_kept n : forall i cg names evs r,
  0 <= i ->
  Forall (fun nm => drop (Z.to_nat LINE_NAMELENGTH) nm = [NUL]) names ->
  edit_names n i cg names evs = Some r ->
  Forall (fun nm => drop (Z.to_nat LINE_NAMELENGTH) nm = [NUL]) r.1 /\
  length r.1 = length names.
Proof.
  induction n as [|n IH]; intros i cg names evs r Hi Hall.
  - intros [= <-]. done.
  - cbn [edit_names].
    destruct (arr_get names i) as [d|] eqn:Hd; [|done].
    cbn [mbind option_bind].
    destruct (edit_string _ cg d LINE_NAMELENGTH _) as [r1|] eqn:He; [|done].
    cbn [mbind option_bind]. intros Hrest.
    assert (Hd' : drop (Z.to_nat LINE_NAMELENGTH) d = [NUL]).
    { unfold arr_get in Hd. destruct (i <? 0); [done|].
      rewrite Forall_lookup in Hall. exact (Hall _ _ Hd). }
    pose proof (edit_string_kept _ _ _ LINE_NAMELENGTH _ _ eq_refl Hd' He) as Hr1.
    assert (Hset : Forall (fun nm => drop (Z.to_nat LINE_NAMELENGTH) nm = [NUL])
                          (arr_set names i r1.1)).
    { unfold arr_set. destruct (i <? 0); [done|]. by apply Forall_insert. }
    destruct (IH (i + 1) r1.2 (arr_set names i r1.1) evs r)
      as [Hall' Hlen']; [lia|done|done|].
    split; [done|]. by rewrite Hlen', arr_set_length.
Qed.

Lemma testbit_1 k : 0 < k -> Z.testbit 1 k = false.
Proof. intros Hk. destruct k; try lia. done. Qed.

(** X22: the configuration dialogue changes the names and the option of
    the header and nothing else: the calls held in the archive and its
    ring indices are as before, the header is written and committed once,
    every name keeps the NUL behind its characters (a network name or
    password of at most 31 characters, a line name of at most 15), the
    backlight option is set as answered and the other option bits are
    kept. *)
Theorem do_configuration_frame (cg : Z * Z) (ssid_evs password_evs : list event)
    (name_evs : list (list event)) (yes : bool) (m : nvm) (r : nvm * (Z * Z)) :
  hdr_wf (eeprom_hdr m) ->
  do_configuration cg ssid_evs password_evs name_evs yes m = Some r ->
  archive_ring r.1 = archive_ring m /\
  hdr_id (eeprom_hdr r.1) = hdr_id (eeprom_hdr m) /\
  ee_hdr r.1 = eeprom_hdr r.1 /\
  ee_log r.1 = ee_log m ++ [WriteHeader; Commit] /\
  hdr_wf (eeprom_hdr r.1) /\
  Z.testbit (hdr_options (eeprom_hdr r.1)) 0 = yes /\
  forall k, 0 < k < 8 ->
    Z.testbit (hdr_options (eeprom_hdr r.1)) k
    = Z.testbit (hdr_options (eeprom_hdr m)) k.
Proof.
  intros (Hopt & Hssid & Hpw & Hn & Hnames). unfold do_configuration.
  destruct (edit_string _ cg (hdr_ssid _) _ ssid_evs) as [r1|] eqn:H1;
    [|done]. cbn [mbind option_bind].
  destruct (edit_string _ r1.2 (hdr_password _) _ password_evs) as [r2|] eqn:H2;
    [|done]. cbn [mbind option_bind].
  destruct (edit_names _ 0 r2.2 _ name_evs) as [r3|] eqn:H3; [|done].
  cbn [mbind option_bind].
  destruct (center_message _); [|done]. cbn [mbind option_bind].
  intros [= <-]. cbn [fst eeprom_hdr ee_hdr ee_log ee_calls archive_ring
    hdr_id hdr_options hdr_num_calls hdr_oldest hdr_newest].
  pose proof (edit_string_kept _ _ _ WIFI_NAMELENGTH _ _ eq_refl Hssid H1) as K1.
  pose proof (edit_string_kept _ _ _ WIFI_NAMELENGTH _ _ eq_refl Hpw H2) as K2.
  destruct (edit_names_kept _ 0 _ _ _ _ ltac:(done) Hnames H3) as [K3 K4].
  set (options := if yes then _ else _).
  assert (Hbits : forall k, 0 <= k < 8 ->
            Z.testbit options k
            = if k =? 0 then yes else Z.testbit (hdr_options (eeprom_hdr m)) k).
  { intros k Hk. unfold options, to_byte, OPT_BACKLIGHT_OFF.
    change 256 with (2 ^ 8).
    destruct yes; rewrite Z.mod_pow2_bits_low by lia.
    - rewrite Z.lor_spec. destruct (Z.eqb_spec k 0) as [->|].
      + by rewrite orb_true_r.
      + by rewrite testbit_1, orb_false_r by lia.
    - rewrite Z.land_spec, Z.lnot_spec by lia.
      destruct (Z.eqb_spec k 0) as [->|].
      + by rewrite andb_false_r.
      + by rewrite testbit_1, andb_true_r by lia. }
  split_and!; try done.
  - unfold hdr_wf.
    cbn [hdr_options hdr_ssid hdr_password hdr_line_names].
    split_and!; try done; try (by rewrite K4);
      unfold options, to_byte; destruct yes; apply Z.mod_pos_bound; lia.
  - by rewrite Hbits by lia.
  - intros k Hk. rewrite Hbits by lia.
    destruct (Z.eqb_spec k 0); [lia|done].
Qed.

Lemma init_hdr_wf : hdr_wf init_hdr.
Proof.
  unfold hdr_wf. split_and!; try done. by repeat constructor.
Qed.

Lemma do_configuration_frame_witness :
  hdr_wf (eeprom_hdr two_calls.2) /\
  exists r,
    do_configuration (0, 0) (keys "net" ++ [Key "013"%char])
      (keys "secret" ++ [Key "013"%char]) sample_names true two_calls.2
    = Some r /\
    archive_ring r.1 = archive_ring two_calls.2 /\
    Z.testbit (hdr_options (eeprom_hdr r.1)) 0 = true.
Proof.
  assert (Hwf : hdr_wf (eeprom_hdr two_calls.2)) by exact init_hdr_wf.
  split; [exact Hwf|].
  assert (Hrun : exists r,
            do_configuration (0, 0) (keys "net" ++ [Key "013"%char])
              (keys "secret" ++ [Key "013"%char]) sample_names true
              two_calls.2 = Some r)
    by (eexists; vm_compute; reflexivity).
  destruct Hrun as [r Hrun]. exists r. split; [exact Hrun|].
  pose proof (do_configuration_frame _ _ _ _ _ _ _ Hwf Hrun)
    as (Hring & _ & _ & _ & _ & Hbit & _).
  split; [exact Hring | exact Hbit].
Defined.

(** ** A call from its start to its end *)

Lemma call_start_packet_preamble unit serial line dur good sub dt ph nm :
  call_start_packet unit serial line dur good sub dt ph nm
  = preamble unit serial line
    ++ list_ascii_of_string "I S " ++ dur
    ++ list_ascii_of_string (if good then " G " else " B ")
    ++ list_ascii_of_string "A" ++ [sub] ++ list_ascii_of_string " "
    ++ dt ++ ph ++ nm.
Proof. unfold call_start_packet, preamble. by rewrite <- !app_assoc. Qed.

Ltac stepc E := rewrite E; cbv beta iota.

(** A datagram built after the "start call" grammar. *)
Lemma start_call_decode
    (unit serial line dur : list ascii) (good : bool) (sub : ascii)
    (dt ph nm : list ascii) (p0 : parser) :
  length unit = 6%nat -> length serial = 6%nat -> length line = 2%nat ->
  length dur = 4%nat -> length dt = 15%nat -> length ph = 15%nat ->
  (2 <= length nm <= 15)%nat ->
  length (packet p0) = Z.to_nat MAX_PACKET ->
  let received := call_start_packet unit serial line dur good sub dt ph nm in
  received <> [] /\
  exists p',
    decode (received_packet received p0) = (StartCall, p') /\
    packet p' = packet (received_packet received p0) /\
    phoneline p' = line ++ drop 2 (phoneline p0) /\
    duration p' = dur ++ drop 4 (duration p0) /\
    datetime p' = dt ++ drop 15 (datetime p0) /\
    phonenum p' = ph ++ drop 15 (phonenum p0) /\
    callername p'
    = nm ++ zeros (15 - length nm) ++ drop 15 (callername p0).
Proof.
  intros Hu Hs Hl Hd Hdt Hph Hnm Hpk received.
  assert (Hlen : Z.of_nat (length received) = 68 + Z.of_nat (length nm)).
  { subst received. unfold call_start_packet. rewrite !length_app.
    rewrite Hu, Hs, Hl, Hd, Hdt, Hph. destruct good; simpl; lia. }
  split; [intros Hnil; rewrite Hnil in Hlen; simpl in Hlen; lia|].
  destruct (received_cursor received p0 Hpk) as (Hc & Hpl & Hf & _).
  rewrite take_ge in Hc by (unfold MAX_PACKET; lia).
  rewrite Z.min_l in Hpl by (unfold MAX_PACKET; lia).
  assert (H52 : 52 <= pktlen (received_packet received p0)) by lia.
  unfold received in Hc at 2. rewrite call_start_packet_preamble in Hc.
  destruct (preamble_ok unit serial line _ _ Hu Hs Hl H52 Hc)
    as (p1 & E1 & C1 & K1 & L1 & _ & _ & G1 & D1 & A1 & T1 & N1 & M1).
  assert (Hnb : is_booted p1 = (false, p1)).
  { unfold is_booted, c_and, c_test. rewrite L1, Hpl.
    destruct (Z.eqb_spec (Z.of_nat (length received)) 52); [lia|done]. }
  rewrite (decode_after_preamble _ p1 E1), Hnb. cbv beta iota.
  unfold is_start_call, c_and, c_or, c_test.
  rewrite L1, Hpl, in_call_lengths by lia. cbv beta iota.
  destruct (match_ok "I S " p1 _ C1) as (p2 & E2 & C2 & K2 & L2 & F2).
  stepc E2.
  destruct (copy_full f_duration 4 p2 dur _ Hd C2)
    as (p3 & E3 & C3 & K3 & L3 & G3 & F3).
  change (Z.of_nat 4) with 4 in E3. stepc E3.
  assert (Hgb : exists p4,
            (let '(r, q) := match_ " G " p3 in
             if r then (true, q) else match_ " B " q) = (true, p4) /\
            cursor p4 (list_ascii_of_string "A" ++ [sub]
                       ++ list_ascii_of_string " " ++ dt ++ ph ++ nm) /\
            same_buffers p3 p4).
  { destruct good.
    - destruct (match_ok " G " p3 _ C3) as (p4 & E4 & C4 & S4).
      exists p4. by rewrite E4.
    - destruct (match_fail " G " (list_ascii_of_string " ") "G"%char "B"%char
                  (list_ascii_of_string " ") p3 _ eq_refl C3
                  ltac:(discriminate)) as (q & Eq & Cq & Sq).
      destruct (match_ok " B " q _ Cq) as (p4 & E4 & C4 & S4).
      exists p4. rewrite Eq, E4. split_and!; try done.
      by eapply same_buffers_trans. }
  destruct Hgb as (p4 & E4 & C4 & K4 & L4 & F4). stepc E4.
  destruct (match_ok "A" p4 _ C4) as (p5 & E5 & C5 & K5 & L5 & F5).
  stepc E5.
  destruct (copy_full f_atype 1 p5 [sub] _ eq_refl C5)
    as (p6 & E6 & C6 & K6 & L6 & G6 & F6).
  change (Z.of_nat 1) with 1 in E6. stepc E6.
  destruct (match_ok " " p6 _ C6) as (p7 & E7 & C7 & K7 & L7 & F7).
  stepc E7.
  destruct (copy_full f_datetime 15 p7 dt _ Hdt C7)
    as (p8 & E8 & C8 & K8 & L8 & G8 & F8).
  change (Z.of_nat 15) with 15 in E8. stepc E8.
  destruct (copy_full f_phonenum 15 p8 ph _ Hph C8)
    as (p9 & E9 & C9 & K9 & L9 & G9 & F9).
  change (Z.of_nat 15) with 15 in E9. stepc E9.
  destruct (copy_ok f_callername 15 p9 nm C9)
    as (p10 & E10 & C10 & K10 & L10 & G10 & F10).
  change (Z.of_nat 15) with 15 in E10. stepc E10.
  rewrite take_ge in G10 by lia.
  exists p10. as_fields. split_and!; try done.
  - congruence.
  - rewrite F10, F9, F8, F7, F6, F5, F4, F3, F2, G1, Hf by done. done.
  - rewrite F10, F9, F8, F7, F6, F5, F4, G3, F2, D1, Hf by done. done.
  - rewrite F10, F9, G8, F7, F6, F5, F4, F3, F2, T1, Hf by done. done.
  - rewrite F10, G9, F8, F7, F6, F5, F4, F3, F2, N1, Hf by done. done.
  - rewrite G10, F9, F8, F7, F6, F5, F4, F3, F2, M1, Hf by done. done.
Qed.

Lemma show_newest_call_same s :
  calls (show_newest_call s) = calls s /\
  num_calls (show_newest_call s) = num_calls s /\
  newest (show_newest_call s) = newest s.
Proof.
  pose proof (show_newest_call_ring s) as Hr. unfold store_ring in Hr.
  by injection Hr as -> -> _ ->.
Qed.

Lemma parse_phoneline_line p line :
  phoneline p = line ++ [NUL] -> parse_phoneline p = line_of line.
Proof.
  intros Hp. unfold line_of, parse_phoneline. rewrite Hp.
  change (phoneline (set_field f_phoneline (line ++ [NUL]) init_parser))
    with (line ++ [NUL]). done.
Qed.

Lemma add_call_count p s :
  store_inv s -> num_calls (add_call p s) = Z.min (num_calls s + 1) MAX_CALLS.
Proof.
  intros Hinv.
  destruct (held_appends MAX_CALLS empty_record eq_refl [call_of p]
              (store_ring s) Hinv) as (_ & _ & Hc).
  cbn [foldl length] in Hc. rewrite <- add_call_append in Hc by done.
  exact Hc.
Qed.

(** [update_duration] right after the call has been added: the newest
    call is on the line of the "end call". *)
Lemma update_duration_newest p s v :
  store_inv s -> 0 < num_calls s ->
  sscanf_d (duration p) = Some v ->
  cr_phoneline (calls_at s (newest s)) = parse_phoneline p ->
  exists s', update_duration p s = Some s' /\
    calls_at s' (newest s') = set_seconds (to_short v) (calls_at s (newest s)) /\
    num_calls s' = num_calls s.
Proof.
  intros Hinv Hpos Hv Hline. unfold update_duration. rewrite Hv.
  destruct (Z.gtb_spec (num_calls s) 0); [|lia].
  pose proof Hinv as (Hlen & _ & _ & Hw & _). simpl in Hlen, Hw.
  change (Z.to_nat MAX_CALLS) with (S 199). generalize 199%nat. intros fuel.
  cbn [update_duration_loop].
  destruct (arr_get_is_Some (calls s) (newest s)) as [r Hr]; [lia|].
  unfold calls_at in *. rewrite Hr in *. rewrite Hline, Z.eqb_refl.
  eexists. split; [reflexivity|].
  destruct (displayed s =? newest s); cbn [display_call calls newest num_calls];
    rewrite arr_get_set_eq by lia; done.
Qed.

Ltac nul_in H Hnul f :=
  let N := fresh in
  pose proof (Hnul f) as N; cbn [width get_field] in N; rewrite N in H;
  clear N.

(** X23: a call from its start to its end: after the "start call"
    datagram and the "end call" datagram of the same line, the newest
    call of the call list is that call, with the line, date and time,
    number and name of the first datagram and the duration of the second;
    the archive has taken the call without a duration. *)
Theorem call_recorded_with_duration
    (unit serial line dur : list ascii) (good : bool) (sub : ascii)
    (dt ph nm unit' serial' secs rest : list ascii) (v : Z) (st : state) :
  length unit = 6%nat -> length serial = 6%nat -> length line = 2%nat ->
  length dur = 4%nat -> length dt = 15%nat -> length ph = 15%nat ->
  (2 <= length nm <= 15)%nat ->
  length unit' = 6%nat -> length serial' = 6%nat -> length secs = 4%nat ->
  parser_wf (prs st) -> store_inv (sto st) -> archive_inv (nv st) ->
  let start := call_start_packet unit serial line dur good sub dt ph nm in
  let fin := call_end_packet unit' serial' line secs rest in
  70 <= Z.of_nat (length fin) <= 83 ->
  sscanf_d (secs ++ [NUL]) = Some v ->
  let call := mkCall (line_of line) (to_short v) (dt ++ [NUL]) (ph ++ [NUL])
                     (nm ++ zeros (15 - length nm) ++ [NUL]) in
  exists st',
    run_packets [start; fin] st = Some st' /\
    calls_at (sto st') (newest (sto st')) = call /\
    num_calls (sto st') = Z.min (num_calls (sto st) + 1) MAX_CALLS /\
    archive_held (nv st')
    = lastn NUM_EEPROM_CALLS (archive_held (nv st) ++ [set_seconds 0 call]).
Proof.
  intros Hu Hs Hl Hd Hdt Hph Hnm Hu' Hs' Hsec Hwf Hinv Hainv start fin Hfin Hv
    call.
  pose proof Hwf as [Hpk Hnul].
  destruct (start_call_decode unit serial line dur good sub dt ph nm (prs st)
              Hu Hs Hl Hd Hdt Hph Hnm Hpk)
    as (Hne & p1 & Hdec1 & _ & Hline1 & _ & Hdt1 & Hph1 & Hnm1).
  fold start in Hne, Hdec1.
  nul_in Hline1 Hnul f_phoneline. nul_in Hdt1 Hnul f_datetime.
  nul_in Hph1 Hnul f_phonenum. nul_in Hnm1 Hnul f_callername.
  assert (Hwf1 : parser_wf p1).
  { replace p1 with (decode (received_packet start (prs st))).2
      by (by rewrite Hdec1).
    eapply parser_wf_kept; [apply decode_frame|].
    by apply received_packet_wf. }
  pose proof Hwf1 as [Hpk1 Hnul1].
  set (s1 := add_call p1 (sto st)).
  set (st1 := mkState p1 (show_newest_call s1)
                      (eeprom_add_call s1 (nv st)) (bad st) true).
  assert (Hloop1 : loop_packet start st = Some st1)
    by (by rewrite (loop_packet_decoded start st StartCall p1)).
  destruct (end_call_decode unit' serial' line secs rest p1
              Hu' Hs' Hl Hsec Hpk1 Hfin) as (p2 & Hdec2 & Hline2 & Hdur2).
  fold (call_end_packet unit' serial' line secs rest) in Hdec2.
  fold fin in Hdec2.
  nul_in Hline2 Hnul1 f_phoneline. nul_in Hdur2 Hnul1 f_duration.
  assert (Hinv1 : store_inv s1) by (by apply add_call_inv).
  assert (Hcnt1 : num_calls s1 = Z.min (num_calls (sto st) + 1) MAX_CALLS)
    by (by apply add_call_count).
  assert (Hnew1 : calls_at s1 (newest s1) = call_of p1)
    by (by apply add_call_newest).
  destruct (show_newest_call_same s1) as (Hsc & Hsn & Hsw).
  assert (Hnew1' : calls_at (show_newest_call s1)
                            (newest (show_newest_call s1)) = call_of p1)
    by (unfold calls_at; rewrite Hsc, Hsw; exact Hnew1).
  pose proof Hinv as (_ & Hc0 & _). simpl in Hc0.
  destruct (update_duration_newest p2 (show_newest_call s1) v)
    as (s2 & Hup & Hcall & Hnum).
  { by apply show_newest_call_inv. }
  { rewrite Hsn, Hcnt1. unfold MAX_CALLS. lia. }
  { by rewrite Hdur2. }
  { rewrite Hnew1'. cbn [call_of cr_phoneline].
    by rewrite (parse_phoneline_line p1 line), (parse_phoneline_line p2 line). }
  assert (Hne2 : fin <> []).
  { intros Hnil. rewrite Hnil in Hfin. simpl in Hfin. lia. }
  assert (Hloop2 : loop_packet fin st1
                   = Some (mkState p2 s2 (nv st1) (bad st1) true)).
  { rewrite (loop_packet_decoded fin st1 EndCall p2 Hne2 Hdec2).
    cbn [sto st1]. by rewrite Hup. }
  eexists. split_and!.
  - unfold run_packets. cbn [foldl mbind option_bind].
    rewrite Hloop1. cbn [mbind option_bind]. exact Hloop2.
  - cbn [sto]. rewrite Hcall, Hnew1'. unfold call, call_of, set_seconds.
    cbn [cr_phoneline cr_datetime cr_phonenum cr_callername].
    rewrite (parse_phoneline_line p1 line) by done.
    by rewrite Hdt1, Hph1, Hnm1.
  - cbn [sto]. by rewrite Hnum, Hsn.
  - cbn [nv st1]. rewrite eeprom_add_call_held, Hnew1 by done.
    unfold call, call_of, set_seconds.
    cbn [cr_phoneline cr_datetime cr_phonenum cr_callername].
    rewrite (parse_phoneline_line p1 line) by done.
    by rewrite Hdt1, Hph1, Hnm1.
Qed.

Lemma call_recorded_with_duration_witness :
  parser_wf (prs init_state) /\
  exists st',
    run_packets [testcall_start; testcall_end] init_state = Some st' /\
    cr_seconds (calls_at (sto st') (newest (sto st'))) = 3 /\
    c_str (cr_callername (calls_at (sto st') (newest (sto st'))))
    = list_ascii_of_string "Caller one".
Proof.
  split; [exact init_parser_wf|].
  destruct (call_recorded_with_duration sample_unit sample_unit sample_line
              (list_ascii_of_string "0000") true "0"%char
              (list_ascii_of_string "03/14 10:55 PM ")
              (list_ascii_of_string "111 111 1111   ")
              (list_ascii_of_string "Caller one")
              sample_unit sample_unit (list_ascii_of_string "0003")
              (list_ascii_of_string
                 " G A2 03/14 10:56 PM 111 111 1111   Caller one")
              3 init_state
              eq_refl eq_refl eq_refl eq_refl eq_refl eq_refl
              ltac:(simpl; lia) eq_refl eq_refl eq_refl
              init_parser_wf init_store_inv init_nvm_inv
              ltac:(split; discriminate) eq_refl)
    as (st' & Hrun & Hcall & _).
  exists st'. split; [exact Hrun|]. rewrite Hcall. split; reflexivity.
Defined.

(** ** The line of a call is an index of the line names *)

Lemma parse_phoneline_range p : 0 <= parse_phoneline p < MAX_LINES.
Proof.
  unfold parse_phoneline, MAX_LINES, to_byte.
  destruct (sscanf_d (phoneline p)) as [n|]; [|done].
  destruct (Z.leb_spec 1 n), (Z.leb_spec n 8); cbn [andb]; try done.
  rewrite (Z.mod_small n), Z.mod_small by lia. lia.
Qed.

Lemma arr_set_Forall {A} (P : A -> Prop) (a : list A) i x :
  Forall P a -> P x -> Forall P (arr_set a i x).
Proof.
  intros Ha Hx. unfold arr_set. destruct (i <? 0); [done|].
  by apply Forall_insert.
Qed.

Lemma calls_at_line_ok s i : Forall line_ok (calls s) -> line_ok (calls_at s i).
Proof.
  intros Hall. unfold calls_at, arr_get. destruct (i <? 0); [done|].
  destruct (calls s !! Z.to_nat i) as [r|] eqn:Hr; [|done].
  rewrite Forall_lookup in Hall. by eapply Hall.
Qed.

Lemma update_duration_loop_lines seconds line fuel : forall s ndx s',
  Forall line_ok (calls s) ->
  update_duration_loop fuel seconds line s ndx = Some s' ->
  Forall line_ok (calls s').
Proof.
  induction fuel as [|fuel IH]; intros s ndx s' Hall; [done|].
  cbn [update_duration_loop].
  destruct (arr_get (calls s) ndx) as [r|] eqn:Hr; [|done].
  assert (Hrl : line_ok r).
  { pose proof (calls_at_line_ok s ndx Hall) as H. unfold calls_at in H.
    by rewrite Hr in H. }
  destruct (cr_phoneline r =? line).
  - intros [= <-].
    destruct (displayed s =? ndx); cbn [display_call calls];
      by apply arr_set_Forall.
  - destruct (ndx =? oldest s); [by intros [= <-]|]. by apply IH.
Qed.

Lemma loop_packet_lines received st st' :
  lines_ok st -> loop_packet received st = Some st' -> lines_ok st'.
Proof.
  intros [Hs Hm]. unfold loop_packet.
  destruct (read_packet received (prs st)) as [n p0].
  destruct (n =? 0); [by intros [= <-]|].
  destruct (decode (start_parse n p0)) as [br p].
  assert (Hshow : forall s, Forall line_ok (calls s) ->
                            Forall line_ok (calls (show_newest_call s))).
  { intros s Hall. by destruct (show_newest_call_same s) as (-> & _). }
  destruct br as [type| | |].
  - by intros [= <-].
  - intros [= <-]. split; [by apply Hshow|done].
  - intros [= <-].
    assert (Hadd : Forall line_ok (calls (add_call p (sto st)))).
    { unfold add_call.
      destruct (if num_calls (sto st) =? 0 then _ else _) as [[n1 o] w].
      cbn [calls]. apply arr_set_Forall; [done|]. apply parse_phoneline_range. }
    split; cbn [sto nv]; [by apply Hshow|].
    destruct (eeprom_add_call_effect (add_call p (sto st)) (nv st))
      as (-> & _).
    apply arr_set_Forall; [done|]. by apply calls_at_line_ok.
  - unfold update_duration.
    destruct (sscanf_d (duration p)); [|by intros [= <-]].
    destruct (num_calls (sto st) >? 0); [|by intros [= <-]].
    destruct (update_duration_loop _ _ _ _ _) as [s1|] eqn:Hup; [|done].
    intros [= <-]. split; [|done]. cbn [sto].
    by eapply update_duration_loop_lines.
Qed.

Lemma eeprom_load_loop_lines h rom fuel : forall s ndx s',
  Forall line_ok rom -> Forall line_ok (calls s) ->
  eeprom_load_loop fuel h rom s ndx = Some s' ->
  Forall line_ok (calls s').
Proof.
  induction fuel as [|fuel IH]; intros s ndx s' Hrom Hall; [done|].
  cbn [eeprom_load_loop].
  destruct (negb _ && _); [|by intros [= <-]].
  destruct (arr_get rom ndx) as [r|] eqn:Hr; [|done].
  apply IH; [done|]. cbn [calls]. apply arr_set_Forall; [done|].
  unfold arr_get in Hr. destruct (ndx <? 0); [done|].
  rewrite Forall_lookup in Hrom. by eapply Hrom.
Qed.

(** X24: the line of every call is an index of [line_names]: after any
    datagrams every record of the call list and of the archive has a line
    from 0 to 7, and so has every record that a restart loads from the
    archive; [display_call] never reads a line name outside the array. *)
Theorem line_index_in_range (pkts : list (list ascii)) (st st' : state) :
  lines_ok st -> run_packets pkts st = Some st' ->
  lines_ok st' /\
  (forall i, 0 <= cr_phoneline (calls_at (sto st') i) < MAX_LINES) /\
  (forall dn up s0 r,
     Forall line_ok (calls s0) ->
     eeprom_load dn up (power_cycle (nv st')) s0 = Some r ->
     Forall line_ok (calls r.1.2)).
Proof.
  intros Hok Hrun.
  assert (Hok' : lines_ok st').
  { revert st' Hrun. induction pkts as [|pk pkts IH] using rev_ind;
      intros st' Hrun.
    - by injection Hrun as <-.
    - rewrite run_packets_snoc in Hrun.
      destruct (run_packets pkts st) as [st1|]; [|done]. simpl in Hrun.
      eapply loop_packet_lines; [|exact Hrun]. by apply IH. }
  split; [done|]. destruct Hok' as [Hs' Hm']. split.
  - intros i. by apply calls_at_line_ok.
  - intros dn up s0 r Hs0. unfold eeprom_load, power_cycle.
    cbn [ee_hdr ee_calls ee_log].
    destruct (negb _ || dn || up).
    + destruct (center_message _); [|done].
      destruct (center_message _); [|done]. by intros [= <-].
    + destruct (eeprom_load_loop _ _ _ _ _) as [s1|] eqn:Hl; [|done].
      cbn [mbind option_bind].
      destruct (center_message _); [|done]. intros [= <-]. cbn [fst snd].
      eapply eeprom_load_loop_lines; [exact Hm'| |exact Hl]. done.
Qed.

Lemma init_lines_ok : lines_ok init_state.
Proof.
  split; cbn [sto nv init_state init_store init_nvm calls ee_calls];
    apply Forall_replicate; done.
Qed.

Lemma line_index_in_range_witness :
  exists st',
    run_packets [testcall_start; testcall_end] init_state = Some st' /\
    lines_ok st'.
Proof.
  assert (Hrun : exists st',
             run_packets [testcall_start; testcall_end] init_state = Some st')
    by (eexists; vm_compute; reflexivity).
  destruct Hrun as [st' Hrun]. exists st'. split; [exact Hrun|].
  exact (proj1 (line_index_in_range _ init_state st' init_lines_ok Hrun)).
Defined.

(** ** The duration fits its [short int] *)

Lemma skip_spaces_length s : (length (skip_spaces s) <= length s)%nat.
Proof.
  induction s as [|c s IH]; [done|]. simpl.
  destruct (isspace c); simpl; lia.
Qed.

Lemma isdigit_code c : isdigit c = true -> 0 <= code c - 48 <= 9.
Proof. unfold isdigit. lia. Qed.

Lemma scan_digits_bound s : forall acc seen v,
  0 <= acc -> scan_digits s acc seen = Some v ->
  0 <= v < (acc + 1) * 10 ^ Z.of_nat (length s).
Proof.
  induction s as [|c s IH]; intros acc seen v Hacc; cbn [scan_digits length].
  - destruct seen; [|done]. intros [= <-]. simpl. lia.
  - rewrite Nat2Z.inj_succ, Z.pow_succ_r by lia.
    assert (Hpow : 0 < 10 ^ Z.of_nat (length s)) by (apply Z.pow_pos_nonneg; lia).
    destruct (isdigit c) eqn:Hd.
    + apply isdigit_code in Hd. intros Hs.
      apply IH in Hs; [|lia]. nia.
    + destruct seen; [|done]. intros [= <-]. nia.
Qed.

(** X25: the duration of a packet never overflows: the four characters
    of the duration field read as a number between -999 and 9999, which
    the conversion to [short int] leaves as it is. *)
Theorem duration_fits_short (p : parser) (v : Z) :
  parser_wf p -> sscanf_d (duration p) = Some v ->
  -1000 < v < 10000 /\ to_short v = v.
Proof.
  intros [_ Hnul] Hv.
  pose proof (c_str_terminated 4 (duration p) (Hnul f_duration)) as Hlen.
  pose proof (skip_spaces_length (c_str (duration p))) as Hsk.
  assert (Hb : -1000 < v < 10000); [|split; [done|apply to_short_id; lia]].
  unfold sscanf_d in Hv.
  assert (Hscan : forall s v', (length s <= 4)%nat ->
            scan_digits s 0 false = Some v' -> 0 <= v' < 10000).
  { intros s v' Hs Hs'. apply scan_digits_bound in Hs'; [|lia].
    assert (10 ^ Z.of_nat (length s) <= 10 ^ 4)
      by (apply Z.pow_le_mono_r; lia).
    lia. }
  assert (Hscan3 : forall s v', (length s <= 3)%nat ->
            scan_digits s 0 false = Some v' -> 0 <= v' < 1000).
  { intros s v' Hs Hs'. apply scan_digits_bound in Hs'; [|lia].
    assert (10 ^ Z.of_nat (length s) <= 10 ^ 3)
      by (apply Z.pow_le_mono_r; lia).
    lia. }
  destruct (skip_spaces (c_str (duration p))) as [|c r] eqn:Hs.
  - apply Hscan in Hv; [lia|simpl; lia].
  - simpl in Hsk.
    destruct (Ascii.eqb_spec c "+"%char) as [->|Hplus].
    { apply Hscan in Hv; [lia|lia]. }
    destruct (Ascii.eqb_spec c "-"%char) as [->|Hminus].
    { destruct (scan_digits r 0 false) as [v'|] eqn:Hr; [|done].
      injection Hv as <-. apply Hscan3 in Hr; lia. }
    assert (Hv' : scan_digits (c :: r) 0 false = Some v).
    { revert Hv. clear -Hplus Hminus.
      destruct c as [[] [] [] [] [] [] [] []]; try done. }
    apply Hscan in Hv'; [lia|simpl; lia].
Qed.

Lemma duration_fits_short_witness :
  parser_wf (parser_with_line_duration "01" "0042") /\
  to_short 42 = 42.
Proof.
  assert (Hwf : parser_wf (parser_with_line_duration "01" "0042"))
    by (split; [done|by intros []]).
  split; [exact Hwf|].
  exact (proj2 (duration_fits_short (parser_with_line_duration "01" "0042")
                  42 Hwf eq_refl)).
Defined.

(** ** The bytes that [badpacket] prints *)

Lemma decode_cursor_bound p :
  pktptr p = 0 -> 0 <= pktptr (decode p).2 <= 83.
Proof.
  intros Hpp.
  destruct (Z.ltb_spec (pktlen p) 52) as [Hshort|Hlong].
  - unfold decode, bad_preamble, c_or, c_test.
    destruct (Z.ltb_spec (pktlen p) 52); [|lia]. simpl. lia.
  - assert (RW : reads_within (reads p) 0 p).
    { split_and!; try lia. exists []. by rewrite app_nil_r. }
    assert (Hfin : forall b p', b <= 83 -> reads_within (reads p) b p' ->
                                0 <= pktptr p' <= 83).
    { intros b p' Hb (_ & Hq & _). lia. }
    unfold decode.
    destruct (keeps_bad_preamble (reads p) p RW) as [L1 P1].
    destruct (bad_preamble p) as [[] p1]; simpl in *;
      [by eapply (Hfin 52)|].
    destruct (keeps_is_booted (reads p) p1 P1) as [L2 P2].
    destruct (is_booted p1) as [[] p2]; simpl in *;
      [by eapply (Hfin 25)|].
    destruct (keeps_is_start_call (reads p) p2 P2) as [L3 P3].
    destruct (is_start_call p2) as [[] p3]; simpl in *;
      [by eapply (Hfin 83)|].
    destruct (keeps_is_end_call (reads p) p3 P3) as [L4 P4].
    destruct (is_end_call p3) as [[] p4]; simpl in *;
      [by eapply (Hfin 46)|by eapply (Hfin 52)].
Qed.

(** X26: when [loop] calls [badpacket], the ten bytes printed from the
    cursor all lie inside the array [packet] (the cursor is at most at
    offset 83 of its 255 bytes), whatever the datagram. *)
Theorem badpacket_shows_in_array (received : list ascii) (p0 : parser) :
  length (packet p0) = Z.to_nat MAX_PACKET ->
  let p := (decode (received_packet received p0)).2 in
  0 <= pktptr p <= 83 /\
  Forall (fun b => is_Some b) (badpacket_shown p) /\
  length (badpacket_shown p) = 10%nat.
Proof.
  intros Hpk p.
  assert (Hb : 0 <= pktptr p <= 83)
    by (apply decode_cursor_bound, received_pktptr).
  assert (Hl : length (packet p) = Z.to_nat MAX_PACKET).
  { unfold p. destruct (decode_frame (received_packet received p0)) as (-> & _).
    unfold received_packet, read_packet, store_prefix, MAX_PACKET in *.
    destruct p0. simpl in *.
    rewrite length_app, length_drop, !length_take. lia. }
  split; [done|]. unfold badpacket_shown. split.
  - apply Forall_fmap, Forall_seqZ. intros i Hi. simpl.
    destruct (arr_get_is_Some (packet p) (pktptr p + i)) as [c ->]; [|done].
    rewrite Hl. unfold MAX_PACKET. lia.
  - by rewrite length_fmap, length_seqZ.
Qed.

Lemma badpacket_shows_in_array_witness :
  length (packet init_parser) = Z.to_nat MAX_PACKET /\
  Forall (fun b => is_Some b)
    (badpacket_shown (decode (received_packet sample_other init_parser)).2).
Proof.
  split; [reflexivity|].
  exact (proj1 (proj2 (badpacket_shows_in_array sample_other init_parser
                         eq_refl))).
Defined.

(** ** Start-up *)

Lemma do_configuration_kept cg ssid_evs password_evs name_evs yes m r :
  do_configuration cg ssid_evs password_evs name_evs yes m = Some r ->
  archive_ring r.1 = archive_ring m /\
  (header_committed m -> header_committed r.1).
Proof.
  unfold do_configuration.
  destruct (edit_string _ cg _ _ ssid_evs) as [r1|]; [|done].
  cbn [mbind option_bind].
  destruct (edit_string _ r1.2 _ _ password_evs) as [r2|]; [|done].
  cbn [mbind option_bind].
  destruct (edit_names _ 0 r2.2 _ name_evs) as [r3|]; [|done].
  cbn [mbind option_bind].
  destruct (center_message _); [|done]. cbn [mbind option_bind].
  intros [= <-]. split; [done|]. intros [_ Hid]. by split.
Qed.

Lemma join_network_loop_kept m rounds : forall tries x n r,
  archive_ring x.1 = archive_ring m -> header_committed x.1 ->
  join_network_loop rounds tries x n = Some r ->
  archive_ring r.1.1 = archive_ring m /\ header_committed r.1.1 /\
  connect_successes r.2 = connect_successes n.
Proof.
  induction rounds as [|ask rounds IH]; intros tries x n r Hr Hc.
  - by intros [= <-].
  - cbn [join_network_loop].
    destruct (if to_int (tries + 1) >? 10 then _ else _) as [t|] eqn:Ht;
      [|done].
    cbn [mbind option_bind].
    assert (Hn : connect_successes t.2 = connect_successes n).
    { destruct (to_int (tries + 1) >? 10).
      - destruct (center_message _); [|done]. cbn [mbind option_bind] in Ht.
        destruct (center_message _); [|done]. cbn [mbind option_bind] in Ht.
        by injection Ht as <-.
      - by injection Ht as <-. }
    destruct ask as [c|].
    + destruct (run_configuration x c) as [x'|] eqn:Hrun; [|done].
      cbn [mbind option_bind]. intros Hl.
      destruct (do_configuration_kept _ _ _ _ _ _ _ Hrun) as [Hr' Hc'].
      destruct (IH _ _ _ _ (eq_trans Hr' Hr) (Hc' Hc) Hl) as (H1 & H2 & H3).
      split_and!; [done|done|congruence].
    + cbn [mbind option_bind]. intros Hl.
      destruct (IH _ _ _ _ Hr Hc Hl) as (H1 & H2 & H3).
      split_and!; [done|done|congruence].
Qed.

Lemma join_network_kept link m cg n s r :
  header_committed m ->
  join_network link m cg n s = Some r ->
  archive_ring r.1.1.1.1 = archive_ring m /\ header_committed r.1.1.1.1 /\
  r.1.2 = show_newest_call s /\
  connect_successes r.1.1.2 = to_int (connect_successes n + 1).
Proof.
  intros Hc Hj. pose proof (join_network_store _ _ _ _ _ _ Hj) as Hs.
  revert Hj. unfold join_network.
  destruct (center_message (list_ascii_of_string "connecting")); [|done].
  cbn [mbind option_bind]. destruct link as [rounds|]; [|done].
  cbn [mbind option_bind].
  destruct (join_network_loop rounds 0 _ _) as [r0|] eqn:Hl; [|done].
  cbn [mbind option_bind].
  destruct (center_message []); [|done]. cbn [mbind option_bind].
  destruct (center_message (_ ++ _)); [|done]. cbn [mbind option_bind].
  intros [= <-]. cbn [fst snd connect_successes].
  destruct (join_network_loop_kept m rounds 0 (m, cg) _ r0 eq_refl Hc Hl)
    as (H1 & H2 & H3).
  cbn [connect_successes] in H3. rewrite H3. done.
Qed.

(** X27: start-up establishes what [loop] relies on: with a sound
    archive that carries the identification and holds no durations, and
    no button held down, a [setup] that returns (whatever configuration
    dialogues it runs, and however long the network takes to connect)
    leaves the archive's calls as they were, the call list holding
    exactly those calls, the newest of them on display as call number 1,
    and one connection counted.  [setup] returns when a network name is
    stored and the network is connected at the first test, with one
    attempt counted; it does not return when the network never
    connects. *)
Theorem setup_establishes (first : config_input)
    (link : option (list (option config_input))) (m : nvm) :
  archive_inv m -> header_committed m -> archive_zero m ->
  (forall r,
     setup false false first link (power_cycle m) init_store = Some r ->
     archive_inv r.1.1 /\ header_committed r.1.1 /\
     archive_held r.1.1 = archive_held m /\
     store_held r.1.2 = archive_held m /\
     display_ok r.1.2 /\
     (0 < num_calls r.1.2 ->
      displayed r.1.2 = newest r.1.2 /\ displayed_age r.1.2 = 1) /\
     archive_held r.1.1
     = set_seconds 0 <$> lastn NUM_EEPROM_CALLS (store_held r.1.2) /\
     connect_successes r.2 = 1) /\
  (c_str (hdr_ssid (eeprom_hdr m)) <> [] ->
   exists r,
     setup false false first (Some []) (power_cycle m) init_store = Some r /\
     r.2 = mkNet 1 1) /\
  setup false false first None (power_cycle m) init_store = None.
Proof.
  intros Hinv Hcom Hzero.
  destruct (load_loop_store m init_store Hinv eq_refl)
    as (s1 & Hl & Hc & Hn & Hi & _ & Hh & _).
  destruct (load_message (num_calls s1)) as [row Hrow].
  { rewrite NUM_EEPROM_CALLS_eq in Hn. lia. }
  assert (Hload : eeprom_load false false (power_cycle m) init_store
                  = Some (m, s1, [(1, row)])).
  { destruct Hcom as [Hcom Hid].
    unfold eeprom_load, power_cycle. cbn [ee_hdr ee_calls ee_log].
    rewrite Hcom, Hid. cbn [negb orb].
    cbn [displayed displayed_age init_store] in Hl |- *.
    rewrite Hl. cbn [mbind option_bind]. rewrite Hrow.
    cbn [mbind option_bind]. rewrite <- Hcom at 1 2.
    by rewrite committed_nvm. }
  unfold setup. rewrite Hload. cbn [mbind option_bind fst snd].
  split_and!.
  - intros r Hr.
    destruct (hdr_ssid (eeprom_hdr m)) as [|c ssid]; [done|].
    assert (Hx1 : forall x1,
              (if Ascii.eqb c NUL then run_configuration (m, (0, 0)) first
               else Some (m, (0, 0))) = Some x1 ->
              archive_ring x1.1 = archive_ring m /\ header_committed x1.1).
    { destruct (Ascii.eqb c NUL).
      - intros x1 Hrun.
        destruct (do_configuration_kept _ _ _ _ _ _ _ Hrun) as [Hr1 Hc1].
        split; [done|by apply Hc1].
      - by intros x1 [= <-]. }
    destruct (if Ascii.eqb c NUL then _ else _) as [x1|]; [|done].
    destruct (Hx1 x1 eq_refl) as [Hr1 Hc1].
    cbn [mbind option_bind] in Hr.
    destruct (join_network link x1.1 x1.2 (mkNet 0 0) s1) as [j|] eqn:Hj;
      [|done].
    cbn [mbind option_bind] in Hr. injection Hr as <-. cbn [fst snd].
    destruct (join_network_kept _ _ _ _ _ _ Hc1 Hj) as (Hr2 & Hc2 & Hs & Hk).
    rewrite Hr1 in Hr2. rewrite Hs.
    assert (Hheld : archive_held j.1.1.1.1 = archive_held m)
      by (unfold archive_held; by rewrite Hr2).
    pose proof (display_ok_show_newest s1 Hi) as Hok.
    split_and!.
    + unfold archive_inv. by rewrite Hr2.
    + exact Hc2.
    + exact Hheld.
    + by rewrite show_newest_call_held.
    + exact Hok.
    + intros Hpos. destruct (show_newest_call_same s1) as (_ & Hnum & Hnew).
      rewrite Hnum in Hpos. unfold show_newest_call.
      destruct (Z.gtb_spec (num_calls s1) 0); [|lia].
      cbn [display_call displayed displayed_age newest].
      by rewrite Z.eqb_refl.
    + rewrite Hheld, show_newest_call_held, Hh.
      rewrite lastn_short
        by (rewrite <- Hh; unfold store_held;
            rewrite held_length by (simpl; lia); simpl; lia).
      unfold archive_zero in Hzero.
      rewrite <- (list_fmap_id (archive_held m)) at 1.
      apply Forall_fmap_ext_1. eapply Forall_impl; [exact Hzero|].
      intros [] Hs'. simpl in Hs' |- *. by subst.
    + exact Hk.
  - intros Hssid.
    destruct (hdr_ssid (eeprom_hdr m)) as [|c ssid]; [done|].
    simpl in Hssid. destruct (Ascii.eqb c NUL); [done|].
    cbn [mbind option_bind fst snd]. eexists. split; reflexivity.
  - destruct (hdr_ssid (eeprom_hdr m)) as [|c ssid]; [done|].
    destruct (if Ascii.eqb c NUL then _ else _) as [x1|]; [|done].
    cbn [mbind option_bind]. unfold join_network.
    by destruct (center_message _).
Qed.

(** The archive of two calls, with no network name stored yet: the
    configuration is run, and the network connects at the first test. *)
Lemma setup_establishes_witness :
  header_committed two_calls.2 /\
  exists r,
    setup false false sample_config (Some []) (power_cycle two_calls.2)
          init_store
    = Some r /\
    store_held r.1.2 = archive_held two_calls.2 /\
    display_ok r.1.2.
Proof.
  assert (Hc : header_committed two_calls.2)
    by (split; vm_compute; reflexivity).
  assert (Hi : archive_inv two_calls.2)
    by exact (proj2 (proj2 (proj2 (start_calls_rings
                [parser_with_line "01"; parser_with_line "03"]
                init_store init_nvm init_store_inv init_nvm_inv)))).
  assert (Hz : archive_zero two_calls.2)
    by (unfold archive_zero; vm_compute; repeat constructor).
  assert (Hrun : exists r,
            setup false false sample_config (Some []) (power_cycle two_calls.2)
                  init_store = Some r)
    by (eexists; vm_compute; reflexivity).
  destruct Hrun as [r Hrun].
  split; [exact Hc|]. exists r. split; [exact Hrun|].
  destruct (proj1 (setup_establishes sample_config (Some []) two_calls.2
                     Hi Hc Hz)
              r Hrun) as (_ & _ & _ & Hh & Hok & _).
  split; [exact Hh | exact Hok].
Defined.
